(** * PocketPlans: the plan route (app/api/plan/route.ts)

    A shallow embedding of the candidate retrieval, feasibility filtering and
    selection code of the plan endpoint, and the properties of its shortlist
    and swap pool; then of the parsing of the place details, of the photo
    route (app/api/photo) and of the freshness store and the swaps of the
    plan page (app/plan/page.tsx).

    Conventions of the embedding.
    - Strings are sequences of 8-bit code units.  Case mapping
      ([toLowerCase]) and white space ([trim], the regular expression class
      [\s]) are modelled on the ASCII range; every literal the code tests for
      is ASCII.
    - JavaScript numbers are exact rationals ([Q]); instants and durations in
      milliseconds are integers ([Z]).  The functions of the [Math] object
      (sin, cos, asin, sqrt, exp, log10, PI) are an interface, [JsMath], and
      the draws of [Math.random] a sequence indexed by the call number.
    - [null] and [undefined] are [None]; [Date.now()] is one instant per
      request.  On the page every value of [nowMs()] is a parameter of its
      own.
    - The cache, the place provider and the clock are the environment of a
      request, [Env]; a rejected promise is the [Thrown] outcome of the
      [Result] monad. *)

From Stdlib Require Import Ascii String QArith Qminmax Qround Sorted.
From stdpp Require Import base option list strings pretty gmap.

Local Open Scope string_scope.
Local Open Scope list_scope.
Local Open Scope Z_scope.

(** ** Strings *)

Module Str.

Definition lowerAscii (c : ascii) : ascii :=
  let n := nat_of_ascii c in
  if (65 <=? n)%nat && (n <=? 90)%nat then ascii_of_nat (n + 32) else c.

Fixpoint toLowerCase (s : string) : string :=
  match s with
  | EmptyString => EmptyString
  | String c r => String (lowerAscii c) (toLowerCase r)
  end.

Fixpoint startsWith (p s : string) : bool :=
  match p, s with
  | EmptyString, _ => true
  | String a p', String b s' => if Ascii.eqb a b then startsWith p' s' else false
  | String _ _, EmptyString => false
  end.

(** [s.includes(sub)] *)
Fixpoint includes (sub s : string) : bool :=
  startsWith sub s ||
  match s with
  | EmptyString => false
  | String _ r => includes sub r
  end.

Definition isSpace (c : ascii) : bool :=
  let n := nat_of_ascii c in
  ((9 <=? n)%nat && (n <=? 13)%nat) || (n =? 32)%nat.

Fixpoint trimStart (s : string) : string :=
  match s with
  | String c r => if isSpace c then trimStart r else s
  | EmptyString => EmptyString
  end.

(** Drops the trailing white space: a character is kept when something that
    is kept follows it, or when it is no white space itself. *)
Fixpoint trimEnd (s : string) : string :=
  match s with
  | EmptyString => EmptyString
  | String c r =>
      match trimEnd r with
      | EmptyString => if isSpace c then EmptyString else String c EmptyString
      | r' => String c r'
      end
  end.

Definition trim (s : string) : string := trimEnd (trimStart s).

(** JavaScript truthiness of a string. *)
Definition truthy (s : string) : bool :=
  match s with EmptyString => false | _ => true end.

Definition eqb (a b : string) : bool := bool_decide (a = b).

End Str.

(** [x || fallback] and [Boolean(x)] on a nullable string. *)
Definition orElse (x : option string) (fallback : string) : string :=
  match x with
  | Some s => if Str.truthy s then s else fallback
  | None => fallback
  end.

Definition truthyStr (x : option string) : bool :=
  match x with Some s => Str.truthy s | None => false end.

(** [set.has(x)] for a [Set] built from the array [l]. *)
Definition has (l : list string) (x : string) : bool := bool_decide (x ∈ l).

(** ** Failure: a rejected promise or a thrown exception *)

Inductive Result (A : Type) : Type :=
  | Ok (a : A)
  | Thrown (msg : string).
Arguments Ok {A} a.
Arguments Thrown {A} msg.

#[global] Instance Result_ret : MRet Result := fun A a => Ok a.
#[global] Instance Result_bind : MBind Result := fun A B f m =>
  match m with
  | Ok a => f a
  | Thrown e => Thrown e
  end.

(** [try { await m } catch {}] *)
Definition swallow (m : Result unit) : Result unit :=
  match m with
  | Ok u => Ok u
  | Thrown _ => Ok tt
  end.

(** [Promise.all] over jobs already started: the values in order, or the
    rejection. *)
Fixpoint awaitAll {A : Type} (jobs : list (Result A)) : Result (list A) :=
  match jobs with
  | [] => Ok []
  | j :: r => a ← j; l ← awaitAll r; mret (a :: l)
  end.

(** ** Constants *)

Definition ALLOWED_BY_VIBE (vibe : string) : option (list string) :=
  if Str.eqb vibe "Cozy" then Some ["Cafe"; "Dessert"; "Bookstore"; "Wine Bar"; "Tea House"]
  else if Str.eqb vibe "Outdoors" then Some ["Park"; "Scenic Walk"; "Waterfront"; "Outdoor Market"; "Activity"]
  else if Str.eqb vibe "Productive" then Some ["Library"; "Work Cafe"; "Quiet Workspace"; "Study Spot"]
  else if Str.eqb vibe "Social" then Some ["Bar"; "Group Dining"; "Activity Venue"; "Event Space"]
  else if Str.eqb vibe "Luxury" then Some ["Fine Dining"; "Rooftop Bar"; "Specialty Dessert"; "Premium Spot"]
  else None.

Definition VIBES : list string := ["Cozy"; "Outdoors"; "Productive"; "Social"; "Luxury"].

Definition SOCIAL_ALLOWED : list string :=
  ["Bar"; "Group Dining"; "Activity Venue"; "Event Space"].

(** [ALLOWED_BY_VIBE[vibe] ?? ALLOWED_BY_VIBE["Social"]] *)
Definition allowedOrSocial (vibe : string) : list string :=
  default SOCIAL_ALLOWED (ALLOWED_BY_VIBE vibe).

(** [ALLOWED_BY_VIBE[vibe]?.[0] ?? dflt] *)
Definition firstAllowedOr (vibe dflt : string) : string :=
  match ALLOWED_BY_VIBE vibe with
  | Some (c :: _) => c
  | _ => dflt
  end.

Definition KEYWORD_BY_CATEGORY (c : string) : option string :=
  if Str.eqb c "Cafe" then Some "cafe"
  else if Str.eqb c "Work Cafe" then Some "cafe laptop friendly"
  else if Str.eqb c "Dessert" then Some "dessert"
  else if Str.eqb c "Bookstore" then Some "bookstore"
  else if Str.eqb c "Wine Bar" then Some "wine bar"
  else if Str.eqb c "Tea House" then Some "tea house"
  else if Str.eqb c "Library" then Some "library"
  else if Str.eqb c "Quiet Workspace" then Some "coworking space"
  else if Str.eqb c "Study Spot" then Some "study cafe"
  else if Str.eqb c "Bar" then Some "bar"
  else if Str.eqb c "Group Dining" then Some "restaurant"
  else if Str.eqb c "Fine Dining" then Some "fine dining"
  else if Str.eqb c "Rooftop Bar" then Some "rooftop bar"
  else if Str.eqb c "Activity Venue" then Some "arcade bowling"
  else if Str.eqb c "Event Space" then Some "museum"
  else if Str.eqb c "Park" then Some "park"
  else if Str.eqb c "Scenic Walk" then Some "scenic walk"
  else if Str.eqb c "Waterfront" then Some "waterfront"
  else if Str.eqb c "Outdoor Market" then Some "outdoor market"
  else if Str.eqb c "Activity" then Some "things to do"
  else if Str.eqb c "Specialty Dessert" then Some "dessert"
  else if Str.eqb c "Premium Spot" then Some "premium lounge"
  else None.

Definition MIN_REMAINING_MIN : Z := 75.
Definition RELAXED_REMAINING_MIN : Z := 45.
Definition CITY_CENTER_RADIUS_SWAP_M : Z := 16000.
Definition MAX_DIST_KM_SHORTLIST : Q := 10.
Definition MAX_DIST_KM_SWAP : Q := 14.
Definition DETAILS_CAP_TOTAL : nat := 55.
Definition MAX_SEEN_IDS : nat := 220.
Definition MAX_SWAPPED_IDS : nat := 220.
Definition TARGET_SWAP_POOL : nat := 26.
Definition MAX_POOL_RETURN : nat := 60.
Definition CANDIDATE_THRESHOLD : nat := 140.

(** ** Helpers *)

(** A field of the request body that the code reads as a string: absent or
    falsy; a string; or a truthy value of another type, on which [.trim()] is
    no function. *)
Inductive ReqValue :=
  | Missing
  | Text (s : string)
  | Other.

(** [(x || fallback).trim()] *)
Definition trimOr (x : ReqValue) (fallback : string) : Result string :=
  match x with
  | Missing => Ok (Str.trim fallback)
  | Text s => Ok (Str.trim (if Str.truthy s then s else fallback))
  | Other => Thrown "TypeError: trim is not a function"
  end.

(** The properties every object literal inherits: [table[k]] is truthy for
    them although [k] is no key of the table. *)
Definition OBJECT_PROTOTYPE_KEYS : list string :=
  ["constructor"; "__proto__"; "hasOwnProperty"; "isPrototypeOf"; "propertyIsEnumerable";
   "toLocaleString"; "toString"; "valueOf"; "__defineGetter__"; "__defineSetter__";
   "__lookupGetter__"; "__lookupSetter__"].

Definition isPrototypeKey (k : string) : bool := has OBJECT_PROTOTYPE_KEYS k.

Definition pickDefaultVibe (vibe : ReqValue) : Result string :=
  v ← trimOr vibe "Social";
  Ok (if bool_decide (is_Some (ALLOWED_BY_VIBE v)) || isPrototypeKey v then v else "Social").

Definition clamp (n lo hi : Q) : Q := Qmax lo (Qmin hi n).

(** [sanitizeIdList]: the entries of a request array are strings or anything
    else ([None]); the loop stops once [cap] entries are kept. *)
Fixpoint sanitizeIdList_loop (x : list (option string)) (cap : nat) (out : list string)
  : list string :=
  match x with
  | [] => out
  | None :: r => sanitizeIdList_loop r cap out
  | Some v :: r =>
      let s := Str.trim v in
      if Str.truthy s then
        let out' := out ++ [s] in
        if (cap <=? length out')%nat then out' else sanitizeIdList_loop r cap out'
      else sanitizeIdList_loop r cap out
  end.

Definition sanitizeIdList (x : option (list (option string))) (cap : nat) : list string :=
  match x with
  | None => []
  | Some l => sanitizeIdList_loop l cap []
  end.

Definition isOutdoorishCategory (category : string) : bool :=
  let cat := Str.toLowerCase category in
  Str.includes "park" cat ||
  Str.includes "walk" cat ||
  Str.includes "water" cat ||
  Str.includes "outdoor" cat ||
  Str.includes "waterfront" cat ||
  Str.includes "scenic" cat ||
  Str.includes "market" cat ||
  Str.includes "activity" cat.

(** Google types -> internal categories. *)
Definition googleTypeToInternalCategory (types : list string) (vibe : string) : string :=
  let allowed := allowedOrSocial vibe in
  let t := types in
  if has t "bar" || has t "night_club" then
    (if has allowed "Bar" then "Bar" else firstAllowedOr vibe "Venue")
  else if has t "bowling_alley" || has t "movie_theater" || has t "amusement_park" || has t "casino" then
    (if has allowed "Activity Venue" then "Activity Venue" else firstAllowedOr vibe "Activity")
  else if has t "restaurant" then
    (if has allowed "Group Dining" then "Group Dining"
     else if has allowed "Fine Dining" then "Fine Dining"
     else if has allowed "Work Cafe" then "Work Cafe"
     else if has allowed "Study Spot" then "Study Spot"
     else if has allowed "Cafe" then "Cafe" else firstAllowedOr vibe "Restaurant")
  else if has t "cafe" then
    (if has allowed "Work Cafe" then "Work Cafe"
     else if has allowed "Cafe" then "Cafe"
     else firstAllowedOr vibe "Cafe")
  else if has t "bakery" then
    (if has allowed "Dessert" then "Dessert" else firstAllowedOr vibe "Dessert")
  else if has t "library" then
    (if has allowed "Library" then "Library" else firstAllowedOr vibe "Study Spot")
  else if has t "book_store" then
    (if has allowed "Bookstore" then "Bookstore" else firstAllowedOr vibe "Bookstore")
  else if has t "park" then
    (if has allowed "Park" then "Park" else firstAllowedOr vibe "Park")
  else
    let afterAttraction :=
      let afterMuseum :=
        firstAllowedOr vibe "Cafe" in
      if has t "museum" || has t "art_gallery" || has t "stadium" || has t "theater" then
        (if has allowed "Event Space" then "Event Space"
         else if has allowed "Activity Venue" then "Activity Venue"
         else if has allowed "Activity" then "Activity"
         else afterMuseum)
      else afterMuseum in
    if has t "tourist_attraction" || has t "point_of_interest" then
      (if has allowed "Scenic Walk" then "Scenic Walk"
       else if has allowed "Waterfront" then "Waterfront"
       else if has allowed "Activity" then "Activity"
       else afterAttraction)
    else afterAttraction.

(** ** Numbers *)

(** The functions of the JavaScript [Math] object the route calls. *)
Class JsMath := {
  Math_PI : Q;
  Math_sin : Q -> Q;
  Math_cos : Q -> Q;
  Math_asin : Q -> Q;
  Math_sqrt : Q -> Q;
  Math_exp : Q -> Q;
  Math_log10 : Q -> Q;
}.

Definition Qgtb (a b : Q) : bool := negb (Qle_bool a b).
Definition Qltb (a b : Q) : bool := negb (Qle_bool b a).

Record LatLng := { lat : Q; lng : Q }.

Definition haversineKm `{JsMath} (a b : LatLng) : Q :=
  (let R := 6371 in
   let dLat := ((lat b - lat a) * Math_PI) / 180 in
   let dLng := ((lng b - lng a) * Math_PI) / 180 in
   let lat1 := (lat a * Math_PI) / 180 in
   let lat2 := (lat b * Math_PI) / 180 in
   let sin1 := Math_sin (dLat / 2) in
   let sin2 := Math_sin (dLng / 2) in
   let h := sin1 * sin1 + Math_cos lat1 * Math_cos lat2 * sin2 * sin2 in
   2 * R * Math_asin (Qmin 1 (Math_sqrt h)))%Q.

(** ** Closing time arithmetic *)

(** A [Date] is its instant in milliseconds; [minutesSinceMidnight] reads the
    UTC hours and minutes of it. *)
Definition minutesSinceMidnight (d : Z) : Z := (d / 60000) mod 1440.

Definition digit (c : ascii) : option Z :=
  let n := nat_of_ascii c in
  if (48 <=? n)%nat && (n <=? 57)%nat then Some (Z.of_nat n - 48) else None.

(** The third group of the pattern, [(AM|PM)] under the [i] flag, upper-cased. *)
Definition ampmOf (a m : ascii) : option string :=
  if negb (Ascii.eqb (Str.lowerAscii m) "m") then None
  else if Ascii.eqb (Str.lowerAscii a) "a" then Some "AM"
  else if Ascii.eqb (Str.lowerAscii a) "p" then Some "PM"
  else None.

(** The match of [/^(\d{1,2}):(\d{2})\s(AM|PM)$/i]: hour, minute, AM or PM. *)
Definition matchClosingTime (s : string) : option (Z * Z * string) :=
  match list_ascii_of_string s with
  | [h1; colon; m1; m2; sp; a; m] =>
      h ← digit h1; x ← digit m1; y ← digit m2; ap ← ampmOf a m;
      if Ascii.eqb colon ":" && Str.isSpace sp then Some (h, 10 * x + y, ap) else None
  | [h1; h2; colon; m1; m2; sp; a; m] =>
      h ← digit h1; h' ← digit h2; x ← digit m1; y ← digit m2; ap ← ampmOf a m;
      if Ascii.eqb colon ":" && Str.isSpace sp then Some (10 * h + h', 10 * x + y, ap) else None
  | _ => None
  end.

Definition parseClosingTimeToMinutes (closingTime : option string) : option Z :=
  match closingTime with
  | None => None
  | Some s =>
      if negb (Str.truthy s) then None
      else
        match matchClosingTime s with
        | None => None
        | Some (hour, min, ampm) =>
            let hour := if Str.eqb ampm "PM" && negb (hour =? 12) then hour + 12 else hour in
            let hour := if Str.eqb ampm "AM" && (hour =? 12) then 0 else hour in
            Some (hour * 60 + min)
        end
  end.

(** [now] is the value of [Date.now()]. *)
Definition minutesUntilClose (now : Z) (cityNow : Z) (closingTime : option string)
    (closeTs : option Z) : option Z :=
  match closeTs with
  | Some ts =>
      let diff := ts - now in
      Some (if 0 <? diff then diff / 60000 else 0)
  | None =>
      match parseClosingTimeToMinutes closingTime with
      | None => None
      | Some closeMin =>
          let nowMin := minutesSinceMidnight cityNow in
          Some (if nowMin <=? closeMin then closeMin - nowMin else 24 * 60 - nowMin + closeMin)
      end
  end.

(** ** Data *)

Record GoogleCandidate := {
  c_placeId : string;
  c_name : string;
  c_lat : Q;
  c_lng : Q;
}.

(** The payload of [fetchPlaceDetailsById]. *)
Record DetailRecord := {
  d_placeId : option string;
  d_name : string;
  d_rating : option Q;
  d_userRatingsTotal : option Q;
  d_priceLevel : option Q;
  d_types : list string;
  d_openNow : option bool;
  d_businessStatus : option string;
  d_closingTime : option string;
  d_closeTs : option Z;
  d_formattedAddress : option string;
  d_lat : option Q;
  d_lng : option Q;
  d_photoUrls : list string;
}.

Record Option := {
  o_id : string;
  o_name : string;
  o_category : string;
  o_rating : option Q;
  o_etaMin : Z;
  o_openStatus : string;
  o_why : string;
  o_watchouts : list string;
  o_lat : Q;
  o_lng : Q;
  o_address : string;
  o_closingTime : option string;
  o_placeId : option string;
  o_priceLevel : option Q;
  o_userRatingsTotal : option Q;
  o_closeTs : option Z;
  o_photoUrls : list string;
  o_score : option Q;
}.

Record WeatherFlags := {
  precip : bool;
  cold : bool;
  veryCold : bool;
  windy : bool;
  veryWindy : bool;
  minTemp : Q;
}.

(** ** Feasibility rules *)

Record RejectArgs := {
  minRemaining : Z;
  allowUnknownHours : bool;
  maxDistKm : Q;
  allowedSet : list string;
  center : LatLng;
  cityNow : Z;
  cityHour : Z;
  flags : WeatherFlags;
}.

Definition hardReject `{JsMath} (now : Z) (opt : Option) (args : RejectArgs) : option string :=
  if negb (has (allowedSet args) (o_category opt)) then Some "vibe_mismatch"
  else
    let openText := Str.toLowerCase (o_openStatus opt) in
    if Str.includes "closed" openText then Some "closed"
    else
      let distKm := haversineKm (center args) {| lat := o_lat opt; lng := o_lng opt |} in
      if Qgtb distKm (maxDistKm args) then Some "too_far"
      else
        match minutesUntilClose now (cityNow args) (o_closingTime opt) (o_closeTs opt) with
        | None => if allowUnknownHours args then None else Some "unknown_hours"
        | Some minsLeft =>
            if minsLeft <? minRemaining args then Some "closing_soon"
            else if isOutdoorishCategory (o_category opt)
                    && (precip (flags args) || veryCold (flags args) || veryWindy (flags args))
            then Some "weather_block"
            else if isOutdoorishCategory (o_category opt)
                    && (cold (flags args) && (18 <=? cityHour args))
            then Some "weather_block"
            else None
        end.

(** The two profiles of the route. *)
Definition strictArgs (allowed : list string) (c : LatLng) (cityNow cityHour : Z)
    (f : WeatherFlags) : RejectArgs :=
  {| minRemaining := MIN_REMAINING_MIN; allowUnknownHours := false;
     maxDistKm := MAX_DIST_KM_SHORTLIST; allowedSet := allowed; center := c;
     cityNow := cityNow; cityHour := cityHour; flags := f |}.

Definition relaxedArgs (allowed : list string) (c : LatLng) (cityNow cityHour : Z)
    (f : WeatherFlags) : RejectArgs :=
  {| minRemaining := RELAXED_REMAINING_MIN; allowUnknownHours := true;
     maxDistKm := MAX_DIST_KM_SWAP; allowedSet := allowed; center := c;
     cityNow := cityNow; cityHour := cityHour; flags := f |}.

(** ** The environment of a request *)

(** What a cache read gives: [redisGet] throws when the pipeline call fails or
    times out; the string it returns is parsed by the reader. *)
Inductive CacheRead (A : Type) : Type :=
  | ReadThrows
  | ReadNull
  | ReadGarbage
  | ReadValue (a : A).
Arguments ReadThrows {A}.
Arguments ReadNull {A}.
Arguments ReadGarbage {A}.
Arguments ReadValue {A} a.

(** What a call of the place provider gives: [fetchWithTimeout] throws on a
    network error or on the timeout; the response is not ok; its body is no
    JSON; or the data. *)
Inductive Live (A : Type) : Type :=
  | LiveThrows
  | LiveNotOk
  | LiveBadJson
  | LiveData (a : A).
Arguments LiveThrows {A}.
Arguments LiveNotOk {A}.
Arguments LiveBadJson {A}.
Arguments LiveData {A} a.

(** An entry of [data.results]. *)
Record RawResult := {
  r_place_id : option string;
  r_name : option string;
  r_lat : option Q;
  r_lng : option Q;
}.

(** The parts [buildSearchCacheKey] hashes; the key is modelled by them. *)
Record SearchKey := {
  k_lane : string;
  k_lat : Q;
  k_lng : Q;
  k_radius : Z;
  k_q : string;
}.

Record HourForecast := {
  h_timeLabel : string;
  h_temp : Q;
  h_description : string;
  h_wind : Q;
}.

Record WeatherPayload := {
  w_now : HourForecast;
  w_nextHours : list HourForecast;
  w_cityLocalHour : Z;
  w_alerts : list string;
  w_tzOffsetSec : Z;
}.

Record CopyRow := {
  row_placeId : option string;
  row_why : option string;
  row_watchouts : option (list (option string));
}.

Record Env := {
  env_googleKey : bool;                 (* GOOGLE_PLACES_API_KEY is set *)
  env_hasRedis : bool;                  (* hasRedis() *)
  env_production : bool;                (* NODE_ENV === "production" *)
  env_now : Z;                          (* Date.now() *)
  env_serverHour : Z;                   (* new Date().getHours() *)
  env_random : nat -> Q;                (* the n-th value of Math.random() *)
  env_userId : Result (option string);  (* getSupabaseUserIdOrNull() *)
  env_guestKey : string;                (* getGuestKey(headers) *)
  env_incr : string -> Result Z;        (* redisIncrWithTtl(key, _) *)
  env_today : string;                   (* new Date().toISOString().slice(0, 10) *)
  env_weather : string -> Result (option WeatherPayload);   (* getWeather(city) *)
  env_searchGet : SearchKey -> CacheRead (list GoogleCandidate);
  env_searchSet : SearchKey -> Result unit;
  env_nearbyLive : Q -> Q -> Z -> string -> Live (option (list RawResult));
  env_textLive : Q -> Q -> Z -> string -> Live (option (list RawResult));
  env_detailsGet : string -> Z -> CacheRead DetailRecord;
  env_detailsSet : string -> Z -> Result unit;
  (** The payload built from the provider's reply; [None] when the reply has
      no [place_id] or no [name]. *)
  env_detailsLive : string -> Z -> Live (option DetailRecord);
  env_gpt : list (string * string * string) -> Result (option (list CopyRow));
}.

(** ** Google Places: Nearby, Text Search, Details *)

Definition toCandidate (r : RawResult) : option GoogleCandidate :=
  match r_place_id r, r_name r, r_lat r, r_lng r with
  | Some p, Some n, Some la, Some lo =>
      if Str.truthy p && Str.truthy n
      then Some {| c_placeId := p; c_name := n; c_lat := la; c_lng := lo |}
      else None
  | _, _, _, _ => None
  end.

(** The body shared by [googleNearbySearch] and [googleTextSearch], which
    differ in the lane name, the length the query is cut to and the URL. *)
Definition searchLane (env : Env) (lane : string) (cut : nat)
    (live : Q -> Q -> Z -> string -> Live (option (list RawResult)))
    (la lo : Q) (radiusM : Z) (q : string) (allowCache : bool)
  : Result (list GoogleCandidate) :=
  if negb (env_googleKey env) then Ok []
  else
    let cacheKey := {| k_lane := lane; k_lat := la; k_lng := lo; k_radius := radiusM;
                       k_q := String.substring 0 cut (Str.toLowerCase q) |} in
    cached ← (if allowCache && env_hasRedis env then
                match env_searchGet env cacheKey with
                | ReadThrows => Thrown "Redis pipeline failed"
                | ReadValue arr => Ok (Some arr)
                | ReadNull | ReadGarbage => Ok None
                end
              else Ok None);
    match cached with
    | Some arr => Ok arr
    | None =>
        match live la lo radiusM q with
        | LiveThrows => Thrown "fetch failed"
        | LiveNotOk | LiveBadJson => Ok []
        | LiveData data =>
            let results := default [] data in
            let out := omap toCandidate results in
            _ ← (if allowCache && env_hasRedis env
                 then swallow (env_searchSet env cacheKey) else Ok tt);
            Ok out
        end
    end.

Definition googleNearbySearch (env : Env) (la lo : Q) (radiusM : Z) (keyword : string)
    (allowCache : bool) : Result (list GoogleCandidate) :=
  searchLane env "nearby" 80 (env_nearbyLive env) la lo radiusM keyword allowCache.

Definition googleTextSearch (env : Env) (la lo : Q) (radiusM : Z) (query : string)
    (allowCache : bool) : Result (list GoogleCandidate) :=
  searchLane env "text" 90 (env_textLive env) la lo radiusM query allowCache.

Definition fetchPlaceDetailsById (env : Env) (placeId : string) (tzOffsetSec : Z)
  : Result (option DetailRecord) :=
  if negb (env_googleKey env) then Ok None
  else
    cached ← (if env_hasRedis env then
                match env_detailsGet env placeId tzOffsetSec with
                | ReadThrows => Thrown "Redis pipeline failed"
                | ReadValue d => Ok (Some d)
                | ReadNull | ReadGarbage => Ok None
                end
              else Ok None);
    match cached with
    | Some d => Ok (Some d)
    | None =>
        match env_detailsLive env placeId tzOffsetSec with
        | LiveThrows => Thrown "fetch failed"
        | LiveNotOk | LiveBadJson => Ok None
        | LiveData None => Ok None
        | LiveData (Some payload) =>
            _ ← (if env_hasRedis env
                 then swallow (env_detailsSet env placeId tzOffsetSec) else Ok tt);
            Ok (Some payload)
        end
    end.

(** ** Weather flags *)

Definition describesPrecip (d : string) : bool :=
  Str.includes "snow" d || Str.includes "rain" d || Str.includes "drizzle" d ||
  Str.includes "shower" d || Str.includes "thunder" d.

Definition getWeatherFlags (weather : option WeatherPayload) : WeatherFlags :=
  let next := match weather with Some w => take 2 (w_nextHours w) | None => [] end in
  let descs := map (fun h => Str.toLowerCase (h_description h)) next in
  let temps := map h_temp next in
  let winds := map h_wind next in
  let minT := match temps with [] => 999%Q | t :: r => foldl Qmin t r end in
  let maxW := match winds with [] => 0%Q | t :: r => foldl Qmax t r end in
  {| precip := existsb describesPrecip descs;
     cold := Qle_bool minT 2;
     veryCold := Qle_bool minT (-5);
     windy := Qle_bool 9 maxW;
     veryWindy := Qle_bool 13 maxW;
     minTemp := minT |}.

(** ** Scoring *)

Definition vibeStrengthBoost (vibe category : string) : Z :=
  let c := Str.toLowerCase category in
  let v := Str.toLowerCase vibe in
  let inc s := Str.includes s c in
  if Str.eqb v "productive" then
    if inc "library" then 18 else if inc "quiet workspace" then 14
    else if inc "work cafe" then 12 else if inc "study" then 10 else 6
  else if Str.eqb v "social" then
    if inc "bar" then 16 else if inc "activity venue" then 16
    else if inc "group dining" then 12 else if inc "event space" then 10 else 6
  else if Str.eqb v "cozy" then
    if inc "tea" then 14 else if inc "dessert" then 12 else if inc "cafe" then 10
    else if inc "book" then 10 else if inc "wine" then 10 else 6
  else if Str.eqb v "outdoors" then
    if inc "waterfront" then 14 else if inc "park" then 12 else if inc "scenic" then 12
    else if inc "outdoor market" then 10 else if inc "activity" then 10 else 6
  else if Str.eqb v "luxury" then
    if inc "fine dining" then 16 else if inc "rooftop" then 14
    else if inc "premium" then 12 else if inc "specialty dessert" then 10 else 6
  else 6.

Definition timeOfDayBoost (cityHour : Z) (category : string) : Z :=
  let c := Str.toLowerCase category in
  let inc s := Str.includes s c in
  let add (b : bool) (n : Z) (acc : Z) := if b then acc + n else acc in
  let morning := (6 <=? cityHour) && (cityHour <=? 11) in
  let afternoon := (12 <=? cityHour) && (cityHour <=? 16) in
  let evening := (17 <=? cityHour) && (cityHour <=? 21) in
  let late := (22 <=? cityHour) || (cityHour <=? 2) in
  if morning then
    add (inc "library" || inc "study" || inc "quiet workspace") 8
      (add (inc "cafe" || inc "tea" || inc "dessert") 10 0)
  else if afternoon then
    add (inc "park" || inc "scenic" || inc "waterfront" || inc "outdoor") 4
      (add (inc "activity") 6 (add (inc "cafe" || inc "dessert") 6 0))
  else if evening then
    add (inc "event space" || inc "activity venue") 6
      (add (inc "bar" || inc "group dining" || inc "fine dining" || inc "rooftop") 10 0)
  else if late then
    add (inc "park" || inc "scenic" || inc "waterfront") (-10)
      (add (inc "cafe" || inc "library" || inc "book") (-6)
        (add (inc "bar" || inc "rooftop" || inc "group dining") 8 0))
  else 0.

Definition weatherSoftBoost (f : WeatherFlags) (category : string) : Z :=
  let outdoorish := isOutdoorishCategory category in
  let bad := precip f || veryCold f || veryWindy f in
  if negb bad then (if outdoorish then 4 else 0)
  else (if outdoorish then -6 else 6).

Definition isFoodish (category : string) (withBar : bool) : bool :=
  let cat := Str.toLowerCase category in
  Str.includes "dining" cat || Str.includes "fine dining" cat || Str.includes "cafe" cat ||
  Str.includes "dessert" cat || Str.includes "rooftop" cat || Str.includes "wine" cat ||
  (withBar && Str.includes "bar" cat).

(** [rand] is the value [Math.random()] returns in this call. *)
Definition scoreOption `{JsMath} (rand : Q) (opt : Option) (f : WeatherFlags)
    (cityHour : Z) (vibe : string) (vegFriendly : bool)
    (seenSet swappedSet : list string) : Q :=
  (let s0 := default 4.2 (o_rating opt) * 10 in
   let s1 := match o_userRatingsTotal opt with
             | Some n => if Qeq_bool n 0 then s0 else s0 + Math_log10 (n + 1) * 6
             | None => s0
             end in
   let s2 := s1 + inject_Z (vibeStrengthBoost vibe (o_category opt)) in
   let s3 := s2 + inject_Z (timeOfDayBoost cityHour (o_category opt)) in
   let s4 := s3 + inject_Z (weatherSoftBoost f (o_category opt)) in
   let pid := Str.trim (default "" (o_placeId opt)) in
   let s5 := if Str.truthy pid then
               if has swappedSet pid then s4 - 80
               else if has seenSet pid then s4 - 35 else s4
             else s4 in
   let openText := Str.toLowerCase (o_openStatus opt) in
   let s6 := if Str.includes "hours unknown" openText then s5 - 4 else s5 in
   let s7 := if vegFriendly && isFoodish (o_category opt) true then s6 + 6 else s6 in
   s7 + (rand - 0.5) * 2.6)%Q.

(** [weightedPick]: [rand] is the value of [Math.random()], read only when the
    sum of the weights is positive. *)
Fixpoint weightedPick_scan (items : list Option) (weights : list Q) (r : Q)
  : option Option :=
  match items, weights with
  | it :: items', w :: weights' =>
      let r' := (r - w)%Q in
      if Qle_bool r' 0 then Some it
      else match items' with
           | [] => Some it
           | _ => weightedPick_scan items' weights' r'
           end
  | _, _ => None
  end.

Definition weightedPick `{JsMath} (rand : Q) (items : list Option) : option Option :=
  let temp := 18%Q in
  let weights := map (fun x => Math_exp (default 0%Q (o_score x) / temp)%Q) items in
  let sum := foldl Qplus 0%Q weights in
  if Qle_bool sum 0 then head items
  else weightedPick_scan items weights (rand * sum)%Q.

(** Whether [weightedPick] reads [Math.random()]. *)
Definition weightedPick_draws `{JsMath} (items : list Option) : bool :=
  let weights := map (fun x => Math_exp (default 0%Q (o_score x) / 18)%Q) items in
  negb (Qle_bool (foldl Qplus 0%Q weights) 0).

(** ** Multi-lane retrieval *)

Definition fallbackVibesForSwap (primary : string) : list string :=
  if Str.eqb primary "Productive" then ["Productive"; "Cozy"; "Social"]
  else if Str.eqb primary "Cozy" then ["Cozy"; "Productive"; "Social"]
  else if Str.eqb primary "Social" then ["Social"; "Cozy"; "Luxury"]
  else if Str.eqb primary "Outdoors" then ["Outdoors"; "Social"; "Cozy"]
  else if Str.eqb primary "Luxury" then ["Luxury"; "Social"; "Cozy"]
  else [primary; "Cozy"; "Social"].

(** [Array.from(new Set(l))]: the first occurrence of each string, in order. *)
Fixpoint uniqueStrings (l : list string) (seen : list string) : list string :=
  match l with
  | [] => []
  | x :: r => if has seen x then uniqueStrings r seen else x :: uniqueStrings r (x :: seen)
  end.

Definition keywordOf (c : string) : string := default c (KEYWORD_BY_CATEGORY c).

Definition vegKeyword (kw : string) : string :=
  let k := Str.toLowerCase kw in
  let isFood :=
    Str.includes "restaurant" k || Str.includes "fine dining" k || Str.includes "cafe" k ||
    Str.includes "dessert" k || Str.includes "rooftop" k || Str.includes "wine bar" k ||
    Str.includes "bar" k in
  if isFood then kw +:+ " vegetarian" else kw.

Definition baseTextOf (vibe : string) : list string :=
  if Str.eqb vibe "Productive" then
    ["coworking"; "study cafe"; "quiet cafe"; "work cafe"; "library"; "coffee shop laptop"; "wifi cafe"]
  else if Str.eqb vibe "Cozy" then
    ["cozy cafe"; "tea house"; "dessert cafe"; "bookstore cafe"; "quiet cafe"]
  else if Str.eqb vibe "Social" then
    ["cocktail bar"; "bar"; "fun activity"; "arcade"; "group dining"]
  else if Str.eqb vibe "Outdoors" then
    ["park"; "waterfront"; "scenic walk"; "outdoor market"]
  else if Str.eqb vibe "Luxury" then
    ["fine dining"; "rooftop bar"; "tasting menu"; "premium lounge"]
  else [].

Definition buildLaneQueries (vibe : string) (vegFriendly : bool)
  : list string * list string :=
  let allowed := allowedOrSocial vibe in
  let baseNearby := map keywordOf allowed in
  let nearbyKeywords :=
    take 8 (filter (fun s => Str.truthy s)
      ((if vegFriendly then map vegKeyword baseNearby else baseNearby)
         ++ [Str.toLowerCase vibe +:+ " spots"])) in
  let vegText :=
    if vegFriendly
    then ["vegetarian restaurant"; "vegan restaurant"; "vegetarian cafe"; "vegan cafe";
          "plant based restaurant"]
    else [] in
  let textQueries :=
    take 10 (filter (fun s => Str.truthy s)
      (uniqueStrings (vegText ++ baseTextOf vibe ++ map keywordOf allowed) [])) in
  (nearbyKeywords, textQueries).

(** Dedup by placeId. *)
Fixpoint dedupCandidates (l : list GoogleCandidate) (seen : list string)
  : list GoogleCandidate :=
  match l with
  | [] => []
  | c :: r =>
      if negb (Str.truthy (c_placeId c)) then dedupCandidates r seen
      else if has seen (c_placeId c) then dedupCandidates r seen
      else c :: dedupCandidates r (c_placeId c :: seen)
  end.

Definition laneJobs (env : Env) (c : LatLng) (vibeForLanes : string) (radiusM : Z)
    (allowCache vegFriendly : bool) : list (Result (list GoogleCandidate)) :=
  let '(nearbyKeywords, textQueries) := buildLaneQueries vibeForLanes vegFriendly in
  let nearbyJobs :=
    map (fun kw => googleNearbySearch env (lat c) (lng c) radiusM kw allowCache) nearbyKeywords in
  let textJobs :=
    map (fun q => googleTextSearch env (lat c) (lng c) radiusM q allowCache) textQueries in
  nearbyJobs ++ textJobs.

Definition collectCandidatesMultiLane (env : Env) (c : LatLng) (vibeForLanes : string)
    (radiusM : Z) (allowCache vegFriendly : bool) : Result (list GoogleCandidate) :=
  results ← awaitAll (laneJobs env c vibeForLanes radiusM allowCache vegFriendly);
  mret (dedupCandidates (concat results) []).

(** ** Sorting

    [Array.prototype.sort] is stable; [cmp a b] is the number the comparator
    returns, negative or zero when [a] may stay before [b]. *)
Fixpoint insertBy {A : Type} (cmp : A -> A -> Q) (x : A) (l : list A) : list A :=
  match l with
  | [] => [x]
  | y :: r => if Qle_bool (cmp x y) 0 then x :: y :: r else y :: insertBy cmp x r
  end.

Definition sortBy {A : Type} (cmp : A -> A -> Q) (l : list A) : list A :=
  foldr (insertBy cmp) [] l.

(** ** Build Options from candidates *)

Definition candidateDist `{JsMath} (c : LatLng) (a : GoogleCandidate) : Q :=
  haversineKm c {| lat := c_lat a; lng := c_lng a |}.

(** The body of the loop over the details: [None] is [continue]. *)
Definition buildOption (vibe : string) (allowed : list string) (c : LatLng)
    (d : DetailRecord) : option Option :=
  if bool_decide (d_businessStatus d = Some "CLOSED_PERMANENTLY") then None
  else if bool_decide (d_openNow d = Some false) then None
  else
    let category := googleTypeToInternalCategory (d_types d) vibe in
    if negb (has allowed category) then None
    else
      let openStatus :=
        if bool_decide (d_openNow d = Some true) then
          (if truthyStr (d_closingTime d)
           then "Open now • Closes at " +:+ default "" (d_closingTime d)
           else "Open now")
        else "Hours unknown • Check on Maps" in
      Some {| o_id := default (d_name d) (d_placeId d);
              o_name := d_name d;
              o_category := category;
              o_rating := Some (clamp (default 4.4%Q (d_rating d)) 4.1 5.0);
              o_etaMin := 20;
              o_openStatus := openStatus;
              o_why := "—";
              o_watchouts := ["Can be busy at peak hours"; "Check live hours on Maps"];
              o_lat := default (lat c) (d_lat d);
              o_lng := default (lng c) (d_lng d);
              o_address := default "" (d_formattedAddress d);
              o_closingTime := d_closingTime d;
              o_placeId := d_placeId d;
              o_priceLevel := d_priceLevel d;
              o_userRatingsTotal := d_userRatingsTotal d;
              o_closeTs := d_closeTs d;
              o_photoUrls := d_photoUrls d;
              o_score := None |}.

Definition detailsToFetch `{JsMath} (candidates : list GoogleCandidate) (c : LatLng)
  : list GoogleCandidate :=
  take DETAILS_CAP_TOTAL
    (sortBy (fun a b => (candidateDist c a - candidateDist c b)%Q) candidates).

Definition buildOptionsFromCandidates `{JsMath} (env : Env)
    (candidates : list GoogleCandidate) (tzOffsetSec : Z) (vibe : string)
    (allowed : list string) (c : LatLng) : Result (list Option) :=
  awaitAll
    (map (fun a => fetchPlaceDetailsById env (c_placeId a) tzOffsetSec)
         (detailsToFetch candidates c))
  ≫= fun detailsList : list (option DetailRecord) =>
  Ok (omap (fun d : option DetailRecord =>
              match d with
              | Some d => buildOption vibe allowed c d
              | None => None
              end) detailsList).

(** ** Diversity caps for the pool *)

Definition catKey (o : Option) : string :=
  if Str.truthy (o_category o) then o_category o else "Other".

Fixpoint diversifyPool_loop (items : list Option) (maxPerCategory : nat)
    (counts : gmap string nat) : list Option :=
  match items with
  | [] => []
  | it :: r =>
      let c := catKey it in
      let n := default 0%nat (counts !! c) in
      if (maxPerCategory <=? n)%nat then diversifyPool_loop r maxPerCategory counts
      else it :: diversifyPool_loop r maxPerCategory (<[c := S n]> counts)
  end.

Definition diversifyPool (items : list Option) (maxPerCategory : nat) : list Option :=
  diversifyPool_loop items maxPerCategory ∅.

(** ** The request *)

Record PlanRequest := {
  req_city : ReqValue;
  req_vibe : ReqValue;
  req_withWho : option string;
  req_vegFriendly : option bool;
  req_seenPlaceIds : option (list (option string));
  req_swappedPlaceIds : option (list (option string));
}.

Definition CITY_CENTERS (city : string) : option LatLng :=
  if Str.eqb city "Boston" then Some {| lat := 42.3601; lng := -71.0589 |}
  else if Str.eqb city "New York" then Some {| lat := 40.7128; lng := -74.006 |}
  else if Str.eqb city "San Francisco" then Some {| lat := 37.7749; lng := -122.4194 |}
  else if Str.eqb city "Chicago" then Some {| lat := 41.8781; lng := -87.6298 |}
  else if Str.eqb city "Seattle" then Some {| lat := 47.6062; lng := -122.3321 |}
  else if Str.eqb city "Austin" then Some {| lat := 30.2672; lng := -97.7431 |}
  else if Str.eqb city "Los Angeles" then Some {| lat := 34.0522; lng := -118.2437 |}
  else if Str.eqb city "Washington DC" then Some {| lat := 38.9072; lng := -77.0369 |}
  else if Str.eqb city "Miami" then Some {| lat := 25.7617; lng := -80.1918 |}
  else if Str.eqb city "Atlanta" then Some {| lat := 33.749; lng := -84.388 |}
  else None.

Definition BOSTON : LatLng := {| lat := 42.3601; lng := -71.0589 |}.

Definition pickDefaultCity (city : ReqValue) : Result string :=
  c ← trimOr city "Boston";
  Ok (if bool_decide (is_Some (CITY_CENTERS c)) || isPrototypeKey c then c else "Boston").

Definition safeString (x : option string) (fallback : string) : string :=
  match x with
  | Some s => if Str.truthy (Str.trim s) then Str.trim s else fallback
  | None => fallback
  end.

Definition safeBool (x : option bool) : bool :=
  match x with Some true => true | _ => false end.

(** ** Rate limiting policy *)

Inductive RateDecision :=
  | RateOk
  | RateDenied (status : Z) (retryAfterSec : Z) (message : string).

Definition enforceRateLimit (env : Env) (identityKey : string) (guest : bool)
  : Result RateDecision :=
  if negb (env_hasRedis env) then
    if negb (env_production env) then Ok RateOk
    else Ok (RateDenied 500 0 "Server not configured (rate limiter missing).")
  else
    let perMinMax := if guest then 3 else 12 in
    let perDayMax := if guest then 15 else 200 in
    let minKey := "rl:min:" +:+ identityKey in
    let dayKey := "rl:day:" +:+ identityKey +:+ ":" +:+ env_today env in
    minCount ← env_incr env minKey;
    dayCount ← env_incr env dayKey;
    if perMinMax <? minCount
    then Ok (RateDenied 429 60 "Too many requests. Please slow down.")
    else if perDayMax <? dayCount
    then Ok (RateDenied 429 3600 "Daily limit reached. Try again later.")
    else Ok RateOk.

(** ** POST: retrieval *)

(** The loop over [vibeOrder], with its early exit. *)
Fixpoint retrieveLoop (env : Env) (c : LatLng) (vegFriendly : bool)
    (vibeOrder : list string) (allCandidates : list GoogleCandidate)
  : Result (list GoogleCandidate) :=
  match vibeOrder with
  | [] => Ok allCandidates
  | vLane :: rest =>
      candidates ← collectCandidatesMultiLane env c vLane CITY_CENTER_RADIUS_SWAP_M true vegFriendly;
      let allCandidates' := allCandidates ++ candidates in
      if (CANDIDATE_THRESHOLD <=? length allCandidates')%nat then Ok allCandidates'
      else retrieveLoop env c vegFriendly rest allCandidates'
  end.

Definition seenFirstCmp `{JsMath} (c : LatLng) (seenSet : list string)
    (a b : GoogleCandidate) : Q :=
  let as_ := if has seenSet (c_placeId a) then 1%Q else 0%Q in
  let bs := if has seenSet (c_placeId b) then 1%Q else 0%Q in
  if negb (Qeq_bool as_ bs) then (as_ - bs)%Q
  else (candidateDist c a - candidateDist c b)%Q.

(** [candidatesFiltered] *)
Definition POST_candidates `{JsMath} (env : Env) (c : LatLng) (vibe : string)
    (vegFriendly : bool) (seenSet swappedSet : list string)
  : Result (list GoogleCandidate) :=
  allCandidates ← retrieveLoop env c vegFriendly (fallbackVibesForSwap vibe) [];
  let uniq := dedupCandidates allCandidates [] in
  let sorted := sortBy (seenFirstCmp c seenSet) uniq in
  Ok (List.filter (fun a => negb (has swappedSet (c_placeId a))) sorted).

(** ** POST: scoring, the swap pool and the shortlist *)

Definition withScore (o : Option) (s : option Q) : Option :=
  {| o_id := o_id o; o_name := o_name o; o_category := o_category o;
     o_rating := o_rating o; o_etaMin := o_etaMin o; o_openStatus := o_openStatus o;
     o_why := o_why o; o_watchouts := o_watchouts o; o_lat := o_lat o; o_lng := o_lng o;
     o_address := o_address o; o_closingTime := o_closingTime o; o_placeId := o_placeId o;
     o_priceLevel := o_priceLevel o; o_userRatingsTotal := o_userRatingsTotal o;
     o_closeTs := o_closeTs o; o_photoUrls := o_photoUrls o; o_score := s |}.

Definition withId (o : Option) (i : string) : Option :=
  {| o_id := i; o_name := o_name o; o_category := o_category o;
     o_rating := o_rating o; o_etaMin := o_etaMin o; o_openStatus := o_openStatus o;
     o_why := o_why o; o_watchouts := o_watchouts o; o_lat := o_lat o; o_lng := o_lng o;
     o_address := o_address o; o_closingTime := o_closingTime o; o_placeId := o_placeId o;
     o_priceLevel := o_priceLevel o; o_userRatingsTotal := o_userRatingsTotal o;
     o_closeTs := o_closeTs o; o_photoUrls := o_photoUrls o; o_score := o_score o |}.

Definition withCopy (o : Option) (why : string) (watchouts : list string) : Option :=
  {| o_id := o_id o; o_name := o_name o; o_category := o_category o;
     o_rating := o_rating o; o_etaMin := o_etaMin o; o_openStatus := o_openStatus o;
     o_why := why; o_watchouts := watchouts; o_lat := o_lat o; o_lng := o_lng o;
     o_address := o_address o; o_closingTime := o_closingTime o; o_placeId := o_placeId o;
     o_priceLevel := o_priceLevel o; o_userRatingsTotal := o_userRatingsTotal o;
     o_closeTs := o_closeTs o; o_photoUrls := o_photoUrls o; o_score := o_score o |}.

(** What a request fixes before the candidates are looked at. *)
Record Ctx := {
  x_vibe : string;
  x_withWho : string;
  x_vegFriendly : bool;
  x_seenSet : list string;
  x_swappedSet : list string;
  x_allowed : list string;
  x_center : LatLng;
  x_flags : WeatherFlags;
  x_cityHour : Z;
  x_cityNow : Z;
  x_now : Z;
}.

(** [scoredAll]: the i-th built Option reads the i-th value of [Math.random()]. *)
Definition POST_scoredAll `{JsMath} (rnd : nat -> Q) (x : Ctx) (built : list Option)
  : list Option :=
  sortBy (fun a b => (default 0 (o_score b) - default 0 (o_score a))%Q)
    (imap (fun i o =>
             withScore o (Some (scoreOption (rnd i) o (x_flags x) (x_cityHour x) (x_vibe x)
                                  (x_vegFriendly x) (x_seenSet x) (x_swappedSet x))))
          built).

Definition dedupKey (o : Option) : string :=
  let p := Str.trim (default "" (o_placeId o)) in
  if Str.truthy p then p
  else Str.toLowerCase (o_name o) +:+ "|" +:+ Str.toLowerCase (o_address o).

Fixpoint POST_deduped (scoredAll : list Option) (seenKeys : list string) : list Option :=
  match scoredAll with
  | [] => []
  | o :: r =>
      if has seenKeys (dedupKey o) then POST_deduped r seenKeys
      else o :: POST_deduped r (dedupKey o :: seenKeys)
  end.

(** A filter whose callback counts the reason of each rejection in
    [droppedCounts]: the verdict is [None] to keep the Option, [Some None] to
    drop it silently, [Some (Some r)] to drop it and count [r]. *)
Fixpoint filterCounting (verdict : Option -> option (option string)) (l : list Option)
    (dropped : gmap string nat) : list Option * gmap string nat :=
  match l with
  | [] => ([], dropped)
  | o :: r =>
      match verdict o with
      | None => let '(kept, dc) := filterCounting verdict r dropped in (o :: kept, dc)
      | Some None => filterCounting verdict r dropped
      | Some (Some reason) =>
          filterCounting verdict r (<[reason := S (default 0%nat (dropped !! reason))]> dropped)
      end
  end.

Definition relaxedOf (x : Ctx) : RejectArgs :=
  relaxedArgs (x_allowed x) (x_center x) (x_cityNow x) (x_cityHour x) (x_flags x).

Definition strictOf (x : Ctx) : RejectArgs :=
  strictArgs (x_allowed x) (x_center x) (x_cityNow x) (x_cityHour x) (x_flags x).

Definition swapVerdict `{JsMath} (x : Ctx) (o : Option) : option (option string) :=
  match hardReject (x_now x) o (relaxedOf x) with
  | Some r => Some (Some r)
  | None => None
  end.

Definition hasClose (o : Option) : bool :=
  match o_closeTs o with Some ts => negb (ts =? 0) | None => false end
  || truthyStr (o_closingTime o).

Definition strictVerdict `{JsMath} (x : Ctx) (o : Option) : option (option string) :=
  if negb (Str.includes "open now" (Str.toLowerCase (o_openStatus o))) then Some None
  else if negb (hasClose o) then Some None
  else
    match hardReject (x_now x) o (strictOf x) with
    | Some r => Some (Some r)
    | None => None
    end.

Definition notSeen (seenSet : list string) (o : Option) : bool :=
  negb (has seenSet (Str.trim (default "" (o_placeId o)))).

(** [Math.floor(TARGET_SWAP_POOL * 0.7)] *)
Definition SWAP_FRESH_MIN : nat :=
  Z.to_nat (Qfloor (inject_Z (Z.of_nat TARGET_SWAP_POOL) * 0.7)%Q).

(** [swapPool], diversified and capped. *)
Definition POST_swapPool (seenSet : list string) (swapFeasible : list Option) : list Option :=
  let swapNotSeen := List.filter (notSeen seenSet) swapFeasible in
  let swapPool :=
    if (SWAP_FRESH_MIN <=? length swapNotSeen)%nat then swapNotSeen else swapFeasible in
  take MAX_POOL_RETURN (diversifyPool swapPool 6).

Definition selKey (o : Option) : string :=
  let p := Str.trim (default "" (o_placeId o)) in
  if Str.truthy p then p else Str.toLowerCase (o_name o).

Definition countOf (catCount : gmap string nat) (k : string) : nat :=
  default 0%nat (catCount !! k).

(** The selection loop.  Every iteration pushes one Option, so [fuel] is
    [5 - picked.length]; [calls] counts the values of [Math.random()] read so
    far. *)
Fixpoint pickLoop `{JsMath} (rnd : nat -> Q) (fuel calls : nat)
    (picked remaining : list Option) (catCount : gmap string nat) : list Option :=
  match fuel, remaining with
  | O, _ => picked
  | _, [] => picked
  | S fuel', _ :: _ =>
      let candidatesNow := List.filter (fun o => (countOf catCount (catKey o) <? 2)%nat) remaining in
      let poolForPick := match candidatesNow with [] => remaining | _ => candidatesNow end in
      match weightedPick (rnd calls) poolForPick with
      | None => picked
      | Some chosen =>
          let calls' := if weightedPick_draws poolForPick then S calls else calls in
          let catCount' := <[catKey chosen := S (countOf catCount (catKey chosen))]> catCount in
          let remaining' :=
            List.filter (fun o => negb (Str.eqb (selKey o) (selKey chosen))) remaining in
          pickLoop rnd fuel' calls' (picked ++ [chosen]) remaining' catCount'
      end
  end.

(** Ensure not all same category if we can help it. *)
Definition swapLastIfUniform (top30 picked : list Option) : list Option :=
  match picked with
  | [p0; p1; p2; p3; p4] =>
      let cat0 := o_category p0 in
      if forallb (fun p => Str.eqb (o_category p) cat0) picked then
        match List.find (fun o => negb (Str.eqb (o_category o) cat0)) top30 with
        | Some alt => [p0; p1; p2; p3; alt]
        | None => picked
        end
      else picked
  | _ => picked
  end.

(** [picked]: [calls] values of [Math.random()] were read by the scoring. *)
Definition POST_picked `{JsMath} (rnd : nat -> Q) (calls : nat)
    (strictCandidates : list Option) : list Option :=
  let top30 := take 30 strictCandidates in
  swapLastIfUniform top30 (pickLoop rnd 5 calls [] top30 ∅).

(** ** POST: copy *)

(** [[...new Map(entries).values()]]: a key keeps the place of its first
    entry and the value of its last. *)
Fixpoint mapSet (k : string) (v : Option) (m : list (string * Option))
  : list (string * Option) :=
  match m with
  | [] => [(k, v)]
  | (k', v') :: r => if Str.eqb k k' then (k, v) :: r else (k', v') :: mapSet k v r
  end.

Definition copyTargets (picked swapPool : list Option) : list Option :=
  let entries := omap (fun p => match o_placeId p with
                                | Some k => if Str.truthy k then Some (k, p) else None
                                | None => None
                                end) (picked ++ swapPool) in
  take 28 (map snd (foldl (fun m e => mapSet (fst e) (snd e) m) [] entries)).

Definition copyById_of (gptCopy : option (list CopyRow))
  : gmap string (string * list string) :=
  match gptCopy with
  | None => ∅
  | Some rows =>
      foldl (fun m row =>
               match row_placeId row, row_why row, row_watchouts row with
               | Some pid, Some why, Some w =>
                   <[pid := (Str.trim why, take 2 (omap (fun s : option string => s) w))]> m
               | _, _, _ => m
               end) ∅ rows
  end.

Definition DEFAULT_WATCHOUTS : list string :=
  ["Can be busy at peak hours"; "Check live hours on Maps"].

Definition applyCopy (x : Ctx) (copyById : gmap string (string * list string))
    (opt : Option) : Option :=
  let pid := Str.trim (default "" (o_placeId opt)) in
  let copy := if Str.truthy pid then copyById !! pid else None in
  let why :=
    orElse (fst <$> copy)
      ("Fits a " +:+ x_vibe x +:+ " vibe with " +:+ Str.toLowerCase (x_withWho x) +:+ ".") in
  let watchouts :=
    take 2 (match snd <$> copy with
            | Some (w :: r) => w :: r
            | _ => DEFAULT_WATCHOUTS
            end) in
  let watchouts' :=
    if x_vegFriendly x && isFoodish (o_category opt) false
       && negb (Str.includes "veget" (Str.toLowerCase why))
    then take 2 [default "Can be busy at peak hours" (head watchouts);
                 "Veg options not confirmed — check menu."]
    else watchouts in
  withCopy opt why watchouts'.

(** ** POST: the response *)

Definition limitedReason (allowed : list string) (dropped : gmap string nat) : string :=
  let weatherDrops :=
    if existsb isOutdoorishCategory allowed then countOf dropped "weather_block" else 0%nat in
  let closeDrops := countOf dropped "closing_soon" in
  let unknownDrops := countOf dropped "unknown_hours" in
  if (0 <? weatherDrops)%nat && (Nat.max closeDrops unknownDrops <=? weatherDrops)%nat
  then "Weather limits outdoor options right now."
  else if (0 <? closeDrops)%nat && (Nat.max weatherDrops unknownDrops <=? closeDrops)%nat
  then "Many places close soon right now."
  else if (0 <? unknownDrops)%nat
  then "Many places don’t have reliable hours right now."
  else "Limited matches — try adjusting filters.".

Definition toPublicOption (o : Option) : Option := withScore o None.

Inductive Response :=
  | RespError (status : Z) (error : string) (retryAfter : option Z)
  | RespPlan (options : list Option) (weather : option WeatherPayload)
      (limitedAvailability : bool) (reason : option string) (pool : list Option).

(** The Options in play once the details are fetched: the swap pool and the
    shortlist before the copy is applied, and the rejection counts. *)
Definition POST_select `{JsMath} (rnd : nat -> Q) (x : Ctx) (built : list Option)
  : list Option * list Option * gmap string nat :=
  let deduped := POST_deduped (POST_scoredAll rnd x built) [] in
  let '(swapFeasible, dropped1) := filterCounting (swapVerdict x) deduped ∅ in
  let swapPool := POST_swapPool (x_seenSet x) swapFeasible in
  let '(strictCandidates, dropped2) := filterCounting (strictVerdict x) deduped dropped1 in
  let picked := POST_picked rnd (length built) strictCandidates in
  (picked, swapPool, dropped2).

Definition tzOffsetOf (weather : option WeatherPayload) : Z :=
  match weather with Some w => w_tzOffsetSec w | None => 0 end.

(** The city and the vibe of a body on which neither [pickDefaultCity] nor
    [pickDefaultVibe] throws. *)
Definition cityOf (body : PlanRequest) : string :=
  match pickDefaultCity (req_city body) with Ok c => c | Thrown _ => "Boston" end.

Definition vibeOf (body : PlanRequest) : string :=
  match pickDefaultVibe (req_vibe body) with Ok v => v | Thrown _ => "Social" end.

(** The values [POST] derives from the body, the weather and the clock. *)
Definition requestCtx (env : Env) (body : PlanRequest) (weather : option WeatherPayload)
  : Ctx :=
  {| x_vibe := vibeOf body;
     x_withWho := safeString (req_withWho body) "Solo";
     x_vegFriendly := safeBool (req_vegFriendly body);
     x_seenSet := sanitizeIdList (req_seenPlaceIds body) MAX_SEEN_IDS;
     x_swappedSet := sanitizeIdList (req_swappedPlaceIds body) MAX_SWAPPED_IDS;
     x_allowed := allowedOrSocial (vibeOf body);
     x_center := default BOSTON (CITY_CENTERS (cityOf body));
     x_flags := getWeatherFlags weather;
     x_cityHour := match weather with
                   | Some w => w_cityLocalHour w
                   | None => env_serverHour env
                   end;
     x_cityNow := env_now env + tzOffsetOf weather * 1000;
     x_now := env_now env |}.

(** The part of [POST] inside [try], after the rate limiter.  For a vibe
    that is an inherited property, [new Set(allowedCategories)] throws; for
    such a city, the center has no [lat] and the first lane throws on
    [opts.lat.toFixed]. *)
Definition POST_plan `{JsMath} (env : Env) (body : PlanRequest) : Result Response :=
  city ← pickDefaultCity (req_city body);
  vibe ← pickDefaultVibe (req_vibe body);
  if isPrototypeKey vibe then Thrown "TypeError: object is not iterable"
  else
  weather ← env_weather env city;
  if isPrototypeKey city then Thrown "TypeError: Cannot read properties of undefined"
  else
  let x := requestCtx env body weather in
  candidatesFiltered ←
    POST_candidates env (x_center x) (x_vibe x) (x_vegFriendly x) (x_seenSet x) (x_swappedSet x);
  built ← buildOptionsFromCandidates env candidatesFiltered (tzOffsetOf weather)
             (x_vibe x) (x_allowed x) (x_center x);
  let '(picked, swapPool, dropped) := POST_select (env_random env) x built in
  let limitedAvailability := (length picked <? 5)%nat in
  gptCopy ← env_gpt env
    (map (fun p => (default "" (o_placeId p), o_name p, o_category p))
         (copyTargets picked swapPool));
  let copyById := copyById_of gptCopy in
  let picked' := map (applyCopy x copyById) picked in
  let swapPool' := map (applyCopy x copyById) swapPool in
  let reason :=
    if limitedAvailability then Some (limitedReason (x_allowed x) dropped) else None in
  let finalOptions := imap (fun idx o => withId o (pretty (S idx))) picked' in
  let poolIsSmall := (length swapPool' <? 10)%nat in
  Ok (RespPlan (map toPublicOption finalOptions) weather
        (limitedAvailability || poolIsSmall)
        (if poolIsSmall && negb limitedAvailability
         then Some "Swaps are limited right now — try again shortly." else reason)
        (map toPublicOption swapPool')).

(** [POST]: [body] is [None] when the request body is no JSON. *)
Definition POST `{JsMath} (env : Env) (body : option PlanRequest) : Response :=
  let attempt : Result Response :=
    if negb (env_googleKey env)
    then Ok (RespError 500 "Missing GOOGLE_PLACES_API_KEY." None)
    else
      userId ← env_userId env;
      let identityKey := match userId with
                         | Some u => if Str.truthy u then "u:" +:+ u else env_guestKey env
                         | None => env_guestKey env
                         end in
      let guest := negb (truthyStr userId) in
      rl ← enforceRateLimit env identityKey guest;
      match rl with
      | RateDenied status retryAfterSec message =>
          Ok (RespError status message (if retryAfterSec =? 0 then None else Some retryAfterSec))
      | RateOk =>
          match body with
          | None => Ok (RespError 400 "Invalid JSON body." None)
          | Some b => POST_plan env b
          end
      end in
  match attempt with
  | Ok r => r
  | Thrown _ => RespError 500 "Plan generation failed." None
  end.

(** ** Details parsing (closing time) *)

Fixpoint digitsValue (s : string) (acc : option Z) : option Z :=
  match s with
  | String c r =>
      match digit c with
      | Some d => digitsValue r (Some (10 * default 0 acc + d))
      | None => acc
      end
  | EmptyString => acc
  end.

(** [parseInt(s, 10)]: leading white space, a sign, then the digits up to the
    first other character; [None] is [NaN]. *)
Definition parseInt (s : string) : option Z :=
  match Str.trimStart s with
  | String c r =>
      if Ascii.eqb c "-" then Z.opp <$> digitsValue r None
      else if Ascii.eqb c "+" then digitsValue r None
      else digitsValue (String c r) None
  | EmptyString => None
  end.

Definition parseHHMM (raw : string) : option Z :=
  hh ← parseInt (String.substring 0 2 raw);
  mm ← parseInt (String.substring 2 (String.length raw - 2) raw);
  Some (hh * 60 + mm).

(** [s.padStart(2, "0")] *)
Definition padStart2 (s : string) : string :=
  match String.length s with
  | O => "00"
  | S O => "0" +:+ s
  | _ => s
  end.

Definition formatMinutesToLabel (mins : Z) : string :=
  let h24 := Z.rem (mins / 60) 24 in
  let m := Z.rem mins 60 in
  let suffix := if 12 <=? h24 then "PM" else "AM" in
  let h12 := if Z.rem h24 12 =? 0 then 12 else Z.rem h24 12 in
  pretty h12 +:+ ":" +:+ padStart2 (pretty m) +:+ " " +:+ suffix.

(** [d.getUTCDay()]: the first day of the epoch was a Thursday. *)
Definition utcDay (d : Z) : Z := (d / 86400000 + 4) mod 7.

(** An entry of [opening_hours.periods]: a field is [None] when it is absent
    or of another type than the code asks for; the days are whole numbers. *)
Record Period := {
  p_openDay : option Z;
  p_openTime : option string;
  p_closeDay : option Z;
  p_closeTime : option string;
}.

Definition WEEK : Z := 7 * 1440.

(** The body of the loop of [getActivePeriodClose]: the minutes left in a
    period that holds the instant [nowW] of the week, [None] on [continue].
    A time that parses to [NaN] makes both interval tests false. *)
Definition periodMinsLeft (nowW : Z) (p : Period) : option Z :=
  match p_openDay p, p_openTime p, p_closeDay p, p_closeTime p with
  | Some oDay, Some oTime, Some cDay, Some cTime =>
      match parseHHMM oTime, parseHHMM cTime with
      | Some o, Some c =>
          let openW := oDay * 1440 + o in
          let closeW0 := cDay * 1440 + c in
          let closeW := if closeW0 <=? openW then closeW0 + WEEK else closeW0 in
          let in1 := (openW <=? nowW) && (nowW <? closeW) in
          let in2 := (openW <=? nowW + WEEK) && (nowW + WEEK <? closeW) in
          if negb in1 && negb in2 then None
          else
            let effectiveNow := if in1 then nowW else nowW + WEEK in
            let minsLeft := closeW - effectiveNow in
            if minsLeft <=? 0 then None else Some minsLeft
      | _, _ => None
      end
  | _, _, _, _ => None
  end.

Definition betterClose (nowW : Z) (best : option Z) (p : Period) : option Z :=
  match periodMinsLeft nowW p with
  | None => best
  | Some minsLeft =>
      match best with
      | None => Some minsLeft
      | Some b => if minsLeft <? b then Some minsLeft else best
      end
  end.

(** The closing label and the closing instant; [now] is [Date.now()]. *)
Definition getActivePeriodClose (now : Z) (periods : list Period) (tzOffsetSec : Z)
  : option (string * Z) :=
  match periods with
  | [] => None
  | _ =>
      let cityNow := now + tzOffsetSec * 1000 in
      let nowW := utcDay cityNow * 1440 + minutesSinceMidnight cityNow in
      match foldl (betterClose nowW) None periods with
      | None => None
      | Some minsLeft =>
          let closeMinOfDay := minutesSinceMidnight cityNow + minsLeft in
          Some (formatMinutesToLabel (Z.rem closeMinOfDay 1440), now + minsLeft * 60000)
      end
  end.

(** ** Photo URLs *)

Definition hexDigit (n : nat) : ascii :=
  ascii_of_nat (if (n <? 10)%nat then 48 + n else 55 + n).

(** The characters [encodeURIComponent] leaves as they are. *)
Definition isUnreserved (c : ascii) : bool :=
  let n := nat_of_ascii c in
  ((65 <=? n)%nat && (n <=? 90)%nat) || ((97 <=? n)%nat && (n <=? 122)%nat) ||
  ((48 <=? n)%nat && (n <=? 57)%nat) ||
  existsb (Ascii.eqb c) ["-"; "_"; "."; "!"; "~"; "*"; "'"; "("; ")"]%char.

(** [encodeURIComponent]: the characters of the ASCII range, on which a code
    unit is its UTF-8 byte. *)
Fixpoint encodeURIComponent (s : string) : string :=
  match s with
  | EmptyString => EmptyString
  | String c r =>
      if isUnreserved c then String c (encodeURIComponent r)
      else
        let n := nat_of_ascii c in
        String "%" (String (hexDigit (n / 16)) (String (hexDigit (n mod 16))
          (encodeURIComponent r)))
  end.

(** [photos]: [None] when it is no array; an entry is its [photo_reference]
    when that is a string. *)
Definition buildPhotoUrls (photos : option (list (option string))) (max : nat)
  : list string :=
  match photos with
  | None => []
  | Some l =>
      let refs := take max (omap (fun r : option string => r) l) in
      map (fun ref => "/api/photo?mw=1200&ref=" +:+ encodeURIComponent ref) refs
  end.

(** ** The payload of the details *)

Record RawHours := {
  rh_open_now : option bool;
  rh_periods : option (list Period);
}.

(** [data.result] of a Place Details reply. *)
Record RawDetails := {
  rd_place_id : option string;
  rd_name : option string;
  rd_rating : option Q;
  rd_user_ratings_total : option Q;
  rd_price_level : option Q;
  rd_types : option (list string);
  rd_opening_hours : option RawHours;
  rd_business_status : option string;
  rd_formatted_address : option string;
  rd_lat : option Q;
  rd_lng : option Q;
  rd_photos : option (list (option string));
}.

(** What [fetchPlaceDetailsById] makes of the reply of the provider: [None]
    when the result has no [place_id] or no [name]. *)
Definition detailsPayload (now : Z) (tzOffsetSec : Z) (result : RawDetails)
  : option DetailRecord :=
  if negb (truthyStr (rd_place_id result)) || negb (truthyStr (rd_name result)) then None
  else
    let hours := rd_opening_hours result in
    let periods := default [] (hours ≫= rh_periods) in
    let open_now := hours ≫= rh_open_now in
    let active :=
      if bool_decide (open_now = Some true) && negb (bool_decide (periods = []))
      then getActivePeriodClose now periods tzOffsetSec else None in
    Some {| d_placeId := rd_place_id result;
            d_name := default "" (rd_name result);
            d_rating := rd_rating result;
            d_userRatingsTotal := rd_user_ratings_total result;
            d_priceLevel := rd_price_level result;
            d_types := default [] (rd_types result);
            d_openNow := open_now;
            d_businessStatus := rd_business_status result;
            d_closingTime := fst <$> active;
            d_closeTs := snd <$> active;
            d_formattedAddress := rd_formatted_address result;
            d_lat := rd_lat result;
            d_lng := rd_lng result;
            d_photoUrls := buildPhotoUrls (Some (default [] (rd_photos result))) 8 |}.

(** ** The photo route (app/api/photo) *)

(** A JavaScript number that may be no finite one. *)
Inductive JsNumber :=
  | NaN
  | Num (q : Q)
  | PosInf
  | NegInf.

(** [Math.max(200, Math.min(2000, n || 1200))] *)
Definition photoWidth (n : JsNumber) : Q :=
  match n with
  | NaN => 1200
  | Num q => if Qeq_bool q 0 then 1200 else Qmax 200 (Qmin 2000 q)
  | PosInf => 2000
  | NegInf => 200
  end.

(** The reply of the provider; reading its body may fail. *)
Record Upstream := {
  up_ok : bool;
  up_status : Z;
  up_contentType : option string;
  up_body : Result string;
}.

Inductive PhotoResponse :=
  | PhotoError (status : Z) (error : string)
  | PhotoImage (contentType : string) (body : string).

(** [GET]: [ref] is the parameter of that name, [mw] is [Number] of the
    trimmed parameter [mw] when it is given, [upstream] the fetch of the
    photo for a width and an encoded reference. *)
Definition photoGET (hasKey : bool) (ref : option string) (mw : option JsNumber)
    (upstream : Q -> string -> Result Upstream) : PhotoResponse :=
  if negb hasKey then PhotoError 500 "Missing GOOGLE_PLACES_API_KEY"
  else
    let ref := Str.trim (default "" ref) in
    let width := photoWidth (default (Num 1200) mw) in
    if negb (Str.truthy ref) then PhotoError 400 "Missing ref"
    else
      match upstream width (encodeURIComponent ref) with
      | Thrown _ => PhotoError 500 "Photo proxy failed"
      | Ok up =>
          if negb (up_ok up) then PhotoError (up_status up) "Photo fetch failed"
          else
            let contentType := orElse (up_contentType up) "image/jpeg" in
            match up_body up with
            | Thrown _ => PhotoError 500 "Photo proxy failed"
            | Ok buf => PhotoImage contentType buf
            end
      end.

(** ** The plan page (app/plan/page.tsx): freshness and swaps *)

Module Page.

(** The store is what [loadFreshness] reads from the local storage and
    [saveFreshness] writes back: a map from a city to its bucket of two
    arrays.  An entry of [recentSeen] or [recentSwapped] has a field [None]
    when the stored value has not the type the code asks for; the stamps are
    whole numbers of milliseconds. *)
Record Entry := {
  e_k : option string;
  e_ts : option Z;
}.

Definition SEEN_TTL_MS : Z := 36 * 60 * 60 * 1000.
Definition SWAP_TTL_MS : Z := 48 * 60 * 60 * 1000.
Definition MAX_SEEN : nat := 60.
Definition MAX_SWAPPED : nat := 60.

Definition tsOf (e : Entry) : Z := default 0 (e_ts e).

Definition wellTyped (cutoff : Z) (e : Entry) : bool :=
  match e_k e, e_ts e with
  | Some _, Some ts => cutoff <=? ts
  | _, _ => false
  end.

(** [now] is the value of [nowMs()] in this call. *)
Definition pruneList (now : Z) (entries : list Entry) (ttlMs : Z) (max : nat) : list Entry :=
  let cutoff := now - ttlMs in
  let kept := List.filter (wellTyped cutoff) entries in
  take max (sortBy (fun a b => inject_Z (tsOf b - tsOf a)) kept).

Record Bucket := {
  recentSeen : list Entry;
  recentSwapped : list Entry;
}.

Definition emptyBucket : Bucket := {| recentSeen := []; recentSwapped := [] |}.

Definition keysOf (l : list Entry) : list string := omap e_k l.

(** The two calls of [pruneList] that end [getCityFreshnessSets], [markSeen]
    and [markSwapped]; [now1] and [now2] are what [nowMs()] returns in them. *)
Definition pruneBucket (now1 now2 : Z) (b : Bucket) : Bucket :=
  {| recentSeen := pruneList now1 (recentSeen b) SEEN_TTL_MS MAX_SEEN;
     recentSwapped := pruneList now2 (recentSwapped b) SWAP_TTL_MS MAX_SWAPPED |}.

(** [getCityFreshnessSets]: the store after the call and the two lists sent
    with the request. *)
Definition getCityFreshnessSets (now1 now2 : Z) (store : gmap string Bucket)
    (currentCity : string) : gmap string Bucket * (list string * list string) :=
  let bucket := pruneBucket now1 now2 (default emptyBucket (store !! currentCity)) in
  (<[currentCity := bucket]> store,
   (keysOf (recentSeen bucket), keysOf (recentSwapped bucket))).

(** The loop of [markSeen]: [existing] is not updated while the keys are
    walked; [t] is the stamp of the new entries. *)
Fixpoint unshiftNew (t : Z) (existing : list string) (keys : list string)
    (seen : list Entry) : list Entry :=
  match keys with
  | [] => seen
  | k :: r =>
      if negb (Str.truthy k) then unshiftNew t existing r seen
      else if has existing k then unshiftNew t existing r seen
      else unshiftNew t existing r ({| e_k := Some k; e_ts := Some t |} :: seen)
  end.

Definition markSeen (t now1 now2 : Z) (store : gmap string Bucket) (currentCity : string)
    (keys : list string) : gmap string Bucket :=
  let bucket := default emptyBucket (store !! currentCity) in
  let seen := unshiftNew t (keysOf (recentSeen bucket)) keys (recentSeen bucket) in
  <[currentCity := pruneBucket now1 now2 {| recentSeen := seen;
                                            recentSwapped := recentSwapped bucket |}]> store.

Definition markSwapped (t now1 now2 : Z) (store : gmap string Bucket) (currentCity : string)
    (key : string) : gmap string Bucket :=
  if negb (Str.truthy key) then store
  else
    let bucket := default emptyBucket (store !! currentCity) in
    let swapped :=
      if has (keysOf (recentSwapped bucket)) key then recentSwapped bucket
      else {| e_k := Some key; e_ts := Some t |} :: recentSwapped bucket in
    <[currentCity := pruneBucket now1 now2 {| recentSeen := recentSeen bucket;
                                              recentSwapped := swapped |}]> store.

(** [optKey]: the stable identity of an Option on the page. *)
Definition optKey (city : string) (o : Option) : string :=
  let pid := Str.trim (default "" (o_placeId o)) in
  if Str.truthy pid then pid
  else Str.toLowerCase (Str.trim (o_name o)) +:+ "||"
       +:+ Str.toLowerCase (Str.trim (o_address o)) +:+ "||" +:+ Str.toLowerCase city.

Definition isClosed (s : string) : bool := Str.includes "closed" (Str.toLowerCase s).

(** [addToPlan]: the new value of [picked]. *)
Definition addToPlan (city : string) (prev : list Option) (opt : Option) : list Option :=
  let key := optKey city opt in
  match List.find (fun p => Str.eqb (optKey city p) key) prev with
  | Some _ => List.filter (fun p => negb (Str.eqb (optKey city p) key)) prev
  | None => if (2 <=? length prev)%nat then prev else prev ++ [opt]
  end.

Definition removeFromPlan (city : string) (prev : list Option) (key : string) : list Option :=
  List.filter (fun p => negb (Str.eqb (optKey city p) key)) prev.

(** [prev.findIndex] *)
Fixpoint findIndex {A : Type} (f : A -> bool) (l : list A) : option nat :=
  match l with
  | [] => None
  | x :: r => if f x then Some O else S <$> findIndex f r
  end.

(** The category counts of the shortlist without the removed Option. *)
Definition countsWithout (city removedKey : string) (prev : list Option) : gmap string nat :=
  foldl (fun m o =>
           if Str.eqb (optKey city o) removedKey then m
           else <[catKey o := S (countOf m (catKey o))]> m) ∅ prev.

Definition baseOk (city removedKey : string) (used banned : list string) (cand : Option)
  : bool :=
  let k := optKey city cand in
  Str.truthy k && negb (Str.eqb k removedKey) && negb (has used k) && negb (has banned k)
  && negb (isClosed (o_openStatus cand)).

(** The Option [swapOption] brings in from the pool: the three passes. *)
Definition swapChoice (city : string) (prev pool : list Option) (banned : list string)
    (removed : Option) : option Option :=
  let removedKey := optKey city removed in
  let used := map (optKey city)
                (List.filter (fun o => negb (Str.eqb (optKey city o) removedKey)) prev) in
  let catCount := countsWithout city removedKey prev in
  let ok := baseOk city removedKey used banned in
  let pass1 := List.find (fun cand => ok cand && (countOf catCount (catKey cand) <? 2)%nat) pool in
  let pass2 := List.find (fun cand => ok cand && (countOf catCount (catKey cand) <? 3)%nat) pool in
  let pass3 := List.find ok pool in
  match pass1 with
  | Some n => Some n
  | None => match pass2 with Some n => Some n | None => pass3 end
  end.

(** [swapOption]: the new shortlist and the list of banned keys, or [None]
    when the list stays as it is (no Option of that id, or no swap left).
    What a swap writes to the freshness store is [swapFreshness] below. *)
Definition swapOption (city : string) (prev pool : list Option) (banned : list string)
    (id : string) : option (list Option * list string) :=
  match findIndex (fun o => Str.eqb (o_id o) id) prev with
  | None => None
  | Some idx =>
      match prev !! idx with
      | None => None
      | Some removed =>
          match swapChoice city prev pool banned removed with
          | None => None
          | Some next =>
              let nextKey := optKey city next in
              let banned' := if Str.truthy nextKey then nextKey :: banned else banned in
              Some (<[idx := withId next (o_id removed)]> prev, banned')
          end
      end
  end.


(** *** The conditions of the properties of the page, by name *)

(** The order [pruneList] sorts into: the newer entry first. *)
Definition newerFirst (a b : Entry) : Prop := tsOf b <= tsOf a.

Definition entryAt (k : string) (ts : Z) : Entry := {| e_k := Some k; e_ts := Some ts |}.


(** [store[currentCity] ?? { recentSeen: [], recentSwapped: [] }] *)
Definition bucketOf (store : gmap string Bucket) (city : string) : Bucket :=
  default emptyBucket (store !! city).

(** A bucket as [pruneBucket] leaves it. *)
Definition bucketPruned (now1 now2 : Z) (b : Bucket) : Prop :=
  (length (recentSeen b) <= MAX_SEEN)%nat /\
  (length (recentSwapped b) <= MAX_SWAPPED)%nat /\
  (forall e, e ∈ recentSeen b -> wellTyped (now1 - SEEN_TTL_MS) e = true) /\
  (forall e, e ∈ recentSwapped b -> wellTyped (now2 - SWAP_TTL_MS) e = true) /\
  StronglySorted newerFirst (recentSeen b) /\ StronglySorted newerFirst (recentSwapped b).

(** The body [fetchPlan] posts: the inputs of the planner and the two lists
    of [getCityFreshnessSets]. *)
Definition planRequest (city vibe withWho : string) (vegFriendly : bool)
    (freshness : list string * list string) : PlanRequest :=
  {| req_city := Text city; req_vibe := Text vibe; req_withWho := Some withWho;
     req_vegFriendly := Some vegFriendly;
     req_seenPlaceIds := Some (map Some freshness.1);
     req_swappedPlaceIds := Some (map Some freshness.2) |}.

(** The Options of the shortlist other than the one that leaves. *)
Definition othersOf (city : string) (prev : list Option) (removed : Option) : list Option :=
  List.filter (fun o => negb (Str.eqb (optKey city o) (optKey city removed))) prev.

(** *** The calls that write the store *)










End Page.

(** ** A rational instance of [JsMath]

    Rational approximations of the [Math] functions, rounded to twelve
    decimals, for evaluating the route on concrete requests. *)

Module Sample.

Definition round12 (q : Q) : Q := Qfloor (q * 1000000000000)%Q # 1000000000000.

(** Newton's iteration for the square root, until it is stationary. *)
Fixpoint newton (fuel : nat) (x g : Q) : Q :=
  match fuel with
  | O => g
  | S f =>
      let g' := round12 ((g + x / g) / 2)%Q in
      if Qeq_bool g' g then g else newton f x g'
  end.

Definition sqrt (x : Q) : Q :=
  let x := round12 x in
  if Qle_bool x 0 then 0%Q else newton 60 x 1%Q.

(** [series fuel step term k acc] sums [term], [step term 0], ... until a
    term rounds to zero. *)
Fixpoint series (fuel : nat) (step : Q -> Z -> Q) (term : Q) (k : Z) (acc : Q) : Q :=
  match fuel with
  | O => acc
  | S f =>
      if Qeq_bool term 0 then acc
      else series f step (round12 (step term k)) (k + 1) (acc + term)%Q
  end.

Definition sin (x : Q) : Q :=
  let x := round12 x in
  let x2 := round12 (x * x) in
  series 30 (fun t k => (- t * x2 / inject_Z ((2 * k + 2) * (2 * k + 3)))%Q) x 0 0%Q.

Definition cos (x : Q) : Q :=
  let x := round12 x in
  let x2 := round12 (x * x) in
  series 30 (fun t k => (- t * x2 / inject_Z ((2 * k + 1) * (2 * k + 2)))%Q) 1%Q 0 0%Q.

(** [exp x] is the eighth power of [exp (x / 8)], summed as a series. *)
Definition exp (x : Q) : Q :=
  let y := round12 (x / 8) in
  let e1 := series 40 (fun t k => (t * y / inject_Z (k + 1))%Q) 1%Q 0 0%Q in
  let e2 := round12 (e1 * e1) in
  let e4 := round12 (e2 * e2) in
  round12 (e4 * e4).

(** [asin x] for small [x]: x + x^3/6 + 3x^5/40 + 15x^7/336 *)
Definition asin (x : Q) : Q :=
  let x := round12 x in
  let x2 := round12 (x * x) in
  round12 (x * (1 + x2 * (1 / 6 + x2 * (3 / 40 + x2 * (15 / 336)))))%Q.

(** [ln m] for [1 <= m < 10]: [m] is brought below the fourth root of ten,
    then the series of [2 * atanh ((m - 1) / (m + 1))] is summed. *)
Definition ln (m : Q) : Q :=
  let '(m1, c1) := if Qle_bool 3.16227766017 m
                   then (round12 (m / 3.16227766017), 1.151292546497)%Q else (m, 0%Q) in
  let '(m2, c2) := if Qle_bool 1.77827941004 m1
                   then (round12 (m1 / 1.77827941004), 0.575646273249)%Q else (m1, 0%Q) in
  let y := round12 ((m2 - 1) / (m2 + 1))%Q in
  let y2 := round12 (y * y) in
  (c1 + c2
   + 2 * series 40 (fun t k => (t * y2 * inject_Z (2 * k + 1) / inject_Z (2 * k + 3))%Q) y 0 0)%Q.

Fixpoint log10_scale (fuel : nat) (x : Q) (k : Z) : Q * Z :=
  match fuel with
  | O => (x, k)
  | S f => if Qle_bool 10 x then log10_scale f (x / 10)%Q (k + 1) else (x, k)
  end.

Definition log10 (x : Q) : Q :=
  let x := round12 x in
  if Qle_bool x 1 then 0%Q
  else let '(m, k) := log10_scale 30 x 0 in
       round12 (inject_Z k + ln m / 2.302585092994)%Q.

#[export] Instance math : JsMath := {|
  Math_PI := 3.14159265359;
  Math_sin := sin;
  Math_cos := cos;
  Math_asin := asin;
  Math_sqrt := sqrt;
  Math_exp := exp;
  Math_log10 := log10;
|}.

End Sample.

(** ** Concrete requests *)

Module Scenario.

Import Sample.

(** An instant: 2026-11-02T15:33:20Z. *)
Definition t0 : Z := 1793633600000.

Definition minutes (n : Z) : Z := n * 60000.

Definition raw (pid name : string) (p : LatLng) : RawResult :=
  {| r_place_id := Some pid; r_name := Some name; r_lat := Some (lat p); r_lng := Some (lng p) |}.

Definition detail (pid name : string) (types : list string) (openNow : option bool)
    (closingTime : option string) (closeTs : option Z) (p : LatLng) : DetailRecord :=
  {| d_placeId := Some pid; d_name := name; d_rating := Some 4.6%Q;
     d_userRatingsTotal := Some 250%Q; d_priceLevel := Some 2%Q; d_types := types;
     d_openNow := openNow; d_businessStatus := Some "OPERATIONAL";
     d_closingTime := closingTime; d_closeTs := closeTs;
     d_formattedAddress := Some "1 Main St, Boston, MA"; d_lat := Some (lat p);
     d_lng := Some (lng p); d_photoUrls := [] |}.

(** A provider that answers one query of one lane with the given results and
    every other query with an empty list. *)
Definition answering (q : string) (results : list RawResult)
  : Q -> Q -> Z -> string -> Live (option (list RawResult)) :=
  fun _ _ _ query => LiveData (Some (if Str.eqb query q then results else [])).

Definition silent : Q -> Q -> Z -> string -> Live (option (list RawResult)) :=
  fun _ _ _ _ => LiveData (Some []).

Definition detailsOf (known : list DetailRecord) : string -> Z -> Live (option DetailRecord) :=
  fun pid _ => LiveData (List.find (fun d => bool_decide (d_placeId d = Some pid)) known).

Definition rainy : WeatherPayload :=
  let h := {| h_timeLabel := "4PM"; h_temp := 11; h_description := "light rain"; h_wind := 4 |} in
  {| w_now := h; w_nextHours := [h; h; h; h]; w_cityLocalHour := 15;
     w_alerts := ["Rain likely soon"]; w_tzOffsetSec := -18000 |}.

(** An environment: the cache state, the provider and the weather vary. *)
Definition mkEnv (redis : bool) (reads : bool) (writes : bool)
    (nearby text : Q -> Q -> Z -> string -> Live (option (list RawResult)))
    (details : string -> Z -> Live (option DetailRecord))
    (weather : option WeatherPayload) : Env :=
  {| env_googleKey := true;
     env_hasRedis := redis;
     env_production := redis;
     env_now := t0;
     env_serverHour := 15;
     env_random := fun _ => 0.5%Q;
     env_userId := Ok None;
     env_guestKey := "guest:5f2c";
     env_incr := fun _ => Ok 1;
     env_today := "2026-11-02";
     env_weather := fun _ => Ok weather;
     env_searchGet := fun _ => if reads then ReadNull else ReadThrows;
     env_searchSet := fun _ => if writes then Ok tt else Thrown "Redis pipeline failed";
     env_nearbyLive := nearby;
     env_textLive := text;
     env_detailsGet := fun _ _ => if reads then ReadNull else ReadThrows;
     env_detailsSet := fun _ _ => if writes then Ok tt else Thrown "Redis pipeline failed";
     env_detailsLive := details;
     env_gpt := fun _ => Ok None |}.

Definition request (vibe : string) (swapped : list (option string)) : PlanRequest :=
  {| req_city := Text "Boston"; req_vibe := Text vibe; req_withWho := Some "Friends";
     req_vegFriendly := Some false; req_seenPlaceIds := Some [];
     req_swappedPlaceIds := Some swapped |}.

(** A cafe in the center of Boston, open for three more hours. *)
Definition cafe : DetailRecord :=
  detail "ChIJcafe" "Thinking Cup" ["cafe"; "food"] (Some true) (Some "6:33 PM")
    (Some (t0 + minutes 180)) BOSTON.

Definition cafeEnv : Env :=
  mkEnv false true true (answering "cafe" [raw "ChIJcafe" "Thinking Cup" BOSTON]) silent
    (detailsOf [cafe]) None.

(** The same request after 221 swaps: the first 220 entries fill the cap. *)
Definition swapped221 : list (option string) :=
  replicate 220 (Some "ChIJold") ++ [Some "ChIJcafe"].

(** Redis is configured and counts, but its reads fail. *)
Definition readsFailEnv : Env :=
  mkEnv true false true (answering "cafe" [raw "ChIJcafe" "Thinking Cup" BOSTON]) silent
    (detailsOf [cafe]) None.

(** Redis is configured and reads miss, but its writes fail. *)
Definition writesFailEnv : Env :=
  mkEnv true true false (answering "cafe" [raw "ChIJcafe" "Thinking Cup" BOSTON]) silent
    (detailsOf [cafe]) None.

(** A park without opening hours, on a rainy afternoon. *)
Definition COMMON : LatLng := {| lat := 42.355; lng := -71.0655 |}.

Definition park : DetailRecord :=
  detail "ChIJpark" "Boston Common" ["park"; "tourist_attraction"] None None None COMMON.

Definition parkEnv : Env :=
  mkEnv false true true (answering "park" [raw "ChIJpark" "Boston Common" COMMON]) silent
    (detailsOf [park]) (Some rainy).

Definition rainFlags : WeatherFlags := getWeatherFlags (Some rainy).

Definition clearFlags : WeatherFlags := getWeatherFlags None.

Definition venue (pid category openStatus : string) (closingTime : option string)
    (closeTs : option Z) (p : LatLng) : Option :=
  {| o_id := pid; o_name := pid; o_category := category; o_rating := Some 4.5%Q;
     o_etaMin := 20; o_openStatus := openStatus; o_why := "—";
     o_watchouts := DEFAULT_WATCHOUTS; o_lat := lat p; o_lng := lng p; o_address := "";
     o_closingTime := closingTime; o_placeId := Some pid; o_priceLevel := None;
     o_userRatingsTotal := None; o_closeTs := closeTs; o_photoUrls := [];
     o_score := Some 50%Q |}.

Definition parkOption : Option :=
  venue "ChIJpark" "Park" "Hours unknown • Check on Maps" None None COMMON.

Definition OUTDOORS_ALLOWED : list string := allowedOrSocial "Outdoors".
Definition COZY_ALLOWED : list string := allowedOrSocial "Cozy".

(** A bar in Manhattan that reports itself closed, seen from Boston. *)
Definition MANHATTAN : LatLng := {| lat := 40.7128; lng := -74.006 |}.

Definition farClosedBar : Option :=
  venue "ChIJbar" "Bar" "Closed • Opens at 5:00 PM" None None MANHATTAN.

(** A dessert shop in the center that closes in thirty minutes. *)
Definition dessertClosingSoon : Option :=
  venue "ChIJsweet" "Dessert" "Open now • Closes at 4:03 PM" (Some "4:03 PM")
    (Some (t0 + minutes 30)) BOSTON.

(** Strictly feasible Options of three categories. *)
Definition open3h (pid category : string) : Option :=
  venue pid category "Open now • Closes at 6:33 PM" (Some "6:33 PM")
    (Some (t0 + minutes 180)) BOSTON.

Definition fiveFeasible : list Option :=
  [open3h "c1" "Cafe"; open3h "c2" "Cafe"; open3h "c3" "Cafe"; open3h "d1" "Dessert";
   open3h "b1" "Bookstore"].

(** Six strictly feasible Options, two of each of three categories. *)
Definition sixFeasible : list Option :=
  [open3h "c1" "Cafe"; open3h "c2" "Cafe"; open3h "d1" "Dessert"; open3h "d2" "Dessert";
   open3h "b1" "Bookstore"; open3h "b2" "Bookstore"].

(** The value [Math.random()] returns in the scenarios. *)
Definition half : nat -> Q := fun _ => 0.5%Q.

(** The cafe is found by no lane of "Productive", only by the text lane
    "cozy cafe" of its first fallback vibe. *)
Definition cozyLaneEnv : Env :=
  mkEnv false true true silent (answering "cozy cafe" [raw "ChIJcafe" "Thinking Cup" BOSTON])
    (detailsOf [cafe]) None.

(** What [POST] derives from the request of [cafeEnv]. *)
Definition cozyCtx : Ctx := requestCtx cafeEnv (request "Cozy" []) None.

Definition options_of (r : Response) : list Option :=
  match r with RespPlan options _ _ _ _ => options | RespError _ _ _ => [] end.

Definition pool_of (r : Response) : list Option :=
  match r with RespPlan _ _ _ _ pool => pool | RespError _ _ _ => [] end.

End Scenario.

(** ** Counting categories *)

(** How often the category [c] occurs in a list of Options, and how often
    the key [k] under which the selection loop and [diversifyPool] count. *)
Definition countCategory (c : string) (l : list Option) : nat :=
  length (List.filter (fun o => Str.eqb (o_category o) c) l).

Definition countKey (k : string) (l : list Option) : nat :=
  length (List.filter (fun o => Str.eqb (catKey o) k) l).

(** How many Options of [l] are the first or the second of their key, [cc k]
    Options of the key [k] being counted already: the picks the selection
    loop can make from [l] before every key left is at the cap of two. *)
Fixpoint withinCapFrom (cc : string -> nat) (l : list Option) : nat :=
  match l with
  | [] => 0
  | o :: r =>
      if (cc (catKey o) <? 2)%nat
      then S (withinCapFrom (fun k => if Str.eqb (catKey o) k then S (cc k) else cc k) r)
      else withinCapFrom cc r
  end.

Definition withinCap (l : list Option) : nat := withinCapFrom (fun _ => 0%nat) l.

(** ** The conditions of the feasibility rules, by name *)

Definition categoryAllowed (o : Option) (args : RejectArgs) : Prop :=
  o_category o ∈ allowedSet args.

Definition reportsClosed (o : Option) : Prop :=
  Str.includes "closed" (Str.toLowerCase (o_openStatus o)) = true.

Definition distanceOf `{JsMath} (o : Option) (args : RejectArgs) : Q :=
  haversineKm (center args) {| lat := o_lat o; lng := o_lng o |}.

Definition remainingOf (now : Z) (o : Option) (args : RejectArgs) : option Z :=
  minutesUntilClose now (cityNow args) (o_closingTime o) (o_closeTs o).

Definition badWeather (args : RejectArgs) : Prop :=
  precip (flags args) = true \/ veryCold (flags args) = true \/
  veryWindy (flags args) = true \/
  (cold (flags args) = true /\ 18 <= cityHour args).

(** ** What the later stages of [POST] leave untouched *)

(** An Option without the fields [POST] rewrites after the filters: [id],
    [why], [watchouts] and [_score]. *)
Definition core (o : Option) : Option := withCopy (withId (withScore o None) "") "" [].

Definition sameVenue (o o' : Option) : Prop := core o = core o'.

(** ** Further conditions and scenarios *)

(** Whether the label of every minute below [n] is read back as that
    minute. *)
Definition roundTripBelow (n : nat) : bool :=
  forallb (fun m => bool_decide
             (parseClosingTimeToMinutes (Some (formatMinutesToLabel (Z.of_nat m)))
              = Some (Z.of_nat m)))
          (seq 0 n).

(** The minute of the week at which [getActivePeriodClose] looks up the
    periods. *)
Definition weekMinute (now tzOffsetSec : Z) : Z :=
  let cityNow := now + tzOffsetSec * 1000 in
  utcDay cityNow * 1440 + minutesSinceMidnight cityNow.

Definition monday9to17 : Period :=
  {| p_openDay := Some 1; p_openTime := Some "0900";
     p_closeDay := Some 1; p_closeTime := Some "1700" |}.

(** A Monday, 12:00 UTC: 2026-11-02T12:00:00Z. *)
Definition mondayNoon : Z := 1793620800000.

Definition openMonday : RawDetails :=
  {| rd_place_id := Some "ChIJcafe"; rd_name := Some "Thinking Cup";
     rd_rating := None; rd_user_ratings_total := None; rd_price_level := None;
     rd_types := Some ["cafe"];
     rd_opening_hours := Some {| rh_open_now := Some true; rh_periods := Some [monday9to17] |};
     rd_business_status := None; rd_formatted_address := None;
     rd_lat := None; rd_lng := None; rd_photos := None |}.

(** A place open around the clock, as the provider reports it: one period
    without a closing entry. *)
Definition alwaysOpen : RawDetails :=
  {| rd_place_id := Some "ChIJdiner"; rd_name := Some "South Street Diner";
     rd_rating := None; rd_user_ratings_total := None; rd_price_level := None;
     rd_types := Some ["restaurant"];
     rd_opening_hours :=
       Some {| rh_open_now := Some true;
               rh_periods := Some [{| p_openDay := Some 0; p_openTime := Some "0000";
                                      p_closeDay := None; p_closeTime := None |}] |};
     rd_business_status := None; rd_formatted_address := None;
     rd_lat := None; rd_lng := None; rd_photos := None |}.

(** The characters that end or split a query parameter of a URL. *)
Definition URL_DELIMITERS : list ascii := ["&"; "="; "#"; "?"; "/"; "+"; " "]%char.

(** A provider of photos that serves a width of at most 2000 only, and one
    that serves any. *)
Definition narrowProvider (w : Q) (r : string) : Result Upstream :=
  if Qle_bool w 2000
  then Ok {| up_ok := true; up_status := 200; up_contentType := None; up_body := Ok r |}
  else Thrown "too wide".

Definition anyProvider (w : Q) (r : string) : Result Upstream :=
  Ok {| up_ok := true; up_status := 200; up_contentType := None; up_body := Ok r |}.

(** The non-blank strings of a request array, trimmed. *)
Definition trimmedIds (l : list (option string)) : list string :=
  List.filter Str.truthy (map Str.trim (omap (fun v : option string => v) l)).

Definition candidateAt (placeId : string) (la : Q) : GoogleCandidate :=
  {| c_placeId := placeId; c_name := placeId; c_lat := la; c_lng := 0 |}.

(** The order [buildOptionsFromCandidates] sorts the candidates into. *)
Definition nearer `{JsMath} (c : LatLng) (a b : GoogleCandidate) : Prop :=
  (candidateDist c a <= candidateDist c b)%Q.

(** The identity and the limits [POST] hands to [enforceRateLimit]. *)
Definition identityKey (env : Env) (userId : option string) : string :=
  match userId with
  | Some u => if Str.truthy u then "u:" +:+ u else env_guestKey env
  | None => env_guestKey env
  end.

Definition perMinuteLimit (userId : option string) : Z := if truthyStr userId then 12 else 3.
Definition perDayLimit (userId : option string) : Z := if truthyStr userId then 200 else 15.

(** The fourth request of a guest within a minute. *)
Definition busyEnv : Env :=
  {| env_googleKey := true; env_hasRedis := true; env_production := true;
     env_now := Scenario.t0; env_serverHour := 15; env_random := Scenario.half;
     env_userId := Ok None; env_guestKey := "guest:5f2c";
     env_incr := fun _ => Ok 4;
     env_today := "2026-11-02";
     env_weather := env_weather Scenario.cafeEnv;
     env_searchGet := env_searchGet Scenario.cafeEnv;
     env_searchSet := env_searchSet Scenario.cafeEnv;
     env_nearbyLive := env_nearbyLive Scenario.cafeEnv;
     env_textLive := env_textLive Scenario.cafeEnv;
     env_detailsGet := env_detailsGet Scenario.cafeEnv;
     env_detailsSet := env_detailsSet Scenario.cafeEnv;
     env_detailsLive := env_detailsLive Scenario.cafeEnv;
     env_gpt := env_gpt Scenario.cafeEnv |}.

(** A shortlist of two cafes and a bookstore on the page, and a pool of a
    cafe and a dessert shop. *)
Definition shortlist3 : list Option :=
  [withId (Scenario.open3h "c1" "Cafe") "1"; withId (Scenario.open3h "c2" "Cafe") "2";
   withId (Scenario.open3h "b1" "Bookstore") "3"].

Definition pool2 : list Option :=
  [Scenario.open3h "c3" "Cafe"; Scenario.open3h "d1" "Dessert"].

(** Five strictly feasible Options: two cafes, two dessert shops and a
    bookstore. *)
Definition twoTwoOne : list Option :=
  [Scenario.open3h "c1" "Cafe"; Scenario.open3h "c2" "Cafe"; Scenario.open3h "d1" "Dessert";
   Scenario.open3h "d2" "Dessert"; Scenario.open3h "b1" "Bookstore"].

(** The diner open around the clock is what the lane "social spots" finds. *)
Definition dinerEnv : Env :=
  Scenario.mkEnv false true true
    (Scenario.answering "social spots" [Scenario.raw "ChIJdiner" "South Street Diner" BOSTON])
    Scenario.silent
    (fun pid tz =>
       LiveData (if Str.eqb pid "ChIJdiner" then detailsPayload Scenario.t0 tz alwaysOpen
                 else None))
    None.

Definition socialCtx : Ctx := requestCtx dinerEnv (Scenario.request "Social" []) None.

(** Fifty-six candidates: a place in Manhattan, listed first, and fifty-five
    stalls of a market hall at the center of Boston. *)
Definition stall (i : nat) : GoogleCandidate :=
  {| c_placeId := "stall-" +:+ pretty i; c_name := "Market stall";
     c_lat := lat BOSTON; c_lng := lng BOSTON |}.

Definition farPlace : GoogleCandidate :=
  {| c_placeId := "far"; c_name := "Far away";
     c_lat := lat Scenario.MANHATTAN; c_lng := lng Scenario.MANHATTAN |}.

Definition farFirst : list GoogleCandidate := farPlace :: map stall (seq 0 55).



(** Two identifiers of the search results that the details resolve to the
    same place, and a second place. *)
Definition teaHouse : DetailRecord :=
  Scenario.detail "ChIJtea" "Tea House" ["cafe"; "food"] (Some true) (Some "6:33 PM")
    (Some (Scenario.t0 + Scenario.minutes 180)) BOSTON.

Definition aliasEnv : Env :=
  Scenario.mkEnv false true true
    (Scenario.answering "cafe"
       [Scenario.raw "ChIJcafe" "Thinking Cup" BOSTON;
        Scenario.raw "ChIJalias" "Thinking Cup Cafe" BOSTON;
        Scenario.raw "ChIJtea" "Tea House" BOSTON])
    Scenario.silent
    (fun pid _ =>
       LiveData (if Str.eqb pid "ChIJcafe" || Str.eqb pid "ChIJalias" then Some Scenario.cafe
                 else if Str.eqb pid "ChIJtea" then Some teaHouse else None))
    None.



(** A pool of a cafe and two dessert shops. *)
Definition pool3 : list Option :=
  [Scenario.open3h "c3" "Cafe"; Scenario.open3h "d1" "Dessert"; Scenario.open3h "d2" "Dessert"].

(** * Properties *)

(** ** The helpers on small inputs *)

Example trim_ex : Str.trim "  ab c " = "ab c".
Proof. reflexivity. Qed.

Example toLowerCase_ex : Str.toLowerCase "Open now • Closes at 6:33 PM" = "open now • closes at 6:33 pm".
Proof. reflexivity. Qed.

Example map_bar_productive :
  googleTypeToInternalCategory ["bar"; "restaurant"] "Productive" = "Library".
Proof. reflexivity. Qed.

Example map_cafe_cozy : googleTypeToInternalCategory ["cafe"; "food"] "Cozy" = "Cafe".
Proof. reflexivity. Qed.

Example parse_pm : parseClosingTimeToMinutes (Some "10:30 PM") = Some 1350.
Proof. reflexivity. Qed.

Example parse_midnight : parseClosingTimeToMinutes (Some "12:05 am") = Some 5.
Proof. reflexivity. Qed.

Example parse_24h : parseClosingTimeToMinutes (Some "22:30") = None.
Proof. reflexivity. Qed.

Example sanitize_cap :
  sanitizeIdList (Some [Some " a "; None; Some "  "; Some "b"; Some "c"]) 2 = ["a"; "b"].
Proof. reflexivity. Qed.

Example vibe_default : pickDefaultVibe (Text " Karaoke ") = Ok "Social".
Proof. reflexivity. Qed.

Example vibe_inherited_key : pickDefaultVibe (Text "constructor") = Ok "constructor".
Proof. reflexivity. Qed.

Example vibe_not_a_string : pickDefaultVibe Other = Thrown "TypeError: trim is not a function".
Proof. reflexivity. Qed.

Example inherited_vibe_fails_request :
  POST (H := Sample.math) Scenario.cafeEnv
    (Some {| req_city := Missing; req_vibe := Text "toString"; req_withWho := None;
             req_vegFriendly := None; req_seenPlaceIds := None;
             req_swappedPlaceIds := None |})
  = RespError 500 "Plan generation failed." None.
Proof. vm_compute. reflexivity. Qed.

Example lanes_productive :
  buildLaneQueries "Productive" false =
  (["library"; "cafe laptop friendly"; "coworking space"; "study cafe"; "productive spots"],
   ["coworking"; "study cafe"; "quiet cafe"; "work cafe"; "library"; "coffee shop laptop";
    "wifi cafe"; "cafe laptop friendly"; "coworking space"]).
Proof. vm_compute. reflexivity. Qed.

(** ** Category mapping *)

Section CategoryMapping.

Lemma has_true (l : list string) (x : string) : has l x = true <-> x ∈ l.
Proof. unfold has. rewrite bool_decide_eq_true. reflexivity. Qed.

Lemma has_false (l : list string) (x : string) : has l x = false <-> x ∉ l.
Proof. unfold has. rewrite bool_decide_eq_false. reflexivity. Qed.

Lemma ALLOWED_BY_VIBE_keys (vibe : string) (cats : list string) :
  ALLOWED_BY_VIBE vibe = Some cats -> vibe ∈ VIBES.
Proof.
  unfold ALLOWED_BY_VIBE, Str.eqb, VIBES.
  repeat case_bool_decide; intros; simplify_eq; set_solver.
Qed.

Lemma vibeOf_key (b : PlanRequest) :
  isPrototypeKey (vibeOf b) = false ->
  ALLOWED_BY_VIBE (vibeOf b) = Some (allowedOrSocial (vibeOf b)).
Proof.
  unfold vibeOf, pickDefaultVibe.
  destruct (trimOr (req_vibe b) "Social") as [v | e]; simpl; [| reflexivity].
  case_bool_decide as Hk; simpl.
  - intros _. destruct Hk as [cats Hk]. unfold allowedOrSocial. by rewrite Hk.
  - destruct (isPrototypeKey v) eqn:Hp; [by rewrite Hp | reflexivity].
Qed.

(** The mapping stays inside the allowed list of every vibe of the table. *)
Lemma googleTypeToInternalCategory_allowed (types : list string) (vibe : string)
    (cats : list string) :
  ALLOWED_BY_VIBE vibe = Some cats ->
  googleTypeToInternalCategory types vibe ∈ cats.
Proof.
  intros Hk. pose proof (ALLOWED_BY_VIBE_keys _ _ Hk) as Hv.
  unfold VIBES in Hv.
  repeat (apply elem_of_cons in Hv as [-> | Hv]); try (by apply elem_of_nil in Hv);
    vm_compute in Hk; injection Hk as <-;
    unfold googleTypeToInternalCategory;
    repeat match goal with
           | |- context [has types ?s] => generalize (has types s); intros ?
           end;
    vm_compute;
    repeat match goal with
           | |- context [match ?b with true => _ | false => _ end] =>
               is_var b; destruct b
           end;
    solve [repeat constructor].
Qed.

End CategoryMapping.

(** ** Feasibility rules *)

Section Feasibility.

Context `{M : JsMath}.

Lemma Qgtb_true (a b : Q) : Qgtb a b = true <-> (b < a)%Q.
Proof.
  unfold Qgtb. rewrite negb_true_iff, <- not_true_iff_false, Qle_bool_iff.
  split; [apply Qnot_le_lt | apply Qlt_not_le].
Qed.

Lemma Qgtb_false (a b : Q) : Qgtb a b = false <-> (a <= b)%Q.
Proof. unfold Qgtb. rewrite negb_false_iff, Qle_bool_iff. reflexivity. Qed.

Lemma reportsClosed_false (o : Option) :
  ~ reportsClosed o <-> Str.includes "closed" (Str.toLowerCase (o_openStatus o)) = false.
Proof. unfold reportsClosed. apply not_true_iff_false. Qed.

(** The checks of [hardReject] up to the distance, in the order of the code. *)
Lemma hardReject_vibe_mismatch now o args :
  ~ categoryAllowed o args -> hardReject now o args = Some "vibe_mismatch".
Proof.
  unfold categoryAllowed, hardReject. intros Hc.
  apply has_false in Hc. rewrite Hc. reflexivity.
Qed.

Lemma hardReject_closed now o args :
  categoryAllowed o args -> reportsClosed o -> hardReject now o args = Some "closed".
Proof.
  unfold categoryAllowed, reportsClosed, hardReject. intros Hc Hcl.
  apply has_true in Hc. rewrite Hc, Hcl. reflexivity.
Qed.

Lemma hardReject_too_far now o args :
  categoryAllowed o args -> ~ reportsClosed o ->
  (maxDistKm args < distanceOf o args)%Q ->
  hardReject now o args = Some "too_far".
Proof.
  unfold categoryAllowed, distanceOf, hardReject. intros Hc Hcl Hd.
  apply has_true in Hc. apply reportsClosed_false in Hcl. apply Qgtb_true in Hd.
  rewrite Hc, Hcl, Hd. reflexivity.
Qed.

(** Past the first three checks the remaining minutes decide. *)
Lemma hardReject_near now o args :
  categoryAllowed o args -> ~ reportsClosed o ->
  (distanceOf o args <= maxDistKm args)%Q ->
  hardReject now o args =
    match remainingOf now o args with
    | None => if allowUnknownHours args then None else Some "unknown_hours"
    | Some minsLeft =>
        if minsLeft <? minRemaining args then Some "closing_soon"
        else if isOutdoorishCategory (o_category o)
                && (precip (flags args) || veryCold (flags args) || veryWindy (flags args))
        then Some "weather_block"
        else if isOutdoorishCategory (o_category o)
                && (cold (flags args) && (18 <=? cityHour args))
        then Some "weather_block"
        else None
    end.
Proof.
  unfold categoryAllowed, distanceOf, remainingOf, hardReject. intros Hc Hcl Hd.
  apply has_true in Hc. apply reportsClosed_false in Hcl. apply Qgtb_false in Hd.
  rewrite Hc, Hcl, Hd. reflexivity.
Qed.

Lemma hardReject_weather_block now o args m :
  categoryAllowed o args -> ~ reportsClosed o ->
  (distanceOf o args <= maxDistKm args)%Q ->
  remainingOf now o args = Some m -> minRemaining args <= m ->
  isOutdoorishCategory (o_category o) = true -> badWeather args ->
  hardReject now o args = Some "weather_block".
Proof.
  intros Hc Hcl Hd Hm Hge Hout Hbad.
  rewrite hardReject_near by assumption. rewrite Hm, Hout.
  destruct (Z.ltb_spec m (minRemaining args)) as [Hlt | _]; [lia |].
  destruct Hbad as [-> | [-> | [-> | [-> Hh]]]]; simpl;
    rewrite ?orb_true_r; try reflexivity.
  apply Z.leb_le in Hh. rewrite Hh.
  repeat match goal with |- context [if ?b then _ else _] => destruct b end; reflexivity.
Qed.

(** What an accepted Option satisfies. *)
Lemma hardReject_None now o args :
  hardReject now o args = None ->
  categoryAllowed o args /\ ~ reportsClosed o /\
  (distanceOf o args <= maxDistKm args)%Q /\
  match remainingOf now o args with
  | None => allowUnknownHours args = true
  | Some m => minRemaining args <= m
  end.
Proof.
  intros Hr.
  destruct (decide (o_category o ∈ allowedSet args)) as [Hc | Hc];
    [| by rewrite hardReject_vibe_mismatch in Hr].
  destruct (decide (Str.includes "closed" (Str.toLowerCase (o_openStatus o)) = true))
    as [Hcl | Hcl];
    [by rewrite hardReject_closed in Hr |].
  destruct (Qlt_le_dec (maxDistKm args) (distanceOf o args)) as [Hd | Hd];
    [by rewrite hardReject_too_far in Hr |].
  rewrite hardReject_near in Hr by assumption.
  repeat split; try assumption.
  destruct (remainingOf now o args) as [m |].
  - destruct (Z.ltb_spec m (minRemaining args)); [discriminate | lia].
  - destruct (allowUnknownHours args); [reflexivity | discriminate].
Qed.

End Feasibility.

(** ** Lists: sorting, filtering, picking *)

Section Lists.

Lemma elem_of_List_filter {A : Type} (f : A -> bool) (l : list A) (x : A) :
  x ∈ List.filter f l <-> x ∈ l /\ f x = true.
Proof. rewrite !list_elem_of_In. apply filter_In. Qed.

Lemma elem_of_insertBy {A : Type} (cmp : A -> A -> Q) (x y : A) (l : list A) :
  x ∈ insertBy cmp y l <-> x = y \/ x ∈ l.
Proof.
  induction l as [| z l IH]; simpl.
  - rewrite !elem_of_cons. reflexivity.
  - destruct (Qle_bool (cmp y z) 0).
    + rewrite elem_of_cons. reflexivity.
    + rewrite !elem_of_cons, IH. tauto.
Qed.

Lemma elem_of_sortBy {A : Type} (cmp : A -> A -> Q) (x : A) (l : list A) :
  x ∈ sortBy cmp l <-> x ∈ l.
Proof.
  unfold sortBy. induction l as [| z l IH]; simpl; [reflexivity |].
  rewrite elem_of_insertBy, elem_of_cons, IH. reflexivity.
Qed.

Lemma length_insertBy {A : Type} (cmp : A -> A -> Q) (y : A) (l : list A) :
  length (insertBy cmp y l) = S (length l).
Proof.
  induction l as [| z l IH]; simpl; [reflexivity |].
  destruct (Qle_bool (cmp y z) 0); simpl; congruence.
Qed.

Lemma elem_of_POST_deduped (l : list Option) (seen : list string) (o : Option) :
  o ∈ POST_deduped l seen -> o ∈ l.
Proof.
  revert seen. induction l as [| a l IH]; intros seen; simpl; [done |].
  destruct (has seen (dedupKey a)).
  - intros Ho. right. by eapply IH.
  - rewrite elem_of_cons. intros [-> | Ho]; [left | right; by eapply IH].
Qed.

Lemma elem_of_filterCounting verdict (l : list Option) dropped (o : Option) :
  o ∈ (filterCounting verdict l dropped).1 -> o ∈ l /\ verdict o = None.
Proof.
  revert dropped. induction l as [| a l IH]; intros dropped; simpl.
  - intros Ho. by apply elem_of_nil in Ho.
  - destruct (verdict a) as [[r |] |] eqn:Hv.
    + intros Ho. apply IH in Ho as [? ?]. split; [by right | done].
    + intros Ho. apply IH in Ho as [? ?]. split; [by right | done].
    + destruct (filterCounting verdict l dropped) as [kept dc] eqn:Hf. simpl.
      rewrite elem_of_cons. intros [-> | Ho].
      * split; [by left | done].
      * specialize (IH dropped). rewrite Hf in IH. apply IH in Ho as [? ?].
        split; [by right | done].
Qed.

Lemma elem_of_diversifyPool_loop (items : list Option) n counts (o : Option) :
  o ∈ diversifyPool_loop items n counts -> o ∈ items.
Proof.
  revert counts. induction items as [| a l IH]; intros counts; simpl; [done |].
  destruct (n <=? default 0%nat (counts !! catKey a))%nat.
  - intros Ho. right. by eapply IH.
  - rewrite elem_of_cons. intros [-> | Ho]; [left | right; by eapply IH].
Qed.

Lemma elem_of_POST_swapPool seenSet (swapFeasible : list Option) (o : Option) :
  o ∈ POST_swapPool seenSet swapFeasible -> o ∈ swapFeasible.
Proof.
  unfold POST_swapPool, diversifyPool. intros Ho.
  apply subseteq_take in Ho. apply elem_of_diversifyPool_loop in Ho.
  destruct (SWAP_FRESH_MIN <=? _)%nat; [| done].
  by apply elem_of_List_filter in Ho as [? _].
Qed.

Context `{M : JsMath}.

Lemma weightedPick_scan_elem (items : list Option) weights r (o : Option) :
  weightedPick_scan items weights r = Some o -> o ∈ items.
Proof.
  revert weights r. induction items as [| a l IH]; intros weights r; simpl; [done |].
  destruct weights as [| w ws]; [done |].
  destruct (Qle_bool (r - w) 0).
  - intros [= ->]. by left.
  - destruct l as [| b l'].
    + intros [= ->]. by left.
    + intros Ho. right. by eapply IH.
Qed.

Lemma weightedPick_elem rand (items : list Option) (o : Option) :
  weightedPick rand items = Some o -> o ∈ items.
Proof.
  unfold weightedPick. destruct (Qle_bool _ 0).
  - destruct items; simpl; [done |]. intros [= ->]. by left.
  - apply weightedPick_scan_elem.
Qed.

Lemma elem_of_pickLoop rnd fuel calls picked remaining catCount (o : Option) :
  o ∈ pickLoop rnd fuel calls picked remaining catCount ->
  o ∈ picked \/ o ∈ remaining.
Proof.
  revert calls picked remaining catCount.
  induction fuel as [| fuel IH]; intros calls picked remaining catCount; simpl.
  - destruct remaining; by left.
  - destruct remaining as [| a rem]; [by left |].
    set (remaining := a :: rem).
    set (candidatesNow := List.filter _ remaining).
    set (poolForPick := match candidatesNow with [] => _ | _ => _ end).
    assert (Hsub : forall z, z ∈ poolForPick -> z ∈ remaining).
    { intros z. subst poolForPick.
      destruct candidatesNow as [| b l] eqn:Hc; [done |].
      rewrite <- Hc. subst candidatesNow. intros Hz.
      by apply elem_of_List_filter in Hz as [? _]. }
    destruct (weightedPick (rnd calls) poolForPick) as [chosen |] eqn:Hw; [| by left].
    intros Ho. apply IH in Ho as [Ho | Ho].
    + apply elem_of_app in Ho as [Ho | Ho]; [by left |].
      apply list_elem_of_singleton in Ho as ->. right.
      apply Hsub. by eapply weightedPick_elem.
    + right. by apply elem_of_List_filter in Ho as [? _].
Qed.

Lemma elem_of_swapLastIfUniform (top30 picked : list Option) (o : Option) :
  o ∈ swapLastIfUniform top30 picked -> o ∈ picked \/ o ∈ top30.
Proof.
  unfold swapLastIfUniform.
  destruct picked as [| p0 [| p1 [| p2 [| p3 [| p4 [| p5 l]]]]]]; try by left.
  destruct (forallb _ _); [| by left].
  destruct (List.find _ top30) as [alt |] eqn:Hf; [| by left].
  apply find_some in Hf as [Hin _]. apply list_elem_of_In in Hin.
  rewrite !elem_of_cons. intros [-> | [-> | [-> | [-> | [-> | Ho]]]]];
    first [ by right | by apply elem_of_nil in Ho | left; tauto ].
Qed.

Lemma elem_of_POST_picked rnd calls (strict : list Option) (o : Option) :
  o ∈ POST_picked rnd calls strict -> o ∈ strict.
Proof.
  unfold POST_picked. intros Ho.
  apply elem_of_swapLastIfUniform in Ho as [Ho | Ho].
  - apply elem_of_pickLoop in Ho as [Ho | Ho]; [by apply elem_of_nil in Ho |].
    by apply subseteq_take in Ho.
  - by apply subseteq_take in Ho.
Qed.

End Lists.

(** ** The stages of POST *)

Section Stages.

Context `{M : JsMath}.

Lemma bind_Ok {A B : Type} (m : Result A) (f : A -> Result B) (b : B) :
  m ≫= f = Ok b -> exists a, m = Ok a /\ f a = Ok b.
Proof. destruct m as [a | e]; simpl; [eauto | discriminate]. Qed.

Lemma awaitAll_map_elem {A B : Type} (f : A -> Result B) (xs : list A) (l : list B) (y : B) :
  awaitAll (map f xs) = Ok l -> y ∈ l -> exists x, x ∈ xs /\ f x = Ok y.
Proof.
  revert l. induction xs as [| x xs IH]; intros l; simpl.
  - intros [= <-] Hy. by apply elem_of_nil in Hy.
  - intros Hb. apply bind_Ok in Hb as (a & Ha & Hb).
    apply bind_Ok in Hb as (l' & Hl' & Hb). injection Hb as <-.
    rewrite elem_of_cons. intros [-> | Hy].
    + exists x. split; [by left | done].
    + destruct (IH l' Hl' Hy) as (x' & Hx' & Hf). exists x'. split; [by right | done].
Qed.

Lemma core_withScore o s : core (withScore o s) = core o.
Proof. reflexivity. Qed.

Lemma core_withId o i : core (withId o i) = core o.
Proof. reflexivity. Qed.

Lemma core_withCopy o w ws : core (withCopy o w ws) = core o.
Proof. reflexivity. Qed.

Lemma core_applyCopy x m o : core (applyCopy x m o) = core o.
Proof. reflexivity. Qed.

Lemma core_toPublicOption o : core (toPublicOption o) = core o.
Proof. reflexivity. Qed.

Lemma sameVenue_fields (o o' : Option) :
  sameVenue o o' ->
  o_category o = o_category o' /\ o_rating o = o_rating o' /\
  o_openStatus o = o_openStatus o' /\ o_lat o = o_lat o' /\ o_lng o = o_lng o' /\
  o_closingTime o = o_closingTime o' /\ o_closeTs o = o_closeTs o' /\
  o_placeId o = o_placeId o' /\ o_name o = o_name o'.
Proof.
  unfold sameVenue, core. destruct o, o'. simpl. intros [= -> -> -> -> -> -> -> -> ->].
  repeat split; congruence.
Qed.

Lemma hardReject_sameVenue now (o o' : Option) args :
  sameVenue o o' -> hardReject now o args = hardReject now o' args.
Proof.
  intros Hs. apply sameVenue_fields in Hs as (Hc & _ & Hs & Hla & Hlo & Hct & Hts & _).
  unfold hardReject. rewrite Hc, Hs, Hla, Hlo, Hct, Hts. reflexivity.
Qed.

(** Every built Option comes from the details of a candidate. *)
Lemma buildOptionsFromCandidates_elem env candidates tz vibe allowed c built o :
  buildOptionsFromCandidates env candidates tz vibe allowed c = Ok built ->
  o ∈ built ->
  exists a d, a ∈ candidates /\
    fetchPlaceDetailsById env (c_placeId a) tz = Ok (Some d) /\
    buildOption vibe allowed c d = Some o.
Proof.
  unfold buildOptionsFromCandidates. intros Hb Ho.
  apply bind_Ok in Hb as (detailsList & Hd & Hb). injection Hb as <-.
  apply list_elem_of_omap in Ho as ([d |] & Hin & Hbuild); [| discriminate].
  destruct (awaitAll_map_elem _ _ _ _ Hd Hin) as (a & Ha & Hf).
  exists a, d. split; [| done].
  unfold detailsToFetch in Ha. apply subseteq_take in Ha. by apply elem_of_sortBy in Ha.
Qed.

(** No candidate that reaches the details has a swapped identifier. *)
Lemma POST_candidates_not_swapped env c vibe veg seenSet swappedSet candidates a :
  POST_candidates env c vibe veg seenSet swappedSet = Ok candidates ->
  a ∈ candidates -> c_placeId a ∉ swappedSet.
Proof.
  unfold POST_candidates. intros Hb Ha.
  apply bind_Ok in Hb as (allc & _ & Hb). injection Hb as <-.
  apply elem_of_List_filter in Ha as [_ Hf]. apply negb_true_iff in Hf.
  by apply has_false.
Qed.

Lemma POST_scoredAll_elem rnd x built o :
  o ∈ POST_scoredAll rnd x built -> exists o0, o0 ∈ built /\ sameVenue o0 o.
Proof.
  unfold POST_scoredAll. rewrite elem_of_sortBy, elem_of_lookup_imap.
  intros (i & o0 & -> & Hl). exists o0. split; [by eapply list_elem_of_lookup_2 | done].
Qed.

(** The shortlist and the swap pool before the copy: each Option passed its
    profile and is a built Option up to its score. *)
Lemma POST_select_picked rnd x built picked swapPool dropped o :
  POST_select rnd x built = (picked, swapPool, dropped) ->
  o ∈ picked ->
  strictVerdict x o = None /\ exists o0, o0 ∈ built /\ sameVenue o0 o.
Proof.
  unfold POST_select.
  destruct (filterCounting (swapVerdict x) _ ∅) as [swapFeasible dropped1] eqn:Hs.
  destruct (filterCounting (strictVerdict x) _ dropped1) as [strict dropped2] eqn:Ht.
  intros [= <- <- <-] Ho. apply elem_of_POST_picked in Ho.
  pose proof (elem_of_filterCounting (strictVerdict x)
                (POST_deduped (POST_scoredAll rnd x built) []) dropped1 o) as Hf.
  rewrite Ht in Hf. destruct (Hf Ho) as [Hin Hv]. split; [done |].
  apply elem_of_POST_deduped in Hin. by apply POST_scoredAll_elem in Hin.
Qed.

Lemma POST_select_pool rnd x built picked swapPool dropped o :
  POST_select rnd x built = (picked, swapPool, dropped) ->
  o ∈ swapPool ->
  swapVerdict x o = None /\ exists o0, o0 ∈ built /\ sameVenue o0 o.
Proof.
  unfold POST_select.
  destruct (filterCounting (swapVerdict x) _ ∅) as [swapFeasible dropped1] eqn:Hs.
  destruct (filterCounting (strictVerdict x) _ dropped1) as [strict dropped2] eqn:Ht.
  intros [= <- <- <-] Ho. apply elem_of_POST_swapPool in Ho.
  pose proof (elem_of_filterCounting (swapVerdict x)
                (POST_deduped (POST_scoredAll rnd x built) []) ∅ o) as Hf.
  rewrite Hs in Hf. destruct (Hf Ho) as [Hin Hv]. split; [done |].
  apply elem_of_POST_deduped in Hin. by apply POST_scoredAll_elem in Hin.
Qed.

(** A plan is only answered by [POST_plan]. *)
Lemma POST_RespPlan env body options w lim reason pool :
  POST env body = RespPlan options w lim reason pool ->
  exists b, body = Some b /\ POST_plan env b = Ok (RespPlan options w lim reason pool).
Proof.
  unfold POST. destruct (negb (env_googleKey env)); [discriminate |].
  destruct (env_userId env) as [u | e]; simpl; [| discriminate].
  destruct (enforceRateLimit env _ _) as [[| st ra msg] | e]; simpl; try discriminate.
  destruct body as [b |]; [| discriminate].
  destruct (POST_plan env b) as [r | e] eqn:Hp; [| discriminate].
  intros ->. eauto.
Qed.

Lemma POST_plan_stages env b options w lim reason pool :
  POST_plan env b = Ok (RespPlan options w lim reason pool) ->
  let x := requestCtx env b w in
  exists candidates built picked swapPool dropped copyById,
    isPrototypeKey (vibeOf b) = false /\
    env_weather env (cityOf b) = Ok w /\
    POST_candidates env (x_center x) (x_vibe x) (x_vegFriendly x) (x_seenSet x)
      (x_swappedSet x) = Ok candidates /\
    buildOptionsFromCandidates env candidates (tzOffsetOf w) (x_vibe x) (x_allowed x)
      (x_center x) = Ok built /\
    POST_select (env_random env) x built = (picked, swapPool, dropped) /\
    options = map toPublicOption
                (imap (fun idx o => withId o (pretty (S idx)))
                   (map (applyCopy x copyById) picked)) /\
    pool = map toPublicOption (map (applyCopy x copyById) swapPool).
Proof.
  unfold POST_plan. intros Hb.
  apply bind_Ok in Hb as (city & Hcity & Hb).
  apply bind_Ok in Hb as (vibe & Hvibe & Hb).
  destruct (isPrototypeKey vibe) eqn:Hpv; [discriminate |].
  apply bind_Ok in Hb as (w' & Hw & Hb).
  destruct (isPrototypeKey city) eqn:Hpc; [discriminate |].
  apply bind_Ok in Hb as (candidates & Hc & Hb).
  apply bind_Ok in Hb as (built & Hbuilt & Hb).
  destruct (POST_select (env_random env) (requestCtx env b w') built)
    as [[picked swapPool] dropped] eqn:Hsel.
  apply bind_Ok in Hb as (gptCopy & Hg & Hb).
  injection Hb as <- <- <- <- <-.
  exists candidates, built, picked, swapPool, dropped, (copyById_of gptCopy).
  assert (Hv : vibeOf b = vibe) by (unfold vibeOf; by rewrite Hvibe).
  assert (Hci : cityOf b = city) by (unfold cityOf; by rewrite Hcity).
  rewrite Hv, Hci. repeat split; assumption.
Qed.

Lemma published_options x copyById (picked : list Option) o :
  o ∈ map toPublicOption
        (imap (fun idx o => withId o (pretty (S idx))) (map (applyCopy x copyById) picked)) ->
  exists o', o' ∈ picked /\ sameVenue o' o.
Proof.
  intros Ho. apply list_elem_of_fmap in Ho as (o1 & -> & Ho).
  apply elem_of_lookup_imap in Ho as (i & o2 & -> & Hl).
  apply list_elem_of_lookup_2 in Hl.
  apply list_elem_of_fmap in Hl as (o3 & -> & Ho). exists o3. split; [done | reflexivity].
Qed.

Lemma published_pool x copyById (swapPool : list Option) o :
  o ∈ map toPublicOption (map (applyCopy x copyById) swapPool) ->
  exists o', o' ∈ swapPool /\ sameVenue o' o.
Proof.
  intros Ho. apply list_elem_of_fmap in Ho as (o1 & -> & Ho).
  apply list_elem_of_fmap in Ho as (o3 & -> & Ho). exists o3. split; [done | reflexivity].
Qed.

End Stages.

(** ** Built Options *)

Section BuiltOptions.

Lemma clamp_bounds (n lo hi : Q) :
  (lo <= hi)%Q -> (lo <= clamp n lo hi)%Q /\ (clamp n lo hi <= hi)%Q.
Proof.
  intros Hle. unfold clamp. split.
  - apply Q.le_max_l.
  - apply Q.max_lub; [assumption | apply Q.le_min_l].
Qed.

Lemma buildOption_fields vibe allowed c d o :
  buildOption vibe allowed c d = Some o ->
  o_category o = googleTypeToInternalCategory (d_types d) vibe /\
  o_category o ∈ allowed /\
  o_rating o = Some (clamp (default 4.4%Q (d_rating d)) 4.1 5.0) /\
  o_placeId o = d_placeId d /\
  o_closingTime o = d_closingTime d /\ o_closeTs o = d_closeTs d /\
  d_openNow d <> Some false /\ d_businessStatus d <> Some "CLOSED_PERMANENTLY" /\
  o_name o = d_name d.
Proof.
  unfold buildOption. case_bool_decide as Hb; [discriminate |].
  case_bool_decide as Hn; [discriminate |].
  destruct (has allowed _) eqn:Hc; simpl; [| discriminate].
  intros [= <-]. simpl. apply has_true in Hc. repeat split; assumption.
Qed.

(** Only a record the provider reports open gets a status with "open now". *)
Lemma buildOption_open_now vibe allowed c d o :
  buildOption vibe allowed c d = Some o ->
  Str.includes "open now" (Str.toLowerCase (o_openStatus o)) = true ->
  d_openNow d = Some true.
Proof.
  unfold buildOption. case_bool_decide as Hb; [discriminate |].
  case_bool_decide as Hn; [discriminate |].
  destruct (has allowed _); simpl; [| discriminate].
  intros [= <-]. simpl. case_bool_decide as Ho; [done |].
  vm_compute. discriminate.
Qed.

Lemma buildOption_openStatus vibe allowed c d o :
  buildOption vibe allowed c d = Some o ->
  o_openStatus o = "Open now" \/
  o_openStatus o = "Hours unknown • Check on Maps" \/
  exists label, d_closingTime d = Some label /\
                o_openStatus o = "Open now • Closes at " +:+ label.
Proof.
  unfold buildOption. case_bool_decide; [discriminate |]. case_bool_decide; [discriminate |].
  destruct (negb (has allowed _)); [discriminate |].
  intros [= <-]. cbn [o_openStatus].
  case_bool_decide; [| by right; left].
  destruct (d_closingTime d) as [label |]; simpl; [| by left].
  destruct (Str.truthy label); [| by left]. right. right. by exists label.
Qed.

Context `{M : JsMath}.

Lemma strictVerdict_None x o :
  strictVerdict x o = None ->
  Str.includes "open now" (Str.toLowerCase (o_openStatus o)) = true /\
  hasClose o = true /\ hardReject (x_now x) o (strictOf x) = None.
Proof.
  unfold strictVerdict.
  destruct (Str.includes "open now" _); simpl; [| discriminate].
  destruct (hasClose o); simpl; [| discriminate].
  destruct (hardReject _ _ _); [discriminate | done].
Qed.

Lemma swapVerdict_None x o :
  swapVerdict x o = None -> hardReject (x_now x) o (relaxedOf x) = None.
Proof. unfold swapVerdict. destruct (hardReject _ _ _); [discriminate | done]. Qed.

Lemma strictVerdict_sameVenue x o o' :
  sameVenue o o' -> strictVerdict x o = strictVerdict x o'.
Proof.
  intros Hs. unfold strictVerdict, hasClose.
  rewrite (hardReject_sameVenue _ _ _ _ Hs).
  apply sameVenue_fields in Hs as (_ & _ & -> & _ & _ & -> & -> & _). reflexivity.
Qed.

Lemma swapVerdict_sameVenue x o o' :
  sameVenue o o' -> swapVerdict x o = swapVerdict x o'.
Proof. intros Hs. unfold swapVerdict. by rewrite (hardReject_sameVenue _ _ _ _ Hs). Qed.

(** Where a returned Option comes from, and what it passed. *)
Lemma returned_option env body options w lim reason pool o :
  POST env body = RespPlan options w lim reason pool ->
  o ∈ options \/ o ∈ pool ->
  exists b a d o0,
    body = Some b /\
    isPrototypeKey (vibeOf b) = false /\
    (c_placeId a ∉ x_swappedSet (requestCtx env b w)) /\
    fetchPlaceDetailsById env (c_placeId a) (tzOffsetOf w) = Ok (Some d) /\
    buildOption (x_vibe (requestCtx env b w)) (x_allowed (requestCtx env b w))
      (x_center (requestCtx env b w)) d = Some o0 /\
    sameVenue o0 o /\
    (o ∈ options -> strictVerdict (requestCtx env b w) o = None) /\
    (o ∈ pool -> swapVerdict (requestCtx env b w) o = None).
Proof.
  intros HP Ho. apply POST_RespPlan in HP as (b & -> & HP).
  apply POST_plan_stages in HP
    as (candidates & built & picked & swapPool & dropped & copyById &
        Hproto & Hw & Hc & Hb & Hsel & -> & ->).
  assert (Hstrict : forall o, o ∈ map toPublicOption
             (imap (fun idx o => withId o (pretty (S idx)))
                (map (applyCopy (requestCtx env b w) copyById) picked)) ->
           strictVerdict (requestCtx env b w) o = None /\
           exists o0, o0 ∈ built /\ sameVenue o0 o).
  { intros o1 Ho1. apply published_options in Ho1 as (o' & Hin & Hs).
    destruct (POST_select_picked _ _ _ _ _ _ _ Hsel Hin) as (Hv & o0 & Hin0 & Hs0).
    split; [by rewrite <- (strictVerdict_sameVenue _ _ _ Hs) |].
    exists o0. split; [done |]. unfold sameVenue in *. congruence. }
  assert (Hswap : forall o, o ∈ map toPublicOption
             (map (applyCopy (requestCtx env b w) copyById) swapPool) ->
           swapVerdict (requestCtx env b w) o = None /\
           exists o0, o0 ∈ built /\ sameVenue o0 o).
  { intros o1 Ho1. apply published_pool in Ho1 as (o' & Hin & Hs).
    destruct (POST_select_pool _ _ _ _ _ _ _ Hsel Hin) as (Hv & o0 & Hin0 & Hs0).
    split; [by rewrite <- (swapVerdict_sameVenue _ _ _ Hs) |].
    exists o0. split; [done |]. unfold sameVenue in *. congruence. }
  assert (Hbuilt : exists o0, o0 ∈ built /\ sameVenue o0 o).
  { destruct Ho as [Ho | Ho]; [apply Hstrict in Ho | apply Hswap in Ho]; tauto. }
  destruct Hbuilt as (o0 & Hin0 & Hs0).
  destruct (buildOptionsFromCandidates_elem _ _ _ _ _ _ _ _ Hb Hin0) as (a & d & Ha & Hf & Hbo).
  exists b, a, d, o0. repeat split; try assumption.
  - by eapply POST_candidates_not_swapped.
  - intros Hin. by apply Hstrict.
  - intros Hin. by apply Hswap.
Qed.

End BuiltOptions.

(** ** The returned shortlist and swap pool *)

Section Returned.

(** The request of [Scenario.cafeEnv]: one cafe, on the shortlist and in the
    pool. *)
Lemma cafe_plan :
  exists o o',
    POST (H := Sample.math) Scenario.cafeEnv (Some (Scenario.request "Cozy" [])) =
    RespPlan [o] None true (Some "Limited matches — try adjusting filters.") [o'] /\
    o' = withId o "ChIJcafe" /\
    o_placeId o = Some "ChIJcafe" /\ o_category o = "Cafe".
Proof. do 2 eexists. split; [vm_compute; reflexivity | repeat split; reflexivity]. Qed.

(** C1. Every returned Option, on the shortlist and in the swap pool, has a
    category of the allowed list of the vibe of the request:
    [googleTypeToInternalCategory] maps any list of type tags into
    [ALLOWED_BY_VIBE[vibe]] for every vibe of the table,
    [buildOptionsFromCandidates] only emits Options whose category is in the
    allowed set, and so does [POST]. *)
Theorem category_always_allowed :
  (forall (types : list string) (vibe : string) (cats : list string),
      ALLOWED_BY_VIBE vibe = Some cats ->
      googleTypeToInternalCategory types vibe ∈ cats) /\
  (forall (M : JsMath) env candidates tz vibe allowed c built o,
      buildOptionsFromCandidates env candidates tz vibe allowed c = Ok built ->
      o ∈ built -> o_category o ∈ allowed) /\
  (forall (M : JsMath) env body options w lim reason pool o,
      POST env body = RespPlan options w lim reason pool ->
      o ∈ options \/ o ∈ pool ->
      exists b cats,
        body = Some b /\
        ALLOWED_BY_VIBE (vibeOf b) = Some cats /\
        o_category o ∈ cats).
Proof.
  split; [exact googleTypeToInternalCategory_allowed | split].
  - intros M env candidates tz vibe allowed c built o Hb Ho.
    destruct (buildOptionsFromCandidates_elem _ _ _ _ _ _ _ _ Hb Ho) as (a & d & _ & _ & Hbo).
    by apply buildOption_fields in Hbo as (_ & ? & _).
  - intros M env body options w lim reason pool o HP Ho.
    destruct (returned_option _ _ _ _ _ _ _ _ HP Ho)
      as (b & a & d & o0 & -> & Hproto & _ & _ & Hbo & Hs & _).
    exists b, (allowedOrSocial (vibeOf b)).
    split; [done |]. split; [by apply vibeOf_key |].
    apply buildOption_fields in Hbo as (_ & Hc & _).
    apply sameVenue_fields in Hs as (<- & _). exact Hc.
Qed.

Lemma category_always_allowed_witness :
  exists o,
    o ∈ Scenario.options_of
          (POST (H := Sample.math) Scenario.cafeEnv (Some (Scenario.request "Cozy" []))) /\
    o_category o ∈ ["Cafe"; "Dessert"; "Bookstore"; "Wine Bar"; "Tea House"].
Proof.
  destruct cafe_plan as (o & o' & HP & _).
  exists o. split; [rewrite HP; by left |].
  destruct category_always_allowed as (_ & _ & H3).
  destruct (H3 Sample.math _ _ _ _ _ _ _ o HP) as (b & cats & Hb & Hk & Hin).
  - left. by left.
  - injection Hb as <-. vm_compute in Hk. injection Hk as <-. exact Hin.
Defined.

(** C2. Every Option of the returned shortlist was reported open by the
    provider, has a known closing instant or label, at least 75 remaining
    minutes computed from them, and is at most 10 km from the center. *)
Theorem shortlist_is_strict `{M : JsMath} env body options w lim reason pool o :
  POST env body = RespPlan options w lim reason pool ->
  o ∈ options ->
  exists b pid d m,
    body = Some b /\
    fetchPlaceDetailsById env pid (tzOffsetOf w) = Ok (Some d) /\
    o_placeId o = d_placeId d /\ o_name o = d_name d /\
    d_openNow d = Some true /\
    hasClose o = true /\
    minutesUntilClose (x_now (requestCtx env b w)) (x_cityNow (requestCtx env b w))
      (o_closingTime o) (o_closeTs o) = Some m /\
    MIN_REMAINING_MIN <= m /\
    (haversineKm (x_center (requestCtx env b w)) {| lat := o_lat o; lng := o_lng o |}
       <= MAX_DIST_KM_SHORTLIST)%Q.
Proof.
  intros HP Ho.
  destruct (returned_option _ _ _ _ _ _ _ _ HP (or_introl Ho))
    as (b & a & d & o0 & -> & _ & _ & Hf & Hbo & Hs & Hstrict & _).
  apply Hstrict, strictVerdict_None in Ho as (Hopen & Hclose & Hr).
  apply hardReject_None in Hr as (_ & _ & Hd & Hm).
  unfold remainingOf, distanceOf in *. simpl in Hm, Hd.
  destruct (minutesUntilClose _ _ _ _) as [m |] eqn:Hmin; [| discriminate].
  exists b, (c_placeId a), d, m.
  pose proof (sameVenue_fields _ _ Hs) as (_ & _ & Hst & _ & _ & _ & _ & Hp & Hn).
  repeat split; try assumption.
  - rewrite <- Hp. by apply buildOption_fields in Hbo as (_ & _ & _ & ? & _).
  - rewrite <- Hn. by apply buildOption_fields in Hbo as (_ & _ & _ & _ & _ & _ & _ & _ & ?).
  - eapply buildOption_open_now; [exact Hbo |]. by rewrite Hst.
Qed.

Lemma shortlist_is_strict_witness :
  exists o,
    o ∈ Scenario.options_of
          (POST (H := Sample.math) Scenario.cafeEnv (Some (Scenario.request "Cozy" []))) /\
    hasClose o = true /\
    (exists m, minutesUntilClose Scenario.t0 Scenario.t0 (o_closingTime o) (o_closeTs o)
               = Some m /\ 75 <= m) /\
    (haversineKm (H := Sample.math) BOSTON {| lat := o_lat o; lng := o_lng o |} <= 10)%Q.
Proof.
  destruct cafe_plan as (o & o' & HP & _).
  assert (Hin : o ∈ [o]) by (by left).
  exists o. split; [rewrite HP; exact Hin |].
  destruct (shortlist_is_strict (M := Sample.math) _ _ _ _ _ _ _ o HP Hin)
    as (b & pid & d & m & Hb & _ & _ & _ & _ & Hc & Hm & Hge & Hd).
  injection Hb as <-. split; [exact Hc |]. split; [| exact Hd].
  exists m. split; [exact Hm | exact Hge].
Defined.

End Returned.

(** ** The swap pool *)

Section SwapPool.

(** C3, as stated, fails: an identifier the caller supplied in
    [swappedPlaceIds] past the first 220 entries is not excluded. *)
Lemma swapped_past_cap_is_returned :
  Some "ChIJcafe" ∈ Scenario.swapped221 /\
  exists o o',
    POST (H := Sample.math) Scenario.cafeEnv
      (Some (Scenario.request "Cozy" Scenario.swapped221)) =
    RespPlan [o'] None true (Some "Limited matches — try adjusting filters.") [o] /\
    o_placeId o = Some "ChIJcafe" /\ o_placeId o' = Some "ChIJcafe".
Proof.
  split.
  - unfold Scenario.swapped221. apply elem_of_app. right. by left.
  - do 2 eexists. split; [vm_compute; reflexivity | split; reflexivity].
Qed.

(** C3, amended. Every Option of the returned swap pool is at most 14 km from
    the center and, when its remaining minutes are known, has at least 45 of
    them; the relaxed profile accepts unknown hours; and when the details
    carry the identifier they were asked for, no Option of the pool or of the
    shortlist has an identifier of the sanitized swapped list (the first 220
    non-blank entries of [swappedPlaceIds], trimmed). *)
Theorem swap_pool_is_relaxed `{M : JsMath} env body options w lim reason pool :
  POST env body = RespPlan options w lim reason pool ->
  exists b,
    body = Some b /\
    (forall o, o ∈ pool ->
       (haversineKm (x_center (requestCtx env b w)) {| lat := o_lat o; lng := o_lng o |}
          <= MAX_DIST_KM_SWAP)%Q /\
       (forall m,
           minutesUntilClose (x_now (requestCtx env b w)) (x_cityNow (requestCtx env b w))
             (o_closingTime o) (o_closeTs o) = Some m ->
           RELAXED_REMAINING_MIN <= m)) /\
    (forall o,
        categoryAllowed o (relaxedOf (requestCtx env b w)) -> ~ reportsClosed o ->
        (distanceOf o (relaxedOf (requestCtx env b w)) <= MAX_DIST_KM_SWAP)%Q ->
        remainingOf (x_now (requestCtx env b w)) o (relaxedOf (requestCtx env b w)) = None ->
        hardReject (x_now (requestCtx env b w)) o (relaxedOf (requestCtx env b w)) = None) /\
    ((forall pid d,
         fetchPlaceDetailsById env pid (tzOffsetOf w) = Ok (Some d) -> d_placeId d = Some pid) ->
     forall o p,
       o ∈ options \/ o ∈ pool -> o_placeId o = Some p ->
       p ∉ sanitizeIdList (req_swappedPlaceIds b) MAX_SWAPPED_IDS).
Proof.
  intros HP. destruct (POST_RespPlan _ _ _ _ _ _ _ HP) as (b & Hb & _).
  exists b. split; [exact Hb |]. split; [| split].
  - intros o Ho.
    destruct (returned_option _ _ _ _ _ _ _ _ HP (or_intror Ho))
      as (b' & a & d & o0 & Hb' & _ & _ & _ & _ & _ & _ & Hswap).
    assert (b' = b) as -> by congruence.
    apply Hswap, swapVerdict_None, hardReject_None in Ho as (_ & _ & Hd & Hm).
    split; [exact Hd |]. intros m Hmin.
    unfold remainingOf, relaxedOf, relaxedArgs in Hm. cbn [cityNow minRemaining] in Hm.
    rewrite Hmin in Hm. exact Hm.
  - intros o Hc Hcl Hd Hm. rewrite hardReject_near by assumption. rewrite Hm. reflexivity.
  - intros Hecho o p Ho Hp.
    destruct (returned_option _ _ _ _ _ _ _ _ HP Ho)
      as (b' & a & d & o0 & Hb' & _ & Hex & Hf & Hbo & Hs & _).
    assert (b' = b) as -> by congruence.
    apply Hecho in Hf. apply buildOption_fields in Hbo as (_ & _ & _ & Hid & _).
    apply sameVenue_fields in Hs as (_ & _ & _ & _ & _ & _ & _ & Hp' & _).
    assert (p = c_placeId a) as -> by congruence. exact Hex.
Qed.

Lemma cafe_details_echo pid d :
  fetchPlaceDetailsById Scenario.cafeEnv pid 0 = Ok (Some d) -> d_placeId d = Some pid.
Proof.
  unfold fetchPlaceDetailsById. simpl. unfold Scenario.detailsOf. simpl.
  case_bool_decide as Hp; simpl; [| discriminate].
  intros [= <-]. exact Hp.
Qed.

Lemma swap_pool_is_relaxed_witness :
  exists o,
    o ∈ Scenario.pool_of
          (POST (H := Sample.math) Scenario.cafeEnv (Some (Scenario.request "Cozy" []))) /\
    (haversineKm (H := Sample.math) BOSTON {| lat := o_lat o; lng := o_lng o |} <= 14)%Q /\
    (forall p, o_placeId o = Some p -> p ∉ sanitizeIdList (Some []) MAX_SWAPPED_IDS).
Proof.
  destruct cafe_plan as (o0 & o & HP & _).
  assert (Hin : o ∈ [o]) by (by left).
  exists o. split; [rewrite HP; exact Hin |].
  destruct (swap_pool_is_relaxed (M := Sample.math) _ _ _ _ _ _ _ HP)
    as (b & Hb & Hpool & _ & Hex).
  injection Hb as <-. split.
  - exact (proj1 (Hpool _ Hin)).
  - intros p Hid. exact (Hex cafe_details_echo _ p (or_intror Hin) Hid).
Defined.

End SwapPool.

(** ** Ratings *)

Section Ratings.

(** C10. Every returned Option has a rating, between 4.1 and 5.0; a record
    without a numeric rating gets 4.4; so [opt.rating ?? 4.2] in [scoreOption]
    always reads the rating of a built Option. *)
Theorem rating_always_in_range :
  (forall vibe allowed c d o,
      buildOption vibe allowed c d = Some o ->
      exists r, o_rating o = Some r /\ (4.1 <= r)%Q /\ (r <= 5.0)%Q /\
                (d_rating d = None -> r = 4.4%Q)) /\
  (forall (M : JsMath) env candidates tz vibe allowed c built o,
      buildOptionsFromCandidates env candidates tz vibe allowed c = Ok built ->
      o ∈ built -> is_Some (o_rating o)) /\
  (forall (M : JsMath) env body options w lim reason pool o,
      POST env body = RespPlan options w lim reason pool ->
      o ∈ options \/ o ∈ pool ->
      exists r, o_rating o = Some r /\ (4.1 <= r)%Q /\ (r <= 5.0)%Q).
Proof.
  assert (H1 : forall vibe allowed c d o,
      buildOption vibe allowed c d = Some o ->
      exists r, o_rating o = Some r /\ (4.1 <= r)%Q /\ (r <= 5.0)%Q /\
                (d_rating d = None -> r = 4.4%Q)).
  { intros vibe allowed c d o Hbo.
    apply buildOption_fields in Hbo as (_ & _ & Hr & _).
    eexists. split; [exact Hr |].
    destruct (clamp_bounds (default 4.4%Q (d_rating d)) 4.1 5.0) as [Hlo Hhi]; [done |].
    repeat split; try assumption. intros ->. reflexivity. }
  split; [exact H1 | split].
  - intros M env candidates tz vibe allowed c built o Hb Ho.
    destruct (buildOptionsFromCandidates_elem _ _ _ _ _ _ _ _ Hb Ho) as (a & d & _ & _ & Hbo).
    destruct (H1 _ _ _ _ _ Hbo) as (r & Hr & _). by exists r.
  - intros M env body options w lim reason pool o HP Ho.
    destruct (returned_option _ _ _ _ _ _ _ _ HP Ho)
      as (b & a & d & o0 & _ & _ & _ & _ & Hbo & Hs & _).
    destruct (H1 _ _ _ _ _ Hbo) as (r & Hr & Hlo & Hhi & _).
    apply sameVenue_fields in Hs as (_ & Hrat & _).
    exists r. rewrite <- Hrat. repeat split; assumption.
Qed.

Lemma rating_always_in_range_witness :
  exists o r,
    o ∈ Scenario.options_of
          (POST (H := Sample.math) Scenario.cafeEnv (Some (Scenario.request "Cozy" []))) /\
    o_rating o = Some r /\ (4.1 <= r)%Q /\ (r <= 5.0)%Q.
Proof.
  destruct cafe_plan as (o & o' & HP & _).
  assert (Hin : o ∈ [o]) by (by left).
  destruct rating_always_in_range as (_ & _ & H3).
  destruct (H3 Sample.math _ _ _ _ _ _ _ o HP (or_introl Hin)) as (r & Hr & Hb).
  exists o, r. split; [rewrite HP; exact Hin |]. split; [exact Hr | exact Hb].
Defined.

End Ratings.

(** ** The cache *)

Section Cache.

(** Writes to the cache never fail a search: whatever [redisSetPx] does, the
    candidates are returned. *)
Lemma swallow_Ok (m : Result unit) : exists u, swallow m = Ok u.
Proof. destruct m; simpl; eauto. Qed.

Lemma searchLane_read_throws env lane cut live la lo radiusM q :
  env_googleKey env = true -> env_hasRedis env = true ->
  env_searchGet env {| k_lane := lane; k_lat := la; k_lng := lo; k_radius := radiusM;
                       k_q := String.substring 0 cut (Str.toLowerCase q) |} = ReadThrows ->
  searchLane env lane cut live la lo radiusM q true = Thrown "Redis pipeline failed".
Proof. unfold searchLane. intros -> -> ->. reflexivity. Qed.

Lemma fetchPlaceDetailsById_read_throws env placeId tz :
  env_googleKey env = true -> env_hasRedis env = true ->
  env_detailsGet env placeId tz = ReadThrows ->
  fetchPlaceDetailsById env placeId tz = Thrown "Redis pipeline failed".
Proof. unfold fetchPlaceDetailsById. intros -> -> ->. reflexivity. Qed.

Lemma searchLane_write_swallowed env lane cut live la lo radiusM q data :
  env_googleKey env = true ->
  env_searchGet env {| k_lane := lane; k_lat := la; k_lng := lo; k_radius := radiusM;
                       k_q := String.substring 0 cut (Str.toLowerCase q) |} = ReadNull ->
  live la lo radiusM q = LiveData data ->
  searchLane env lane cut live la lo radiusM q true
  = Ok (omap toCandidate (default [] data)).
Proof.
  unfold searchLane. intros -> -> ->. simpl.
  destruct (env_hasRedis env); simpl; [| reflexivity].
  destruct (env_searchSet env _); reflexivity.
Qed.

(** C4 (code bug). With Redis configured and its reads failing, the search
    and details functions throw and the request is answered with status 500;
    with the reads missing and the writes failing, the same request is
    answered with its plan. *)
Theorem cache_read_failure_fails_request :
  googleNearbySearch Scenario.readsFailEnv (lat BOSTON) (lng BOSTON)
    CITY_CENTER_RADIUS_SWAP_M "cafe" true = Thrown "Redis pipeline failed" /\
  googleTextSearch Scenario.readsFailEnv (lat BOSTON) (lng BOSTON)
    CITY_CENTER_RADIUS_SWAP_M "cozy cafe" true = Thrown "Redis pipeline failed" /\
  fetchPlaceDetailsById Scenario.readsFailEnv "ChIJcafe" 0 = Thrown "Redis pipeline failed" /\
  POST (H := Sample.math) Scenario.readsFailEnv (Some (Scenario.request "Cozy" []))
  = RespError 500 "Plan generation failed." None /\
  exists o o',
    POST (H := Sample.math) Scenario.writesFailEnv (Some (Scenario.request "Cozy" [])) =
    RespPlan [o] None true (Some "Limited matches — try adjusting filters.") [o'] /\
    o_placeId o = Some "ChIJcafe" /\ o_placeId o' = Some "ChIJcafe".
Proof.
  do 4 (split; [vm_compute; reflexivity |]).
  do 2 eexists. split; [vm_compute; reflexivity | split; reflexivity].
Qed.

End Cache.
(** ** The order and the thresholds of the feasibility rules *)

Section RejectionOrder.

(** Splits a conjunction of closed facts and evaluates each of them. *)
Ltac evaluate :=
  repeat match goal with |- _ /\ _ => split end;
  vm_compute; first [ reflexivity | discriminate ].

(** The bar of [Scenario.farClosedBar]: of an allowed category, reporting
    itself closed. *)
Lemma far_closed_bar_allowed_and_closed :
  categoryAllowed Scenario.farClosedBar
    (strictArgs SOCIAL_ALLOWED BOSTON Scenario.t0 15 Scenario.clearFlags) /\
  reportsClosed Scenario.farClosedBar.
Proof.
  split; [unfold categoryAllowed, SOCIAL_ALLOWED; simpl; by left |].
  vm_compute. reflexivity.
Qed.

(** C6, as stated, fails: a bar 306 km away that reports itself closed is
    rejected as closed, not as too far. *)
Lemma too_far_and_closed_is_closed :
  categoryAllowed Scenario.farClosedBar
    (strictArgs SOCIAL_ALLOWED BOSTON Scenario.t0 15 Scenario.clearFlags) /\
  reportsClosed Scenario.farClosedBar /\
  (MAX_DIST_KM_SHORTLIST <
     distanceOf (H := Sample.math) Scenario.farClosedBar
       (strictArgs SOCIAL_ALLOWED BOSTON Scenario.t0 15 Scenario.clearFlags))%Q /\
  hardReject (H := Sample.math) Scenario.t0 Scenario.farClosedBar
    (strictArgs SOCIAL_ALLOWED BOSTON Scenario.t0 15 Scenario.clearFlags) = Some "closed" /\
  hardReject (H := Sample.math) Scenario.t0 Scenario.farClosedBar
    (strictArgs SOCIAL_ALLOWED BOSTON Scenario.t0 15 Scenario.clearFlags) <> Some "too_far".
Proof.
  destruct far_closed_bar_allowed_and_closed as [Hc Hcl].
  split; [exact Hc |]. split; [exact Hcl |].
  evaluate.
Qed.

(** C6, amended. The rejection reasons are checked in this order, the first
    match winning: category not allowed; the provider reports closed; the
    distance exceeds the maximum of the profile; the remaining minutes are
    unknown and the profile disallows unknown hours; the remaining minutes
    are known and below the minimum of the profile; the weather blocks an
    outdoor-leaning category whose remaining minutes are known.  A candidate
    both too far and closed is rejected as closed. *)
Theorem rejection_order `{M : JsMath} now o args :
  (~ categoryAllowed o args -> hardReject now o args = Some "vibe_mismatch") /\
  (categoryAllowed o args -> reportsClosed o -> hardReject now o args = Some "closed") /\
  (categoryAllowed o args -> ~ reportsClosed o ->
   (maxDistKm args < distanceOf o args)%Q ->
   hardReject now o args = Some "too_far") /\
  (categoryAllowed o args -> ~ reportsClosed o ->
   (distanceOf o args <= maxDistKm args)%Q ->
   remainingOf now o args = None -> allowUnknownHours args = false ->
   hardReject now o args = Some "unknown_hours") /\
  (forall m,
      categoryAllowed o args -> ~ reportsClosed o ->
      (distanceOf o args <= maxDistKm args)%Q ->
      remainingOf now o args = Some m -> m < minRemaining args ->
      hardReject now o args = Some "closing_soon") /\
  (forall m,
      categoryAllowed o args -> ~ reportsClosed o ->
      (distanceOf o args <= maxDistKm args)%Q ->
      remainingOf now o args = Some m -> minRemaining args <= m ->
      isOutdoorishCategory (o_category o) = true -> badWeather args ->
      hardReject now o args = Some "weather_block") /\
  (forall m,
      categoryAllowed o args -> ~ reportsClosed o ->
      (distanceOf o args <= maxDistKm args)%Q ->
      remainingOf now o args = Some m -> minRemaining args <= m ->
      (isOutdoorishCategory (o_category o) = false \/ ~ badWeather args) ->
      hardReject now o args = None).
Proof.
  split; [apply hardReject_vibe_mismatch |].
  split; [apply hardReject_closed |].
  split; [apply hardReject_too_far |].
  split; [| split; [| split]].
  - intros Hc Hcl Hd Hm Hu. rewrite hardReject_near by assumption. by rewrite Hm, Hu.
  - intros m Hc Hcl Hd Hm Hlt. rewrite hardReject_near by assumption. rewrite Hm.
    apply Z.ltb_lt in Hlt. by rewrite Hlt.
  - intros m. apply hardReject_weather_block.
  - intros m Hc Hcl Hd Hm Hge Hw. rewrite hardReject_near by assumption. rewrite Hm.
    destruct (Z.ltb_spec m (minRemaining args)) as [Hlt | _]; [lia |].
    destruct Hw as [-> | Hw]; [reflexivity |].
    unfold badWeather in Hw.
    destruct (precip (flags args)); [tauto |].
    destruct (veryCold (flags args)); [tauto |].
    destruct (veryWindy (flags args)); [tauto |].
    destruct (cold (flags args)); simpl; rewrite ?andb_false_r; [| reflexivity].
    destruct (Z.leb_spec 18 (cityHour args)); [tauto |].
    rewrite ?andb_false_r. reflexivity.
Qed.

Lemma rejection_order_witness :
  hardReject (H := Sample.math) Scenario.t0 Scenario.farClosedBar
    (strictArgs SOCIAL_ALLOWED BOSTON Scenario.t0 15 Scenario.clearFlags) = Some "closed".
Proof.
  destruct far_closed_bar_allowed_and_closed as (Hc & Hcl).
  exact (proj1 (proj2 (rejection_order (M := Sample.math) Scenario.t0 Scenario.farClosedBar
                         (strictArgs SOCIAL_ALLOWED BOSTON Scenario.t0 15 Scenario.clearFlags)))
           Hc Hcl).
Defined.

(** C5 (code bug). A park whose hours are unknown, while it rains, is
    accepted by the relaxed profile and returned in the swap pool; the strict
    profile rejects it, as of unknown hours. *)
Theorem rainy_park_without_hours_is_accepted :
  isOutdoorishCategory (o_category Scenario.parkOption) = true /\
  precip Scenario.rainFlags = true /\
  remainingOf Scenario.t0 Scenario.parkOption
    (relaxedArgs Scenario.OUTDOORS_ALLOWED BOSTON Scenario.t0 15 Scenario.rainFlags) = None /\
  hardReject (H := Sample.math) Scenario.t0 Scenario.parkOption
    (relaxedArgs Scenario.OUTDOORS_ALLOWED BOSTON Scenario.t0 15 Scenario.rainFlags) = None /\
  hardReject (H := Sample.math) Scenario.t0 Scenario.parkOption
    (strictArgs Scenario.OUTDOORS_ALLOWED BOSTON Scenario.t0 15 Scenario.rainFlags)
  = Some "unknown_hours" /\
  exists o,
    POST (H := Sample.math) Scenario.parkEnv (Some (Scenario.request "Outdoors" [])) =
    RespPlan [] (Some Scenario.rainy) true (Some "Limited matches — try adjusting filters.")
      [o] /\
    o_category o = "Park" /\ o_placeId o = Some "ChIJpark" /\
    o_openStatus o = "Hours unknown • Check on Maps".
Proof.
  do 5 (split; [evaluate |]).
  eexists. split; [vm_compute; reflexivity |]. do 2 (split; [reflexivity |]). reflexivity.
Qed.

(** C7, as stated, fails: the dessert shop that closes in thirty minutes is
    rejected by the relaxed profile too. *)
Lemma closing_in_30_minutes_leaves_the_pool :
  o_closeTs Scenario.dessertClosingSoon = Some (Scenario.t0 + 30 * 60000) /\
  hardReject (H := Sample.math) Scenario.t0 Scenario.dessertClosingSoon
    (strictArgs Scenario.COZY_ALLOWED BOSTON Scenario.t0 15 Scenario.clearFlags)
  = Some "closing_soon" /\
  hardReject (H := Sample.math) Scenario.t0 Scenario.dessertClosingSoon
    (relaxedArgs Scenario.COZY_ALLOWED BOSTON Scenario.t0 15 Scenario.clearFlags)
  = Some "closing_soon" /\
  hardReject (H := Sample.math) Scenario.t0 Scenario.dessertClosingSoon
    (relaxedArgs Scenario.COZY_ALLOWED BOSTON Scenario.t0 15 Scenario.clearFlags)
  <> None.
Proof. evaluate. Qed.

(** C7, amended. Under the vibe "Cozy", an open "Dessert" candidate within
    10 km of the center whose [closeTs] is less than 45 minutes ahead (so
    also one 30 minutes ahead) is rejected by both profiles with reason
    "closing_soon"; one whose [closeTs] is at least 45 and less than 75
    minutes ahead is rejected from the strict shortlist with that reason and
    accepted by the relaxed profile. *)
Theorem closing_soon_thresholds `{M : JsMath} now o c cityNow hour f ts :
  o_category o = "Dessert" ->
  ~ reportsClosed o ->
  (haversineKm c {| lat := o_lat o; lng := o_lng o |} <= MAX_DIST_KM_SHORTLIST)%Q ->
  o_closeTs o = Some ts ->
  (ts - now < 45 * 60000 ->
   hardReject now o (strictArgs (allowedOrSocial "Cozy") c cityNow hour f)
   = Some "closing_soon" /\
   hardReject now o (relaxedArgs (allowedOrSocial "Cozy") c cityNow hour f)
   = Some "closing_soon") /\
  (45 * 60000 <= ts - now < 75 * 60000 ->
   hardReject now o (strictArgs (allowedOrSocial "Cozy") c cityNow hour f)
   = Some "closing_soon" /\
   hardReject now o (relaxedArgs (allowedOrSocial "Cozy") c cityNow hour f) = None).
Proof.
  intros Hcat Hcl Hd Hts.
  assert (Hd' : (haversineKm c {| lat := o_lat o; lng := o_lng o |} <= MAX_DIST_KM_SWAP)%Q).
  { eapply Qle_trans; [exact Hd | done]. }
  assert (Hall : forall a, allowedSet a = allowedOrSocial "Cozy" -> categoryAllowed o a).
  { intros a Ha. unfold categoryAllowed. rewrite Ha, Hcat. vm_compute. repeat constructor. }
  assert (Hmins : forall a, remainingOf now o a
                            = Some (if 0 <? ts - now then (ts - now) / 60000 else 0)).
  { intros a. unfold remainingOf, minutesUntilClose. by rewrite Hts. }
  assert (Hout : isOutdoorishCategory (o_category o) = false) by (by rewrite Hcat).
  split.
  - intros Hlt.
    assert (Hm : (if 0 <? ts - now then (ts - now) / 60000 else 0) < 45).
    { destruct (Z.ltb_spec 0 (ts - now)); [| lia].
      apply Z.div_lt_upper_bound; lia. }
    split; rewrite hardReject_near; try (by apply Hall); try assumption;
      rewrite Hmins; simpl;
      match goal with |- context [?a <? ?b] => destruct (Z.ltb_spec a b) end;
      try reflexivity; unfold MIN_REMAINING_MIN, RELAXED_REMAINING_MIN in *; lia.
  - intros [Hge Hlt].
    assert (Hm : 45 <= (if 0 <? ts - now then (ts - now) / 60000 else 0) < 75).
    { destruct (Z.ltb_spec 0 (ts - now)); [| lia]. split.
      - apply Z.div_le_lower_bound; lia.
      - apply Z.div_lt_upper_bound; lia. }
    split; rewrite hardReject_near; try (by apply Hall); try assumption;
      rewrite Hmins; simpl;
      match goal with |- context [?a <? ?b] => destruct (Z.ltb_spec a b) end;
      try reflexivity; unfold MIN_REMAINING_MIN, RELAXED_REMAINING_MIN in *; try lia.
    by rewrite Hout.
Qed.

Lemma closing_soon_thresholds_witness :
  hardReject (H := Sample.math) Scenario.t0 Scenario.dessertClosingSoon
    (strictArgs (allowedOrSocial "Cozy") BOSTON Scenario.t0 15 Scenario.clearFlags)
  = Some "closing_soon" /\
  hardReject (H := Sample.math) Scenario.t0 Scenario.dessertClosingSoon
    (relaxedArgs (allowedOrSocial "Cozy") BOSTON Scenario.t0 15 Scenario.clearFlags)
  = Some "closing_soon".
Proof.
  refine (proj1 (closing_soon_thresholds (M := Sample.math) Scenario.t0
                   Scenario.dessertClosingSoon BOSTON Scenario.t0 15 Scenario.clearFlags
                   (Scenario.t0 + 30 * 60000) _ _ _ _) _).
  - reflexivity.
  - vm_compute. discriminate.
  - vm_compute. discriminate.
  - reflexivity.
  - vm_compute. reflexivity.
Defined.

End RejectionOrder.

(** ** Fallback vibes *)

Section FallbackVibes.

(** The loop over the vibes stops once 140 candidates are gathered. *)
Lemma retrieveLoop_stops_at_threshold env c veg vLane rest allCandidates candidates :
  collectCandidatesMultiLane env c vLane CITY_CENTER_RADIUS_SWAP_M true veg = Ok candidates ->
  (CANDIDATE_THRESHOLD <= length (allCandidates ++ candidates))%nat ->
  retrieveLoop env c veg (vLane :: rest) allCandidates = Ok (allCandidates ++ candidates).
Proof.
  intros Hc Hlen. cbn [retrieveLoop]. rewrite Hc. unfold mbind, Result_bind.
  apply Nat.leb_le in Hlen. by rewrite Hlen.
Qed.

Lemma retrieveLoop_continues_below_threshold env c veg vLane rest allCandidates candidates :
  collectCandidatesMultiLane env c vLane CITY_CENTER_RADIUS_SWAP_M true veg = Ok candidates ->
  (length (allCandidates ++ candidates) < CANDIDATE_THRESHOLD)%nat ->
  retrieveLoop env c veg (vLane :: rest) allCandidates
  = retrieveLoop env c veg rest (allCandidates ++ candidates).
Proof.
  intros Hc Hlen. cbn [retrieveLoop]. rewrite Hc. unfold mbind, Result_bind.
  apply Nat.leb_gt in Hlen. by rewrite Hlen.
Qed.

(** C9 (code bug). Under the vibe "Productive" no lane of the primary vibe
    asks for "cozy cafe"; the text lane of its first fallback vibe does, and
    the cafe only that lane finds is returned on the shortlist. *)
Theorem fallback_candidate_on_shortlist :
  fallbackVibesForSwap "Productive" = ["Productive"; "Cozy"; "Social"] /\
  ("cozy cafe" ∉ (buildLaneQueries "Productive" false).1
                 ++ (buildLaneQueries "Productive" false).2) /\
  "cozy cafe" ∈ (buildLaneQueries "Cozy" false).2 /\
  collectCandidatesMultiLane Scenario.cozyLaneEnv BOSTON "Productive"
    CITY_CENTER_RADIUS_SWAP_M true false = Ok [] /\
  collectCandidatesMultiLane Scenario.cozyLaneEnv BOSTON "Cozy"
    CITY_CENTER_RADIUS_SWAP_M true false
  = Ok [{| c_placeId := "ChIJcafe"; c_name := "Thinking Cup";
           c_lat := lat BOSTON; c_lng := lng BOSTON |}] /\
  exists o o',
    POST (H := Sample.math) Scenario.cozyLaneEnv (Some (Scenario.request "Productive" [])) =
    RespPlan [o] None true (Some "Limited matches — try adjusting filters.") [o'] /\
    o_placeId o = Some "ChIJcafe" /\ o_category o = "Work Cafe".
Proof.
  split; [vm_compute; reflexivity |].
  split; [apply has_false; vm_compute; reflexivity |].
  split; [apply has_true; vm_compute; reflexivity |].
  split; [vm_compute; reflexivity |].
  split; [vm_compute; reflexivity |].
  do 2 eexists. split; [vm_compute; reflexivity |]. split; reflexivity.
Qed.

End FallbackVibes.

(** ** Diversity caps *)

Section Diversity.

Lemma Str_eqb_true (a b : string) : Str.eqb a b = true <-> a = b.
Proof. unfold Str.eqb. apply bool_decide_eq_true. Qed.

Lemma Str_eqb_false (a b : string) : Str.eqb a b = false <-> a <> b.
Proof. unfold Str.eqb. apply bool_decide_eq_false. Qed.

Lemma countKey_cons k o l : countKey k (o :: l) = (countKey k [o] + countKey k l)%nat.
Proof. unfold countKey. simpl. destruct (Str.eqb (catKey o) k); reflexivity. Qed.

Lemma countKey_app k l1 l2 : countKey k (l1 ++ l2) = (countKey k l1 + countKey k l2)%nat.
Proof. unfold countKey. by rewrite List.filter_app, length_app. Qed.

Lemma countKey_single k o :
  countKey k [o] = if Str.eqb (catKey o) k then 1%nat else 0%nat.
Proof. unfold countKey. simpl. destruct (Str.eqb (catKey o) k); reflexivity. Qed.


Lemma countKey_pos_elem k l :
  (1 <= countKey k l)%nat -> exists o, o ∈ l /\ catKey o = k.
Proof.
  induction l as [| o l IH]; [unfold countKey; simpl; lia |].
  rewrite countKey_cons, countKey_single.
  destruct (Str.eqb (catKey o) k) eqn:E.
  - intros _. exists o. split; [by left | by apply Str_eqb_true].
  - intros Hl. destruct IH as (o' & Ho' & Hk); [lia |]. exists o'. split; [by right | done].
Qed.

Lemma countKey_take k n l : (countKey k (take n l) <= countKey k l)%nat.
Proof.
  revert n. induction l as [| o l IH]; intros [| n]; simpl; try apply Nat.le_0_l.
  rewrite (countKey_cons k o (take n l)), (countKey_cons k o l). specialize (IH n). lia.
Qed.

Lemma countCategory_le_countKey c l :
  (countCategory c l <= countKey (if Str.truthy c then c else "Other") l)%nat.
Proof.
  unfold countCategory, countKey. induction l as [| o l IH]; simpl; [lia |].
  destruct (Str.eqb (o_category o) c) eqn:E.
  - apply Str_eqb_true in E. unfold catKey at 1. rewrite E.
    replace (Str.eqb _ _) with true by (symmetry; by apply Str_eqb_true).
    simpl. lia.
  - destruct (Str.eqb (catKey o) _); simpl; lia.
Qed.

Lemma countCategory_map (f : Option -> Option) c l :
  (forall o, o_category (f o) = o_category o) ->
  countCategory c (map f l) = countCategory c l.
Proof.
  intros Hf. unfold countCategory. induction l as [| o l IH]; simpl; [reflexivity |].
  rewrite Hf. destruct (Str.eqb (o_category o) c); simpl; congruence.
Qed.

(** Removing the chosen Option by its key removes it alone when the keys
    differ. *)
Lemma filter_keeps_other_keys (chosen : Option) (l : list Option) :
  selKey chosen ∉ map selKey l ->
  List.filter (fun o => negb (Str.eqb (selKey o) (selKey chosen))) l = l.
Proof.
  induction l as [| a l IH]; simpl; [reflexivity |].
  rewrite not_elem_of_cons. intros [Hne Hnin].
  replace (Str.eqb (selKey a) (selKey chosen)) with false
    by (symmetry; apply Str_eqb_false; congruence).
  simpl. by rewrite IH.
Qed.

Lemma countKey_remove_chosen k (chosen : Option) (l : list Option) :
  NoDup (map selKey l) -> chosen ∈ l ->
  (countKey k (List.filter (fun o => negb (Str.eqb (selKey o) (selKey chosen))) l)
   + countKey k [chosen] = countKey k l)%nat.
Proof.
  induction l as [| a l IH]; [intros _ Hc; by apply elem_of_nil in Hc |].
  simpl map. rewrite NoDup_cons, elem_of_cons. intros [Hnin Hnd] [-> | Hin].
  - simpl. replace (Str.eqb (selKey a) (selKey a)) with true
      by (symmetry; by apply Str_eqb_true).
    simpl. rewrite filter_keeps_other_keys by assumption.
    rewrite (countKey_cons k a l). lia.
  - simpl.
    assert (Hne : selKey a <> selKey chosen).
    { intros Heq. apply Hnin. rewrite Heq. by apply list_elem_of_fmap_2. }
    apply Str_eqb_false in Hne. rewrite Hne. simpl.
    rewrite (countKey_cons k a), (countKey_cons k a l). specialize (IH Hnd Hin). lia.
Qed.

Lemma NoDup_selKey_filter (f : Option -> bool) (l : list Option) :
  NoDup (map selKey l) -> NoDup (map selKey (List.filter f l)).
Proof.
  induction l as [| a l IH]; simpl; [done |].
  rewrite NoDup_cons. intros [Hnin Hnd]. destruct (f a); simpl; [| by apply IH].
  apply NoDup_cons. split; [| by apply IH].
  intros Hin. apply Hnin. apply list_elem_of_fmap in Hin as (o & Ho & Hin).
  apply elem_of_List_filter in Hin as [Hin _]. rewrite Ho. by apply list_elem_of_fmap_2.
Qed.

Lemma countOf_insert (cc : gmap string nat) k k' n :
  countOf (<[k := n]> cc) k' = if Str.eqb k k' then n else countOf cc k'.
Proof.
  unfold countOf, Str.eqb. case_bool_decide as E.
  - subst. by rewrite lookup_insert_eq.
  - by rewrite lookup_insert_ne.
Qed.

Lemma length_remove_chosen (chosen : Option) (l : list Option) :
  NoDup (map selKey l) -> chosen ∈ l ->
  S (length (List.filter (fun o => negb (Str.eqb (selKey o) (selKey chosen))) l)) = length l.
Proof.
  induction l as [| a l IH]; [intros _ Hc; by apply elem_of_nil in Hc |].
  simpl map. rewrite NoDup_cons, elem_of_cons. intros [Hnin Hnd] [-> | Hin].
  - simpl. replace (Str.eqb (selKey a) (selKey a)) with true
      by (symmetry; by apply Str_eqb_true).
    simpl. by rewrite filter_keeps_other_keys.
  - simpl.
    assert (Hne : selKey a <> selKey chosen).
    { intros Heq. apply Hnin. rewrite Heq. by apply list_elem_of_fmap_2. }
    apply Str_eqb_false in Hne. rewrite Hne. simpl. f_equal. by apply IH.
Qed.

Local Ltac by_keys k :=
  cbv beta;
  repeat match goal with
         | |- context [Str.eqb ?x k] => destruct (Str.eqb x k) eqn:?
         end;
  try reflexivity;
  exfalso;
  repeat match goal with
         | H : Str.eqb _ _ = true |- _ => apply Str_eqb_true in H
         | H : Str.eqb _ _ = false |- _ => apply Str_eqb_false in H
         end;
  congruence.

Lemma withinCapFrom_ext cc cc' l :
  (forall k, cc k = cc' k) -> withinCapFrom cc l = withinCapFrom cc' l.
Proof.
  revert cc cc'. induction l as [| a l IH]; intros cc cc' Hext; simpl; [reflexivity |].
  rewrite <- (Hext (catKey a)). destruct (cc (catKey a) <? 2)%nat.
  - apply (f_equal S). apply IH. intros k. by rewrite Hext.
  - by apply IH.
Qed.

Lemma withinCapFrom_pos cc l :
  (0 < withinCapFrom cc l)%nat -> exists o, o ∈ l /\ (cc (catKey o) < 2)%nat.
Proof.
  revert cc. induction l as [| a l IH]; intros cc; simpl; [lia |].
  destruct (Nat.ltb_spec (cc (catKey a)) 2) as [Hlt | Hge].
  - intros _. exists a. split; [by left | done].
  - intros Hpos. destruct (IH cc Hpos) as (o & Ho & Hlt). exists o. split; [by right | done].
Qed.

(** Taking out an Option whose key is at the cap changes nothing. *)
Lemma withinCapFrom_remove_full cc (chosen : Option) (l : list Option) :
  NoDup (map selKey l) -> chosen ∈ l -> (2 <= cc (catKey chosen))%nat ->
  withinCapFrom cc (List.filter (fun o => negb (Str.eqb (selKey o) (selKey chosen))) l)
  = withinCapFrom cc l.
Proof.
  revert cc. induction l as [| a l IH]; intros cc; [intros _ Hc; by apply elem_of_nil in Hc |].
  simpl map. rewrite NoDup_cons, elem_of_cons. intros [Hnin Hnd] [-> | Hin] Hfull.
  - cbn [List.filter]. replace (Str.eqb (selKey a) (selKey a)) with true
      by (symmetry; by apply Str_eqb_true).
    cbn [negb]. rewrite filter_keeps_other_keys by assumption.
    cbn [withinCapFrom]. destruct (Nat.ltb_spec (cc (catKey a)) 2); [lia | reflexivity].
  - assert (Hne : selKey a <> selKey chosen).
    { intros Heq. apply Hnin. rewrite Heq. by apply list_elem_of_fmap_2. }
    apply Str_eqb_false in Hne. cbn [List.filter]. rewrite Hne. cbn [negb withinCapFrom].
    destruct (cc (catKey a) <? 2)%nat; [apply (f_equal S) |]; apply IH; try assumption.
    destruct (Str.eqb (catKey a) (catKey chosen)); lia.
Qed.

(** Taking out an Option whose key has room and counting it takes one pick
    away. *)
Lemma withinCapFrom_remove cc (chosen : Option) (l : list Option) :
  NoDup (map selKey l) -> chosen ∈ l -> (cc (catKey chosen) < 2)%nat ->
  withinCapFrom cc l
  = S (withinCapFrom (fun k => if Str.eqb (catKey chosen) k then S (cc k) else cc k)
         (List.filter (fun o => negb (Str.eqb (selKey o) (selKey chosen))) l)).
Proof.
  revert cc. induction l as [| a l IH]; intros cc; [intros _ Hc; by apply elem_of_nil in Hc |].
  simpl map. rewrite NoDup_cons, elem_of_cons. intros [Hnin Hnd] [-> | Hin] Hroom.
  - cbn [List.filter]. replace (Str.eqb (selKey a) (selKey a)) with true
      by (symmetry; by apply Str_eqb_true).
    cbn [negb]. rewrite filter_keeps_other_keys by assumption.
    cbn [withinCapFrom]. destruct (Nat.ltb_spec (cc (catKey a)) 2); [reflexivity | lia].
  - assert (Hne : selKey a <> selKey chosen).
    { intros Heq. apply Hnin. rewrite Heq. by apply list_elem_of_fmap_2. }
    apply Str_eqb_false in Hne. cbn [List.filter]. rewrite Hne. cbn [negb withinCapFrom].
    destruct (Str.eqb (catKey chosen) (catKey a)) eqn:Hk.
    + apply Str_eqb_true in Hk. rewrite <- Hk.
      destruct (Nat.ltb_spec (cc (catKey chosen)) 2) as [_ | ?]; [| lia].
      destruct (Nat.ltb_spec (S (cc (catKey chosen))) 2) as [Hzero | Hone].
      * apply (f_equal S). rewrite (IH _ Hnd Hin).
        -- apply (f_equal S). apply withinCapFrom_ext. intros k. by_keys k.
        -- replace (Str.eqb (catKey chosen) (catKey chosen)) with true
             by (symmetry; by apply Str_eqb_true). lia.
      * apply (f_equal S). symmetry. apply withinCapFrom_remove_full; try assumption.
        replace (Str.eqb (catKey chosen) (catKey chosen)) with true
          by (symmetry; by apply Str_eqb_true). lia.
    + destruct (cc (catKey a) <? 2)%nat.
      * apply (f_equal S). rewrite (IH _ Hnd Hin).
        -- apply (f_equal S). apply withinCapFrom_ext. intros k. by_keys k.
        -- apply Str_eqb_false in Hk.
           replace (Str.eqb (catKey a) (catKey chosen)) with false
             by (symmetry; apply Str_eqb_false; congruence). done.
      * by apply IH.
Qed.

(** Counting one key more takes at most one pick away. *)
Lemma withinCapFrom_bump cc k0 l :
  (withinCapFrom cc l
   <= S (withinCapFrom (fun k => if Str.eqb k0 k then S (cc k) else cc k) l))%nat.
Proof.
  revert cc. induction l as [| a l IH]; intros cc; simpl; [lia |].
  destruct (Str.eqb k0 (catKey a)) eqn:Hk.
  - destruct (Nat.ltb_spec (cc (catKey a)) 2) as [Hlt | Hge].
    + destruct (Nat.ltb_spec (S (cc (catKey a))) 2) as [Hzero | Hone].
      * apply le_n_S. apply Str_eqb_true in Hk. subst k0.
        etransitivity; [apply (IH _) |]. apply le_n_S. apply Nat.eq_le_incl.
        apply withinCapFrom_ext. intros k. by_keys k.
      * apply le_n_S. apply Str_eqb_true in Hk. subst k0. apply Nat.eq_le_incl.
        apply withinCapFrom_ext. intros k. reflexivity.
    + destruct (Nat.ltb_spec (S (cc (catKey a))) 2); [lia | apply IH].
  - destruct (cc (catKey a) <? 2)%nat; [| apply IH].
    apply le_n_S. etransitivity; [apply (IH _) |]. apply le_n_S. apply Nat.eq_le_incl.
    apply withinCapFrom_ext. intros k. by_keys k.
Qed.

(** No more Options can be chosen within the cap than [withinCapFrom]
    counts. *)
Lemma capped_choice_le cc (l p : list Option) :
  NoDup (map selKey l) -> NoDup (map selKey p) ->
  (forall o, o ∈ p -> o ∈ l) ->
  (forall k, (cc k + countKey k p <= 2)%nat) ->
  (length p <= withinCapFrom cc l)%nat.
Proof.
  revert cc p. induction l as [| a l IH]; intros cc p Hndl Hndp Hsub Hcap.
  - destruct p as [| o p]; [simpl; lia |].
    specialize (Hsub o ltac:(by left)). by apply elem_of_nil in Hsub.
  - simpl in Hndl. apply NoDup_cons in Hndl as [Hnin Hndl].
    destruct (decide (selKey a ∈ map selKey p)) as [Hin | Hout].
    + apply list_elem_of_fmap in Hin as (o & Hkey & Hin).
      assert (o = a) as ->.
      { apply Hsub in Hin as Hl. apply elem_of_cons in Hl as [-> | Hl]; [done |].
        exfalso. apply Hnin. rewrite Hkey. by apply list_elem_of_fmap_2. }
      clear Hkey.
      set (p' := List.filter (fun o => negb (Str.eqb (selKey o) (selKey a))) p).
      pose proof (length_remove_chosen a p Hndp Hin) as Hlen. fold p' in Hlen.
      assert (Hroom : (cc (catKey a) < 2)%nat).
      { specialize (Hcap (catKey a)).
        pose proof (countKey_remove_chosen (catKey a) a p Hndp Hin) as Hc.
        rewrite countKey_single in Hc.
        replace (Str.eqb (catKey a) (catKey a)) with true in Hc
          by (symmetry; by apply Str_eqb_true). lia. }
      cbn [withinCapFrom]. destruct (Nat.ltb_spec (cc (catKey a)) 2); [| lia].
      rewrite <- Hlen. apply le_n_S. apply IH.
      * exact Hndl.
      * by apply NoDup_selKey_filter.
      * intros o Ho. apply elem_of_List_filter in Ho as [Ho Hk].
        apply negb_true_iff, Str_eqb_false in Hk.
        apply Hsub, elem_of_cons in Ho as [-> | Ho]; [done | exact Ho].
      * intros k. specialize (Hcap k).
        pose proof (countKey_remove_chosen k a p Hndp Hin) as Hc. fold p' in Hc.
        rewrite countKey_single in Hc.
        destruct (Str.eqb (catKey a) k); lia.
    + assert (Hsub' : forall o, o ∈ p -> o ∈ l).
      { intros o Ho. pose proof (Hsub o Ho) as Hl.
        apply elem_of_cons in Hl as [-> | Hl]; [| exact Hl].
        exfalso. apply Hout. by apply list_elem_of_fmap_2. }
      specialize (IH cc p Hndl Hndp Hsub' Hcap).
      cbn [withinCapFrom]. destruct (cc (catKey a) <? 2)%nat; [| exact IH].
      etransitivity; [exact IH |]. apply withinCapFrom_bump.
Qed.

Context `{M : JsMath}.

(** A non-empty list is never picked from in vain. *)
Lemma weightedPick_scan_Some (items : list Option) weights r :
  items <> [] -> length weights = length items ->
  is_Some (weightedPick_scan items weights r).
Proof.
  revert weights r. induction items as [| a l IH]; intros weights r Hne Hlen; [done |].
  destruct weights as [| w ws]; [discriminate |]. simpl.
  destruct (Qle_bool (r - w) 0); [by eexists |].
  destruct l as [| b l']; [by eexists |].
  apply IH; [done |]. simpl in *. lia.
Qed.

Lemma weightedPick_Some rand (items : list Option) :
  items <> [] -> is_Some (weightedPick rand items).
Proof.
  intros Hne. unfold weightedPick. destruct (Qle_bool _ 0).
  - destruct items; [done | by eexists].
  - apply weightedPick_scan_Some; [done |]. by rewrite length_map.
Qed.

Lemma length_swapLastIfUniform top30 picked :
  length (swapLastIfUniform top30 picked) = length picked.
Proof.
  unfold swapLastIfUniform.
  destruct picked as [| p0 [| p1 [| p2 [| p3 [| p4 [| p5 l]]]]]]; try reflexivity.
  destruct (forallb _ _); [| reflexivity].
  destruct (List.find _ top30); reflexivity.
Qed.

Lemma length_pickLoop rnd fuel calls picked remaining cc :
  NoDup (map selKey remaining) ->
  length (pickLoop rnd fuel calls picked remaining cc)
  = (length picked + Nat.min fuel (length remaining))%nat.
Proof.
  revert calls picked remaining cc.
  induction fuel as [| fuel IH]; intros calls picked remaining cc Hnd; simpl.
  - destruct remaining; simpl; lia.
  - destruct remaining as [| a rem]; [simpl; lia |].
    set (remaining := a :: rem) in *.
    set (candidatesNow := List.filter _ remaining).
    set (poolForPick := match candidatesNow with [] => _ | _ => _ end).
    assert (Hne : poolForPick <> []).
    { subst poolForPick. by destruct candidatesNow. }
    assert (Hsub : forall z, z ∈ poolForPick -> z ∈ remaining).
    { intros z. subst poolForPick.
      destruct candidatesNow as [| b l] eqn:Hc; [done |].
      rewrite <- Hc. subst candidatesNow. intros Hz.
      by apply elem_of_List_filter in Hz as [? _]. }
    destruct (weightedPick_Some (rnd calls) poolForPick Hne) as [chosen Hw].
    rewrite Hw. pose proof (weightedPick_elem _ _ _ Hw) as Hin. apply Hsub in Hin.
    rewrite IH by (by apply NoDup_selKey_filter).
    rewrite length_app. cbn [length].
    pose proof (length_remove_chosen chosen remaining Hnd Hin) as Hlen.
    change (length remaining) with (S (length rem)) in *.
    apply Nat.succ_inj in Hlen. rewrite Hlen. lia.
Qed.

Lemma pickLoop_NoDup rnd fuel calls picked remaining cc :
  NoDup picked -> (forall o, o ∈ picked -> o ∉ remaining) ->
  NoDup (pickLoop rnd fuel calls picked remaining cc).
Proof.
  revert calls picked remaining cc.
  induction fuel as [| fuel IH]; intros calls picked remaining cc Hnd Hdis; simpl.
  - by destruct remaining.
  - destruct remaining as [| a rem]; [done |].
    set (remaining := a :: rem) in *.
    set (candidatesNow := List.filter _ remaining).
    set (poolForPick := match candidatesNow with [] => _ | _ => _ end).
    assert (Hsub : forall z, z ∈ poolForPick -> z ∈ remaining).
    { intros z. subst poolForPick.
      destruct candidatesNow as [| b l] eqn:Hc; [done |].
      rewrite <- Hc. subst candidatesNow. intros Hz.
      by apply elem_of_List_filter in Hz as [? _]. }
    destruct (weightedPick (rnd calls) poolForPick) as [chosen |] eqn:Hw; [| done].
    apply weightedPick_elem, Hsub in Hw.
    apply IH.
    + apply NoDup_app. split; [done |]. split; [| apply NoDup_singleton].
      intros o Ho Hin. apply list_elem_of_singleton in Hin as ->. by apply (Hdis chosen).
    + intros o Ho Hin. apply elem_of_List_filter in Hin as [Hin Hk].
      apply elem_of_app in Ho as [Ho | Ho]; [by apply (Hdis o) |].
      apply list_elem_of_singleton in Ho as ->.
      apply negb_true_iff, Str_eqb_false in Hk. done.
Qed.

Lemma swapLastIfUniform_NoDup top30 picked :
  NoDup picked -> NoDup (swapLastIfUniform top30 picked).
Proof.
  intros Hnd. unfold swapLastIfUniform.
  destruct picked as [| p0 [| p1 [| p2 [| p3 [| p4 [| p5 l]]]]]]; try done.
  destruct (forallb _ _) eqn:Hall; [| done].
  destruct (List.find _ top30) as [alt |] eqn:Hf; [| done].
  apply find_some in Hf as [_ Hcat]. apply negb_true_iff, Str_eqb_false in Hcat.
  simpl in Hall. rewrite !andb_true_iff in Hall.
  destruct Hall as (_ & H1 & H2 & H3 & H4 & _).
  apply Str_eqb_true in H1, H2, H3, H4.
  rewrite !NoDup_cons in Hnd. rewrite !NoDup_cons.
  rewrite !not_elem_of_cons in Hnd. rewrite !not_elem_of_cons.
  destruct Hnd as ((? & ? & ? & ? & _) & (? & ? & ? & _) & (? & ? & _) & (? & _) & _).
  repeat split; try done; try apply not_elem_of_nil; try apply NoDup_nil_2;
    intros ->; congruence.
Qed.

(** The loop keeps every key at two picks or fewer as long as the picks it
    has left can be made within the cap. *)
Lemma pickLoop_within_cap rnd fuel calls picked remaining cc :
  (forall k, countOf cc k = countKey k picked) ->
  (forall k, (countKey k picked <= 2)%nat) ->
  NoDup (map selKey remaining) ->
  (Nat.min fuel (length remaining) <= withinCapFrom (countOf cc) remaining)%nat ->
  forall k, (countKey k (pickLoop rnd fuel calls picked remaining cc) <= 2)%nat.
Proof.
  revert calls picked remaining cc.
  induction fuel as [| fuel IH]; intros calls picked remaining cc Hcc Hcap Hnd Hroom k.
  - simpl. destruct remaining; apply Hcap.
  - destruct remaining as [| a rem]; [simpl; apply Hcap |].
    cbn [pickLoop]. set (remaining := a :: rem) in *.
    set (candidatesNow := List.filter _ remaining).
    assert (Hnow : exists o, o ∈ candidatesNow).
    { destruct (withinCapFrom_pos (countOf cc) remaining) as (o & Ho & Hlt).
      - change (length remaining) with (S (length rem)) in Hroom. lia.
      - exists o. apply elem_of_List_filter. split; [done | by apply Nat.ltb_lt]. }
    destruct candidatesNow as [| b l] eqn:Hcn;
      [destruct Hnow as (o & Ho); by apply elem_of_nil in Ho |].
    rewrite <- Hcn. clear Hnow.
    destruct (weightedPick (rnd calls) candidatesNow) as [chosen |] eqn:Hw; [| apply Hcap].
    apply weightedPick_elem in Hw. subst candidatesNow.
    apply elem_of_List_filter in Hw as [Hin Hlt]. apply Nat.ltb_lt in Hlt.
    apply IH.
    + intros k'. rewrite countOf_insert, countKey_app, countKey_single, !Hcc.
      destruct (Str.eqb (catKey chosen) k') eqn:E; [| lia].
      apply Str_eqb_true in E. subst k'. lia.
    + intros k'. rewrite countKey_app, countKey_single.
      destruct (Str.eqb (catKey chosen) k') eqn:E; [| specialize (Hcap k'); lia].
      apply Str_eqb_true in E. subst k'. rewrite Hcc in Hlt. lia.
    + by apply NoDup_selKey_filter.
    + pose proof (length_remove_chosen chosen remaining Hnd Hin) as Hlen.
      pose proof (withinCapFrom_remove (countOf cc) chosen remaining Hnd Hin Hlt) as Hrem.
      rewrite (withinCapFrom_ext _
                 (fun k => if Str.eqb (catKey chosen) k then S (countOf cc k) else countOf cc k)).
      * lia.
      * intros k'. rewrite countOf_insert.
        destruct (Str.eqb (catKey chosen) k') eqn:E; [| reflexivity].
        apply Str_eqb_true in E. by subst k'.
Qed.

Lemma POST_picked_selKeys rnd calls strict :
  NoDup (map selKey (take 30 strict)) -> NoDup (map selKey (POST_picked rnd calls strict)).
Proof.
  intros Hnd. apply NoDup_fmap_2_strong.
  - intros a b Ha Hb Heq.
    assert (Hin : forall o, o ∈ POST_picked rnd calls strict -> o ∈ take 30 strict).
    { intros o Ho. unfold POST_picked in Ho.
      apply elem_of_swapLastIfUniform in Ho as [Ho | Ho]; [| done].
      apply elem_of_pickLoop in Ho as [Ho | Ho]; [by apply elem_of_nil in Ho | done]. }
    apply Hin in Ha, Hb.
    apply list_elem_of_lookup in Ha as [i Hi]. apply list_elem_of_lookup in Hb as [j Hj].
    assert (i = j) as ->.
    { eapply NoDup_lookup; [exact Hnd | |]; rewrite list_lookup_fmap.
      - by rewrite Hi.
      - rewrite Hj. simpl. by rewrite Heq. }
    congruence.
  - unfold POST_picked. apply swapLastIfUniform_NoDup, pickLoop_NoDup; [constructor |].
    intros o Ho. by apply elem_of_nil in Ho.
Qed.

Lemma swapLastIfUniform_capped (top30 picked : list Option) :
  (forall k, (countKey k picked <= 2)%nat) -> swapLastIfUniform top30 picked = picked.
Proof.
  intros Hcap. unfold swapLastIfUniform.
  destruct picked as [| p0 [| p1 [| p2 [| p3 [| p4 [| p5 l]]]]]]; try reflexivity.
  destruct (forallb _ _) eqn:Hall; [| reflexivity].
  exfalso. simpl in Hall. rewrite !andb_true_iff, !Str_eqb_true in Hall.
  destruct Hall as (_ & H1 & H2 & H3 & H4 & _).
  specialize (Hcap (catKey p0)).
  assert (Hk : forall p, o_category p = o_category p0 -> catKey p = catKey p0).
  { intros p Hp. unfold catKey. by rewrite Hp. }
  rewrite !(countKey_cons _ _ (_ :: _)), !countKey_single in Hcap.
  rewrite (Hk _ H1), (Hk _ H2), (Hk _ H3), (Hk _ H4) in Hcap.
  replace (Str.eqb (catKey p0) (catKey p0)) with true in Hcap
    by (symmetry; by apply Str_eqb_true).
  lia.
Qed.

Lemma diversifyPool_loop_cap items n cc k :
  (countOf cc k <= n)%nat ->
  (countKey k (diversifyPool_loop items n cc) + countOf cc k <= n)%nat.
Proof.
  revert cc. induction items as [| it r IH]; intros cc Hle; simpl.
  - unfold countKey. simpl. lia.
  - fold (countOf cc (catKey it)).
    destruct (Nat.leb_spec n (countOf cc (catKey it))) as [Hfull | Hroom].
    + by apply IH.
    + rewrite countKey_cons, countKey_single.
      specialize (IH (<[catKey it := S (countOf cc (catKey it))]> cc)).
      rewrite countOf_insert in IH.
      destruct (Str.eqb (catKey it) k) eqn:E.
      * apply Str_eqb_true in E. subst k. specialize (IH ltac:(lia)). lia.
      * specialize (IH Hle). lia.
Qed.

Lemma POST_swapPool_caps seenSet swapFeasible :
  (length (POST_swapPool seenSet swapFeasible) <= MAX_POOL_RETURN)%nat /\
  forall c, (countCategory c (POST_swapPool seenSet swapFeasible) <= 6)%nat.
Proof.
  unfold POST_swapPool. split.
  - rewrite length_take. apply Nat.le_min_l.
  - intros c. etrans; [apply countCategory_le_countKey |].
    etrans; [apply countKey_take |]. unfold diversifyPool.
    match goal with |- (countKey ?k (diversifyPool_loop ?i 6 ∅) <= 6)%nat =>
      pose proof (diversifyPool_loop_cap i 6 ∅ k) as Hc end.
    assert (H0 : countOf ∅ (if Str.truthy c then c else "Other") = 0%nat)
      by (unfold countOf; by rewrite lookup_empty).
    rewrite H0 in Hc. specialize (Hc (Nat.le_0_l _)). by rewrite Nat.add_0_r in Hc.
Qed.

End Diversity.

Section DiversityCaps.

Lemma POST_select_swapPool `{M : JsMath} rnd x built picked swapPool dropped :
  POST_select rnd x built = (picked, swapPool, dropped) ->
  exists swapFeasible, swapPool = POST_swapPool (x_seenSet x) swapFeasible.
Proof.
  unfold POST_select.
  destruct (filterCounting (swapVerdict x) _ ∅) as [swapFeasible dropped1].
  destruct (filterCounting (strictVerdict x) _ dropped1) as [strict dropped2].
  intros [= <- <- <-]. by exists swapFeasible.
Qed.

(** C8, as stated, fails: of five strictly feasible Options of three
    categories, three of them cafes, the selector returns all five. *)
Lemma three_categories_three_cafes :
  Forall (fun o => strictVerdict (H := Sample.math) Scenario.cozyCtx o = None)
    Scenario.fiveFeasible /\
  remove_dups (map o_category Scenario.fiveFeasible) = ["Cafe"; "Dessert"; "Bookstore"] /\
  exists picked,
    POST_picked (H := Sample.math) Scenario.half 0 Scenario.fiveFeasible = picked /\
    map o_id picked = ["c3"; "c2"; "d1"; "b1"; "c1"] /\
    length picked = 5%nat /\
    countCategory "Cafe" picked = 3%nat.
Proof.
  split.
  - unfold Scenario.fiveFeasible.
    repeat (apply List.Forall_cons; [vm_compute; reflexivity |]). apply List.Forall_nil.
  - split; [vm_compute; reflexivity |].
    eexists. split; [vm_compute; reflexivity |].
    split; [reflexivity |]. split; vm_compute; reflexivity.
Qed.

(** C8, amended. The selector keeps every category at two or fewer on the
    shortlist exactly when that leaves it enough candidates: when, counting
    at most two Options of a category key, the first 30 strictly feasible
    Options (of distinct keys) number at least five, or all of them when
    they are fewer than five.  Otherwise it fills the shortlist beyond the
    cap, and some category appears more than 2 times.  No category appears
    more than 6 times in the returned swap pool, which has at most 60
    Options. *)
Theorem diversity_caps `{M : JsMath} :
  (forall rnd calls strict,
      NoDup (map selKey (take 30 strict)) ->
      (Nat.min 5 (length strict) <= withinCap (take 30 strict))%nat ->
      forall c, (countCategory c (POST_picked rnd calls strict) <= 2)%nat) /\
  (forall rnd calls strict,
      NoDup (map selKey (take 30 strict)) ->
      (withinCap (take 30 strict) < Nat.min 5 (length strict))%nat ->
      exists k, (2 < countKey k (POST_picked rnd calls strict))%nat) /\
  (forall env body options w lim reason pool,
      POST env body = RespPlan options w lim reason pool ->
      (length pool <= MAX_POOL_RETURN)%nat /\
      forall c, (countCategory c pool <= 6)%nat).
Proof.
  split; [| split].
  - intros rnd calls strict Hnd Hroom c. unfold POST_picked.
    assert (Hcap : forall k,
               (countKey k (pickLoop rnd 5 calls [] (take 30 strict) ∅) <= 2)%nat).
    { apply pickLoop_within_cap;
        [intros k; unfold countOf; by rewrite lookup_empty
        | intros k; cbn [countKey List.filter length]; lia
        | assumption |].
      rewrite (withinCapFrom_ext _ (fun _ => 0%nat))
        by (intros k; unfold countOf; by rewrite lookup_empty).
      fold (withinCap (take 30 strict)). rewrite length_take. lia. }
    rewrite swapLastIfUniform_capped by exact Hcap.
    etrans; [apply countCategory_le_countKey | apply Hcap].
  - intros rnd calls strict Hnd Hless.
    set (picked := POST_picked rnd calls strict).
    destruct (decide (Forall (fun o => (countKey (catKey o) picked <= 2)%nat) picked))
      as [Hall | Hnot]; subst picked.
    + exfalso.
      assert (Hlen : length (POST_picked rnd calls strict) = Nat.min 5 (length strict)).
      { unfold POST_picked. rewrite length_swapLastIfUniform, length_pickLoop by done.
        rewrite length_take. cbn [length]. lia. }
      assert (Hle : (length (POST_picked rnd calls strict) <= withinCap (take 30 strict))%nat).
      { apply capped_choice_le; [done | by apply POST_picked_selKeys | |].
        - intros o Ho. unfold POST_picked in Ho.
          apply elem_of_swapLastIfUniform in Ho as [Ho | Ho]; [| done].
          apply elem_of_pickLoop in Ho as [Ho | Ho]; [by apply elem_of_nil in Ho | done].
        - intros k. simpl.
          destruct (Nat.eq_dec (countKey k (POST_picked rnd calls strict)) 0%nat)
            as [-> | Hpos]; [lia |].
          destruct (countKey_pos_elem k (POST_picked rnd calls strict)) as (o & Ho & <-);
            [lia |].
          rewrite List.Forall_forall in Hall. apply Hall. by apply list_elem_of_In. }
      lia.
    + apply not_Forall_Exists in Hnot; [| intros o; apply _].
      apply List.Exists_exists in Hnot as (o & _ & Ho). exists (catKey o).
      unfold compose in Ho. lia.
  - intros env body options w lim reason pool HP.
    apply POST_RespPlan in HP as (b & -> & HP).
    apply POST_plan_stages in HP
      as (candidates & built & picked & swapPool & dropped & copyById &
          _ & _ & _ & _ & Hsel & _ & ->).
    apply POST_select_swapPool in Hsel as (swapFeasible & ->).
    destruct (POST_swapPool_caps (x_seenSet (requestCtx env b w)) swapFeasible) as [Hlen Hcat].
    split.
    + by rewrite !length_map.
    + intros c. rewrite !countCategory_map by reflexivity. apply Hcat.
Qed.

Lemma diversity_caps_witness :
  (countCategory "Cafe" (POST_picked (H := Sample.math) Scenario.half 0 twoTwoOne) <= 2)%nat /\
  (exists k, (2 < countKey k (POST_picked (H := Sample.math) Scenario.half 0
                                Scenario.fiveFeasible))%nat) /\
  (length (Scenario.pool_of
             (POST (H := Sample.math) Scenario.cafeEnv (Some (Scenario.request "Cozy" []))))
   <= 60)%nat.
Proof.
  destruct (diversity_caps (M := Sample.math)) as (Hshort & Hover & Hpool).
  split; [| split].
  - apply (Hshort Scenario.half 0%nat twoTwoOne).
    + apply (bool_decide_unpack _). vm_compute. exact I.
    + apply Nat.leb_le. vm_compute. reflexivity.
  - apply (Hover Scenario.half 0%nat Scenario.fiveFeasible).
    + apply (bool_decide_unpack _). vm_compute. exact I.
    + apply Nat.ltb_lt. vm_compute. reflexivity.
  - destruct cafe_plan as (o & o' & HP & _). rewrite HP. exact (proj1 (Hpool _ _ _ _ _ _ _ HP)).
Defined.

End DiversityCaps.

(** * Further properties *)

(** ** Strings *)

Section Strings.

Lemma truthy_app_cons (a : string) (c : ascii) (b : string) :
  Str.truthy (a +:+ String c b) = true.
Proof. destruct a; reflexivity. Qed.

End Strings.

(** ** Sorting *)

Section Sorting.

Context {A : Type} (cmp : A -> A -> Q) (R : A -> A -> Prop).
Hypothesis cmp_R : forall a b, Qle_bool (cmp a b) 0 = true <-> R a b.
Hypothesis R_total : forall a b, R a b \/ R b a.
Hypothesis R_trans : forall a b c, R a b -> R b c -> R a c.

Lemma insertBy_Permutation (x : A) (l : list A) : insertBy cmp x l ≡ₚ x :: l.
Proof.
  induction l as [| y l IH]; simpl; [reflexivity |].
  destruct (Qle_bool (cmp x y) 0); [reflexivity |].
  rewrite IH. apply Permutation_swap.
Qed.

Lemma sortBy_Permutation (l : list A) : sortBy cmp l ≡ₚ l.
Proof.
  unfold sortBy. induction l as [| y l IH]; simpl; [reflexivity |].
  rewrite insertBy_Permutation. by rewrite IH.
Qed.

Lemma insertBy_sorted (x : A) (l : list A) :
  StronglySorted R l -> StronglySorted R (insertBy cmp x l).
Proof.
  induction l as [| y l IH]; intros Hs; simpl.
  - constructor; [constructor | constructor].
  - apply StronglySorted_inv in Hs as [Hs Hall].
    destruct (Qle_bool (cmp x y) 0) eqn:Hc.
    + apply cmp_R in Hc.
      constructor; [by constructor |]. constructor; [exact Hc |].
      eapply List.Forall_impl; [| exact Hall]. intros b Hb. simpl in Hb.
      by apply R_trans with y.
    + assert (Hyx : R y x).
      { destruct (R_total x y) as [Hxy | Hyx]; [| exact Hyx].
        apply cmp_R in Hxy. congruence. }
      constructor; [by apply IH |].
      apply List.Forall_forall. intros b Hb. apply list_elem_of_In in Hb.
      apply elem_of_insertBy in Hb as [-> | Hb]; [exact Hyx |].
      rewrite List.Forall_forall in Hall. apply Hall. by apply list_elem_of_In.
Qed.

Lemma sortBy_sorted (l : list A) : StronglySorted R (sortBy cmp l).
Proof.
  unfold sortBy. induction l as [| y l IH]; simpl; [constructor |].
  by apply insertBy_sorted.
Qed.

(** The sort is stable: a sorted list stays as it is. *)
Lemma sortBy_of_sorted (l : list A) : StronglySorted R l -> sortBy cmp l = l.
Proof.
  unfold sortBy. induction l as [| y l IH]; intros Hs; simpl; [reflexivity |].
  apply StronglySorted_inv in Hs as [Hs Hall]. rewrite IH by done.
  destruct l as [| z l]; [reflexivity |]. simpl.
  apply List.Forall_inv in Hall. apply cmp_R in Hall. by rewrite Hall.
Qed.

Lemma StronglySorted_app_le (l1 l2 : list A) a b :
  StronglySorted R (l1 ++ l2) -> a ∈ l1 -> b ∈ l2 -> R a b.
Proof.
  induction l1 as [| x l1 IH]; simpl; intros Hs Ha Hb.
  - by apply elem_of_nil in Ha.
  - apply StronglySorted_inv in Hs as [Hs Hall].
    apply elem_of_cons in Ha as [-> | Ha]; [| by apply IH].
    rewrite List.Forall_forall in Hall. apply Hall. apply list_elem_of_In.
    apply elem_of_app. by right.
Qed.

Lemma StronglySorted_take (n : nat) (l : list A) :
  StronglySorted R l -> StronglySorted R (take n l).
Proof.
  revert n. induction l as [| y l IH]; intros n Hs; [by rewrite take_nil |].
  destruct n as [| n]; [constructor |]. simpl.
  apply StronglySorted_inv in Hs as [Hs Hall]. constructor; [by apply IH |].
  apply List.Forall_forall. intros b Hb. rewrite List.Forall_forall in Hall.
  apply Hall. apply list_elem_of_In. apply list_elem_of_In in Hb. by apply subseteq_take in Hb.
Qed.

End Sorting.

(** ** Closing labels and closing instants *)

Section ClosingTime.

Lemma roundTripBelow_day : roundTripBelow 1440 = true.
Proof. vm_compute. reflexivity. Qed.

Lemma roundTripBelow_minute (n m : nat) :
  roundTripBelow n = true -> (m < n)%nat ->
  parseClosingTimeToMinutes (Some (formatMinutesToLabel (Z.of_nat m))) = Some (Z.of_nat m).
Proof.
  unfold roundTripBelow. rewrite forallb_forall. intros Hall Hm.
  apply (bool_decide_eq_true _), (Hall m), in_seq. lia.
Qed.

(** X1. The label [formatMinutesToLabel] writes for a minute of the day is
    read back by [parseClosingTimeToMinutes] as that minute. *)
Theorem label_round_trip (m : Z) :
  0 <= m < 1440 ->
  parseClosingTimeToMinutes (Some (formatMinutesToLabel m)) = Some m.
Proof.
  intros Hm.
  pose proof (roundTripBelow_minute 1440 (Z.to_nat m) roundTripBelow_day) as Hall.
  rewrite Z2Nat.id in Hall by lia.
  apply Hall. lia.
Qed.

Lemma label_round_trip_witness :
  parseClosingTimeToMinutes (Some (formatMinutesToLabel 1350)) = Some 1350.
Proof. apply label_round_trip. lia. Defined.

Lemma digit_range c d : digit c = Some d -> 0 <= d <= 9.
Proof.
  unfold digit.
  destruct (48 <=? nat_of_ascii c)%nat eqn:Hlo; simpl; [| discriminate].
  destruct (nat_of_ascii c <=? 57)%nat eqn:Hhi; [| discriminate].
  apply Nat.leb_le in Hlo, Hhi. intros [= <-]. lia.
Qed.

Lemma matchClosingTime_range s h mi ap :
  matchClosingTime s = Some (h, mi, ap) -> 0 <= h <= 99 /\ 0 <= mi <= 99.
Proof.
  unfold matchClosingTime.
  destruct (list_ascii_of_string s) as [| c1 [| c2 [| c3 [| c4 [| c5 [| c6 [| c7 [| c8 [| c9 l]]]]]]]]];
    try discriminate.
  - destruct (digit c1) as [d1 |] eqn:H1; simpl; [| discriminate].
    destruct (digit c3) as [d3 |] eqn:H3; simpl; [| discriminate].
    destruct (digit c4) as [d4 |] eqn:H4; simpl; [| discriminate].
    destruct (ampmOf c6 c7); simpl; [| discriminate].
    destruct (_ && _); [| discriminate]. intros [= <- <- <-].
    apply digit_range in H1, H3, H4. lia.
  - destruct (digit c1) as [d1 |] eqn:H1; simpl; [| discriminate].
    destruct (digit c2) as [d2 |] eqn:H2; simpl; [| discriminate].
    destruct (digit c4) as [d4 |] eqn:H4; simpl; [| discriminate].
    destruct (digit c5) as [d5 |] eqn:H5; simpl; [| discriminate].
    destruct (ampmOf c7 c8); simpl; [| discriminate].
    destruct (_ && _); [| discriminate]. intros [= <- <- <-].
    apply digit_range in H1, H2, H4, H5. lia.
Qed.

Lemma parseClosingTimeToMinutes_nonneg s c :
  parseClosingTimeToMinutes s = Some c -> 0 <= c.
Proof.
  unfold parseClosingTimeToMinutes. destruct s as [s |]; [| discriminate].
  destruct (negb (Str.truthy s)); [discriminate |].
  destruct (matchClosingTime s) as [[[h mi] ap] |] eqn:Hm; [| discriminate].
  apply matchClosingTime_range in Hm. intros [= <-].
  destruct (Str.eqb ap "PM" && negb (h =? 12)).
  - destruct (Str.eqb ap "AM" && (h + 12 =? 12)); lia.
  - destruct (Str.eqb ap "AM" && (h =? 12)); lia.
Qed.

Lemma minutesSinceMidnight_range d : 0 <= minutesSinceMidnight d < 1440.
Proof. unfold minutesSinceMidnight. apply Z.mod_pos_bound. lia. Qed.

(** X2. The remaining minutes [minutesUntilClose] reports are never
    negative, whichever of the closing instant and the closing label it
    reads.  With a closing instant, one in the past gives 0 and one ahead
    gives the whole minutes until it.  With a label alone, the label is read
    as a minute of the day: one that is still to come today gives the
    minutes until it, and an earlier one is taken to be of the next day, the
    minutes until midnight and the minute of the label added up; for a
    label below 24 hours the result is below 24 hours and leads from the
    current minute of the day to the minute of the label. *)
Theorem minutesUntilClose_nonneg now cityNow closingTime :
  (forall closeTs m,
      minutesUntilClose now cityNow closingTime closeTs = Some m -> 0 <= m) /\
  (forall ts, ts <= now ->
      minutesUntilClose now cityNow closingTime (Some ts) = Some 0) /\
  (forall ts, now < ts ->
      exists m, minutesUntilClose now cityNow closingTime (Some ts) = Some m /\
                m * 60000 <= ts - now < (m + 1) * 60000) /\
  (forall c, parseClosingTimeToMinutes closingTime = Some c ->
      exists m, minutesUntilClose now cityNow closingTime None = Some m /\
                (minutesSinceMidnight cityNow <= c -> m = c - minutesSinceMidnight cityNow) /\
                (c < minutesSinceMidnight cityNow ->
                 m = (1440 - minutesSinceMidnight cityNow) + c) /\
                (c < 1440 -> m < 1440 /\ (minutesSinceMidnight cityNow + m) mod 1440 = c)).
Proof.
  pose proof (minutesSinceMidnight_range cityNow) as Hnow.
  split; [| split; [| split]].
  - intros closeTs m. unfold minutesUntilClose. destruct closeTs as [ts |].
    + intros [= <-]. destruct (Z.ltb_spec 0 (ts - now)); [| lia].
      apply Z.div_pos; lia.
    + destruct (parseClosingTimeToMinutes closingTime) as [c |] eqn:Hp; [| discriminate].
      apply parseClosingTimeToMinutes_nonneg in Hp.
      intros [= <-]. destruct (Z.leb_spec (minutesSinceMidnight cityNow) c); lia.
  - intros ts Hpast. unfold minutesUntilClose.
    destruct (Z.ltb_spec 0 (ts - now)); [lia | reflexivity].
  - intros ts Hahead. unfold minutesUntilClose.
    destruct (Z.ltb_spec 0 (ts - now)); [| lia].
    eexists. split; [reflexivity |].
    pose proof (Z.div_mod (ts - now) 60000 ltac:(lia)).
    pose proof (Z.mod_pos_bound (ts - now) 60000 ltac:(lia)). lia.
  - intros c Hp. unfold minutesUntilClose. rewrite Hp.
    apply parseClosingTimeToMinutes_nonneg in Hp.
    eexists. split; [reflexivity |].
    destruct (Z.leb_spec (minutesSinceMidnight cityNow) c) as [Hle | Hlt].
    + split; [reflexivity |]. split; [lia |]. intros Hday. split; [lia |].
      replace (minutesSinceMidnight cityNow + (c - minutesSinceMidnight cityNow)) with c by lia.
      apply Z.mod_small. lia.
    + split; [lia |]. split; [intros _; lia |]. intros Hday. split; [lia |].
      replace (minutesSinceMidnight cityNow + (24 * 60 - minutesSinceMidnight cityNow + c))
        with (c + 1 * 1440) by lia.
      rewrite Z.mod_add by lia. apply Z.mod_small. lia.
Qed.

Lemma minutesUntilClose_nonneg_witness :
  minutesUntilClose 1793633600000 1793633600000 (Some "1:15 AM") (Some 1793633000000) = Some 0 /\
  (exists m, minutesUntilClose 1793633600000 1793633600000 (Some "1:15 AM")
               (Some 1793640000000) = Some m /\
             m * 60000 <= 1793640000000 - 1793633600000 < (m + 1) * 60000) /\
  (exists m, minutesUntilClose 1793633600000 1793633600000 (Some "1:15 AM") None = Some m /\
             m = (1440 - 933) + 75).
Proof.
  destruct (minutesUntilClose_nonneg 1793633600000 1793633600000 (Some "1:15 AM"))
    as (_ & Hpast & Hahead & Hlabel).
  split; [apply Hpast; lia |]. split; [apply Hahead; lia |].
  destruct (Hlabel 75 ltac:(reflexivity)) as (m & Hm & _ & Hnext & _).
  exists m. split; [exact Hm |]. apply Hnext. vm_compute. reflexivity.
Defined.

Lemma foldl_betterClose_None nowW periods best :
  foldl (betterClose nowW) best periods = None ->
  best = None /\ forall p, p ∈ periods -> periodMinsLeft nowW p = None.
Proof.
  revert best. induction periods as [| p l IH]; intros best; simpl.
  - intros ->. split; [done |]. intros p Hp. by apply elem_of_nil in Hp.
  - intros Hf. apply IH in Hf as [Hb Hall]. unfold betterClose in Hb.
    destruct (periodMinsLeft nowW p) as [m |] eqn:Hp.
    + destruct best as [b |]; [destruct (m <? b) |]; discriminate.
    + split; [done |]. intros p' Hin. apply elem_of_cons in Hin as [-> | Hin]; auto.
Qed.

Lemma foldl_betterClose_Some nowW periods best m :
  foldl (betterClose nowW) best periods = Some m ->
  (best = Some m \/ exists p, p ∈ periods /\ periodMinsLeft nowW p = Some m) /\
  (forall b, best = Some b -> m <= b) /\
  (forall p m', p ∈ periods -> periodMinsLeft nowW p = Some m' -> m <= m').
Proof.
  revert best. induction periods as [| p l IH]; intros best; simpl.
  - intros ->. split; [by left |]. split; [by intros b [= ->] |].
    intros p m' Hp. by apply elem_of_nil in Hp.
  - intros Hf. apply IH in Hf as (Hsrc & Hle & Hall).
    unfold betterClose in Hsrc, Hle.
    destruct (periodMinsLeft nowW p) as [mp |] eqn:Hp.
    + assert (Hmp : m <= mp /\ forall b, best = Some b -> m <= b).
      { destruct best as [b |].
        - destruct (Z.ltb_spec mp b).
          + specialize (Hle mp eq_refl). split; [lia |]. intros b' [= <-]. lia.
          + specialize (Hle b eq_refl). split; [lia |]. intros b' [= <-]. lia.
        - specialize (Hle mp eq_refl). split; [lia | discriminate]. }
      destruct Hmp as [Hmp Hbest]. split; [| split; [exact Hbest |]].
      * destruct Hsrc as [Hsrc | (p' & Hin & Hp')].
        -- destruct best as [b |].
           ++ destruct (mp <? b).
              ** right. exists p. split; [by left | congruence].
              ** by left.
           ++ right. exists p. split; [by left | congruence].
        -- right. exists p'. split; [by right | done].
      * intros p' m' Hin Hp'. apply elem_of_cons in Hin as [-> | Hin].
        -- assert (m' = mp) by congruence. lia.
        -- by eapply Hall.
    + split; [| split; [exact Hle |]].
      * destruct Hsrc as [Hsrc | (p' & Hin & Hp')]; [by left |].
        right. exists p'. split; [by right | done].
      * intros p' m' Hin Hp'. apply elem_of_cons in Hin as [-> | Hin].
        -- congruence.
        -- by eapply Hall.
Qed.

Lemma periodMinsLeft_pos nowW p m : periodMinsLeft nowW p = Some m -> 0 < m.
Proof.
  unfold periodMinsLeft.
  destruct (p_openDay p), (p_openTime p), (p_closeDay p), (p_closeTime p); try discriminate.
  destruct (parseHHMM _); [| discriminate]. destruct (parseHHMM _); [| discriminate].
  cbv zeta. destruct (negb _ && negb _); [discriminate |].
  match goal with |- context [if ?x <=? 0 then _ else _] => destruct (Z.leb_spec x 0) end;
    [discriminate |].
  intros [= <-]. assumption.
Qed.

Lemma getActivePeriodClose_Some now periods tz label closeTs :
  getActivePeriodClose now periods tz = Some (label, closeTs) ->
  exists m,
    foldl (betterClose (weekMinute now tz)) None periods = Some m /\
    label = formatMinutesToLabel (Z.rem (minutesSinceMidnight (now + tz * 1000) + m) 1440) /\
    closeTs = now + m * 60000.
Proof.
  unfold getActivePeriodClose, weekMinute. destruct periods as [| p l]; [discriminate |].
  destruct (foldl _ None (p :: l)) as [m |]; [| discriminate].
  intros [= <- <-]. exists m. done.
Qed.

Lemma getActivePeriodClose_minutes now periods tz label closeTs :
  getActivePeriodClose now periods tz = Some (label, closeTs) ->
  exists m,
    0 < m /\ closeTs = now + m * 60000 /\
    label = formatMinutesToLabel (Z.rem (minutesSinceMidnight (now + tz * 1000) + m) 1440) /\
    minutesUntilClose now (now + tz * 1000) (Some label) (Some closeTs) = Some m.
Proof.
  intros Hg. apply getActivePeriodClose_Some in Hg as (m & Hf & -> & ->).
  apply foldl_betterClose_Some in Hf as ([Hb | (p & Hin & Hp)] & _ & Hall); [discriminate |].
  pose proof (periodMinsLeft_pos _ _ _ Hp) as Hpos.
  exists m. repeat split; try done.
  unfold minutesUntilClose. f_equal.
  replace (now + m * 60000 - now) with (m * 60000) by lia.
  destruct (Z.ltb_spec 0 (m * 60000)); [| lia].
  apply Z.div_mul. lia.
Qed.

(** X3. The closing instant [getActivePeriodClose] reports is that of the
    period, among those that hold the current minute of the week of the
    city, that closes first: it lies a positive whole number of minutes
    ahead, and [minutesUntilClose] reads these minutes back from it. *)
Theorem active_period_closes_first now periods tz label closeTs :
  getActivePeriodClose now periods tz = Some (label, closeTs) ->
  exists p m,
    p ∈ periods /\ periodMinsLeft (weekMinute now tz) p = Some m /\
    (forall p' m', p' ∈ periods -> periodMinsLeft (weekMinute now tz) p' = Some m' -> m <= m') /\
    0 < m /\ closeTs = now + m * 60000 /\
    minutesUntilClose now (now + tz * 1000) (Some label) (Some closeTs) = Some m.
Proof.
  intros Hg. apply getActivePeriodClose_Some in Hg as (m & Hf & -> & ->).
  apply foldl_betterClose_Some in Hf as ([Hb | (p & Hin & Hp)] & _ & Hall); [discriminate |].
  pose proof (periodMinsLeft_pos _ _ _ Hp) as Hpos.
  exists p, m. repeat split; try assumption.
  unfold minutesUntilClose. f_equal.
  replace (now + m * 60000 - now) with (m * 60000) by lia.
  destruct (Z.ltb_spec 0 (m * 60000)); [| lia].
  apply Z.div_mul. lia.
Qed.

Lemma active_period_closes_first_witness :
  exists p m,
    p ∈ [monday9to17] /\ periodMinsLeft (weekMinute 1793620800000 0) p = Some m /\
    0 < m /\
    minutesUntilClose 1793620800000 1793620800000 (Some "5:00 PM")
      (Some (1793620800000 + m * 60000)) = Some m.
Proof.
  destruct (active_period_closes_first 1793620800000 [monday9to17] 0 "5:00 PM"
              (1793620800000 + 300 * 60000))
    as (p & m & Hin & Hp & _ & Hpos & Hts & Hm); [vm_compute; reflexivity |].
  exists p, m. split; [exact Hin |]. split; [exact Hp |]. split; [exact Hpos |].
  assert (Hm' : m = 300) by lia. rewrite Hm'. rewrite Hm' in Hm. exact Hm.
Defined.

(** X4. The closing label of [getActivePeriodClose] is the time of day of
    its closing instant on the clock of the city; when the place closes
    within 24 hours, the label alone gives [minutesUntilClose] the same
    remaining minutes as the instant. *)
Theorem closing_label_matches_instant now periods tz label closeTs :
  getActivePeriodClose now periods tz = Some (label, closeTs) ->
  parseClosingTimeToMinutes (Some label) = Some (minutesSinceMidnight (closeTs + tz * 1000)) /\
  (closeTs - now < 1440 * 60000 ->
   minutesUntilClose now (now + tz * 1000) (Some label) None =
   minutesUntilClose now (now + tz * 1000) (Some label) (Some closeTs)).
Proof.
  intros Hg. apply getActivePeriodClose_minutes in Hg as (m & Hpos & -> & -> & Hm).
  pose proof (minutesSinceMidnight_range (now + tz * 1000)) as Hnow.
  set (nowMin := minutesSinceMidnight (now + tz * 1000)) in *.
  assert (Hclose : minutesSinceMidnight (now + m * 60000 + tz * 1000) = (nowMin + m) mod 1440).
  { unfold nowMin, minutesSinceMidnight.
    replace (now + m * 60000 + tz * 1000) with (now + tz * 1000 + m * 60000) by lia.
    rewrite Z.div_add by lia. rewrite Z.add_mod_idemp_l by lia. reflexivity. }
  assert (Hrem : Z.rem (nowMin + m) 1440 = (nowMin + m) mod 1440)
    by (apply Z.rem_mod_nonneg; lia).
  rewrite Hrem in *.
  assert (Hrange : 0 <= (nowMin + m) mod 1440 < 1440) by (apply Z.mod_pos_bound; lia).
  assert (Hparse : parseClosingTimeToMinutes
                     (Some (formatMinutesToLabel ((nowMin + m) mod 1440)))
                   = Some ((nowMin + m) mod 1440)).
  { pose proof (roundTripBelow_minute 1440 (Z.to_nat ((nowMin + m) mod 1440))
                  roundTripBelow_day) as Hall.
    rewrite Z2Nat.id in Hall by lia. apply Hall. lia. }
  split; [by rewrite Hclose |].
  intros Hday. rewrite Hm. unfold minutesUntilClose. rewrite Hparse. fold nowMin. f_equal.
  assert (Hm1440 : m < 1440) by lia.
  destruct (Z.lt_ge_cases (nowMin + m) 1440) as [Hlt | Hge].
  - rewrite Z.mod_small by lia.
    destruct (Z.leb_spec nowMin (nowMin + m)); lia.
  - assert (Hmod : (nowMin + m) mod 1440 = nowMin + m - 1440).
    { symmetry. apply Z.mod_unique_pos with (q := 1); lia. }
    rewrite Hmod. destruct (Z.leb_spec nowMin (nowMin + m - 1440)); lia.
Qed.

Lemma closing_label_matches_instant_witness :
  parseClosingTimeToMinutes (Some "5:00 PM") = Some (minutesSinceMidnight 1793638800000) /\
  minutesUntilClose 1793620800000 1793620800000 (Some "5:00 PM") None = Some 300.
Proof.
  destruct (closing_label_matches_instant 1793620800000 [monday9to17] 0 "5:00 PM"
              (1793620800000 + 300 * 60000)) as [Hl Hm]; [vm_compute; reflexivity |].
  split; [exact Hl |]. etransitivity; [apply Hm; lia | reflexivity].
Defined.

End ClosingTime.

(** ** The details of a place *)

Section Details.

Lemma formatMinutesToLabel_truthy m : Str.truthy (formatMinutesToLabel m) = true.
Proof. unfold formatMinutesToLabel. apply truthy_app_cons. Qed.

(** What [detailsPayload] makes of the hours of the reply. *)
Lemma detailsPayload_closing now tz r d :
  detailsPayload now tz r = Some d ->
  (d_closingTime d = None /\ d_closeTs d = None) \/
  (exists periods label ts,
     d_openNow d = Some true /\
     getActivePeriodClose now periods tz = Some (label, ts) /\
     (exists hours, rd_opening_hours r = Some hours /\ rh_periods hours = Some periods) /\
     d_closingTime d = Some label /\ d_closeTs d = Some ts).
Proof.
  unfold detailsPayload. destruct (negb _ || negb _); [discriminate |].
  intros [= <-]. cbn [d_closingTime d_closeTs d_openNow].
  case_bool_decide as Hopen; simpl; [| by left].
  case_bool_decide as Hper; simpl; [by left |].
  destruct (getActivePeriodClose now _ tz) as [[label ts] |] eqn:Hg; simpl; [| by left].
  right. exists (default [] (rd_opening_hours r ≫= rh_periods)), label, ts.
  repeat split; try done.
  destruct (rd_opening_hours r) as [hours |]; simpl in *; [| done].
  exists hours. split; [done |]. by destruct (rh_periods hours).
Qed.

(** X5. In the details [fetchPlaceDetailsById] builds from a reply of the
    provider, the closing label and the closing instant are known together
    or not at all; they are known only for a place reported open now, the
    instant lies in the future, and the Option built from these details
    says "Open now • Closes at" with that label. *)
Theorem details_closing_is_consistent now tz r d :
  detailsPayload now tz r = Some d ->
  (d_closingTime d = None <-> d_closeTs d = None) /\
  (forall ts, d_closeTs d = Some ts ->
     d_openNow d = Some true /\ now < ts /\
     exists label,
       d_closingTime d = Some label /\
       forall vibe allowed c o,
         buildOption vibe allowed c d = Some o ->
         o_openStatus o = "Open now • Closes at " +:+ label /\
         o_closingTime o = Some label /\ o_closeTs o = Some ts).
Proof.
  intros Hd. destruct (detailsPayload_closing _ _ _ _ Hd)
    as [[Hl Ht] | (periods & label & ts & Hopen & Hg & _ & Hl & Ht)].
  - rewrite Hl, Ht. split; [done |]. discriminate.
  - rewrite Hl, Ht. split; [split; discriminate |].
    intros ts' [= <-]. split; [exact Hopen |].
    pose proof (getActivePeriodClose_minutes _ _ _ _ _ Hg) as (m & Hpos & Hts & _).
    split; [lia |]. exists label. split; [done |].
    intros vibe allowed c o. unfold buildOption.
    case_bool_decide; [discriminate |]. case_bool_decide; [discriminate |].
    destruct (negb (has allowed _)); [discriminate |].
    intros [= <-]. cbn [o_openStatus o_closingTime o_closeTs].
    rewrite Hopen, Hl, Ht. rewrite bool_decide_eq_true_2 by done. simpl default.
    apply getActivePeriodClose_Some in Hg as (m' & _ & -> & _).
    unfold truthyStr. rewrite formatMinutesToLabel_truthy. done.
Qed.

Lemma details_closing_is_consistent_witness :
  exists d, detailsPayload 1793620800000 0 openMonday = Some d /\
            d_closeTs d = Some 1793638800000 /\ d_openNow d = Some true.
Proof.
  eexists. split; [vm_compute; reflexivity |]. split; [reflexivity |].
  eapply (details_closing_is_consistent 1793620800000 0 openMonday);
    [vm_compute; reflexivity | reflexivity].
Defined.

Lemma periodMinsLeft_no_close nowW p :
  p_closeDay p = None \/ p_closeTime p = None -> periodMinsLeft nowW p = None.
Proof.
  unfold periodMinsLeft. intros [-> | ->];
    destruct (p_openDay p), (p_openTime p); try reflexivity;
    destruct (p_closeDay p); reflexivity.
Qed.

(** X6. A place whose opening periods carry no closing entry (the provider
    reports places open around the clock so) gets neither a closing label
    nor a closing instant.  The Option built from it is dropped from the
    strict candidates of every request, without a rejection reason being
    counted, so it is never on the shortlist; the relaxed profile of the
    swap pool accepts it for the vibe it was built for when it is within the
    swap distance of the center. *)
Theorem open_around_the_clock_is_not_shortlisted `{M : JsMath}
    now tz r d vibe allowed c o :
  detailsPayload now tz r = Some d ->
  (forall hours periods p,
      rd_opening_hours r = Some hours -> rh_periods hours = Some periods -> p ∈ periods ->
      p_closeDay p = None \/ p_closeTime p = None) ->
  buildOption vibe allowed c d = Some o ->
  o_closingTime o = None /\ o_closeTs o = None /\
  (forall x : Ctx, strictVerdict x o = Some None) /\
  (forall x : Ctx,
      x_allowed x = allowed ->
      (distanceOf o (relaxedOf x) <= MAX_DIST_KM_SWAP)%Q ->
      swapVerdict x o = None).
Proof.
  intros Hd Hper Hbo.
  assert (Hnone : d_closingTime d = None /\ d_closeTs d = None).
  { destruct (detailsPayload_closing _ _ _ _ Hd)
      as [Hn | (periods & label & ts & _ & Hg & (hours & Hh & Hp) & _)]; [exact Hn |].
    apply getActivePeriodClose_Some in Hg as (m & Hf & _).
    apply foldl_betterClose_Some in Hf as ([Hb | (p & Hin & Hpm)] & _); [discriminate |].
    rewrite periodMinsLeft_no_close in Hpm; [discriminate |]. by eapply Hper. }
  destruct Hnone as [Hl Ht].
  pose proof (buildOption_fields _ _ _ _ _ Hbo) as (_ & Hcat & _ & _ & Hlo & Hto & _).
  pose proof (buildOption_openStatus _ _ _ _ _ Hbo) as Hst.
  rewrite Hl in Hlo. rewrite Ht in Hto.
  split; [exact Hlo |]. split; [exact Hto |]. split.
  - intros x. unfold strictVerdict, hasClose. rewrite Hlo, Hto. simpl.
    by destruct (negb _).
  - intros x Hx Hdist. unfold swapVerdict.
    rewrite hardReject_near.
    + unfold remainingOf, minutesUntilClose. rewrite Hlo, Hto. reflexivity.
    + unfold categoryAllowed. simpl. by rewrite Hx.
    + unfold reportsClosed.
      destruct Hst as [-> | [-> | (label & Hlabel & _)]];
        [vm_compute; discriminate | vm_compute; discriminate | congruence].
    + exact Hdist.
Qed.

Lemma open_around_the_clock_is_not_shortlisted_witness :
  exists d o o',
    detailsPayload Scenario.t0 0 alwaysOpen = Some d /\
    buildOption "Social" SOCIAL_ALLOWED BOSTON d = Some o /\
    o_openStatus o = "Open now" /\
    strictVerdict (H := Sample.math) socialCtx o = Some None /\
    swapVerdict (H := Sample.math) socialCtx o = None /\
    POST (H := Sample.math) dinerEnv (Some (Scenario.request "Social" [])) =
    RespPlan [] None true (Some "Limited matches — try adjusting filters.") [o'] /\
    sameVenue o o'.
Proof.
  do 3 eexists. split; [vm_compute; reflexivity |]. split; [vm_compute; reflexivity |].
  split; [reflexivity |].
  assert (Hper : forall hours periods p,
             rd_opening_hours alwaysOpen = Some hours -> rh_periods hours = Some periods ->
             p ∈ periods -> p_closeDay p = None \/ p_closeTime p = None).
  { intros hours periods p [= <-] [= <-] Hp.
    apply list_elem_of_singleton in Hp as ->. by left. }
  match goal with
  | |- strictVerdict _ ?o = _ /\ _ =>
      destruct (open_around_the_clock_is_not_shortlisted (M := Sample.math)
                  Scenario.t0 0 alwaysOpen _ "Social" SOCIAL_ALLOWED BOSTON o
                  ltac:(vm_compute; reflexivity) Hper ltac:(vm_compute; reflexivity))
        as (_ & _ & Hstrict & Hswap)
  end.
  split; [apply Hstrict |]. split.
  - apply Hswap; [reflexivity |]. apply Qle_bool_iff. vm_compute. reflexivity.
  - split; [vm_compute; reflexivity | reflexivity].
Defined.

End Details.

(** ** Photo URLs and the photo route *)

Section Photos.

Lemma hexDigit_unreserved n : (n < 16)%nat -> isUnreserved (hexDigit n) = true.
Proof.
  intros Hn. do 16 (destruct n as [| n]; [reflexivity |]). lia.
Qed.

Lemma encodeURIComponent_chars s c :
  c ∈ list_ascii_of_string (encodeURIComponent s) ->
  isUnreserved c = true \/ c = "%"%char.
Proof.
  revert c. induction s as [| a s IH]; intros c; cbn [encodeURIComponent].
  - intros Hc. by apply elem_of_nil in Hc.
  - destruct (isUnreserved a) eqn:Ha; cbn [list_ascii_of_string].
    + rewrite elem_of_cons. intros [-> | Hc]; [by left | by apply IH].
    + rewrite !elem_of_cons. intros [-> | [-> | [-> | Hc]]]; [by right | | | by apply IH].
      * left. apply hexDigit_unreserved. apply Nat.Div0.div_lt_upper_bound.
        pose proof (nat_ascii_bounded a). lia.
      * left. apply hexDigit_unreserved. apply Nat.mod_upper_bound. lia.
Qed.

(** X7. [buildPhotoUrls] gives at most [max] URLs, each the photo route
    with a reference encoded so that it holds none of the characters that
    delimit a query parameter: a reference of the provider cannot add a
    parameter to the URL of the proxy. *)
Theorem photo_urls_are_well_formed photos max :
  (length (buildPhotoUrls photos max) <= max)%nat /\
  forall u, u ∈ buildPhotoUrls photos max ->
    exists ref l,
      photos = Some l /\ Some ref ∈ l /\
      u = "/api/photo?mw=1200&ref=" +:+ encodeURIComponent ref /\
      forall c, c ∈ list_ascii_of_string (encodeURIComponent ref) -> c ∉ URL_DELIMITERS.
Proof.
  unfold buildPhotoUrls. destruct photos as [l |]; simpl.
  - split.
    + rewrite length_map, length_take. lia.
    + intros u Hu. apply list_elem_of_fmap in Hu as (ref & -> & Hr).
      apply subseteq_take in Hr. apply list_elem_of_omap in Hr as ([r |] & Hin & [= <-]).
      exists r, l. repeat split; try done.
      intros c Hc Hd. apply encodeURIComponent_chars in Hc.
      unfold URL_DELIMITERS in Hd. rewrite !elem_of_cons in Hd.
      destruct Hd as [-> | [-> | [-> | [-> | [-> | [-> | [-> | Hd]]]]]]];
        try (by apply elem_of_nil in Hd);
        destruct Hc as [Hc | Hc]; vm_compute in Hc; discriminate.
  - split; [lia |]. intros u Hu. by apply elem_of_nil in Hu.
Qed.

Lemma photo_urls_are_well_formed_witness :
  buildPhotoUrls (Some [None; Some "a&b=c"; Some "d"]) 1 = ["/api/photo?mw=1200&ref=a%26b%3Dc"] /\
  exists ref,
    "/api/photo?mw=1200&ref=a%26b%3Dc" = "/api/photo?mw=1200&ref=" +:+ encodeURIComponent ref /\
    forall c, c ∈ list_ascii_of_string (encodeURIComponent ref) -> c ∉ URL_DELIMITERS.
Proof.
  split; [reflexivity |].
  destruct (photo_urls_are_well_formed (Some [None; Some "a&b=c"; Some "d"]) 1) as [_ Hall].
  destruct (Hall "/api/photo?mw=1200&ref=a%26b%3Dc") as (ref & l & _ & _ & Hu & Hc);
    [by left |].
  exists ref. split; [exact Hu | exact Hc].
Defined.

Lemma photoWidth_range n : (200 <= photoWidth n)%Q /\ (photoWidth n <= 2000)%Q.
Proof.
  unfold photoWidth. destruct n as [| q | |]; try (split; discriminate).
  destruct (Qeq_bool q 0); [split; discriminate |]. split.
  - apply Q.le_max_l.
  - apply Q.max_lub; [discriminate | apply Q.le_min_l].
Qed.

Lemma encodeURIComponent_truthy s :
  Str.truthy s = true -> Str.truthy (encodeURIComponent s) = true.
Proof. destruct s as [| a s]; [discriminate |]. simpl. by destruct (isUnreserved a). Qed.

(** X8. The photo route asks the provider only for a width between 200 and
    2000 and a non-empty encoded reference: its answer is the same for any
    two providers that agree on such requests, whatever the [mw] parameter
    of the caller. *)
Theorem photo_route_asks_within_bounds hasKey ref mw
    (upstream upstream' : Q -> string -> Result Upstream) :
  (forall w r, (200 <= w)%Q -> (w <= 2000)%Q -> Str.truthy r = true ->
               upstream w r = upstream' w r) ->
  photoGET hasKey ref mw upstream = photoGET hasKey ref mw upstream'.
Proof.
  intros Hagree. unfold photoGET. destruct (negb hasKey); [reflexivity |].
  destruct (Str.truthy (Str.trim (default "" ref))) eqn:Hr; simpl; [| reflexivity].
  destruct (photoWidth_range (default (Num 1200) mw)) as [Hlo Hhi].
  rewrite (Hagree _ _ Hlo Hhi (encodeURIComponent_truthy _ Hr)). reflexivity.
Qed.

Lemma photo_route_asks_within_bounds_witness :
  photoGET true (Some " a b ") (Some (Num 99999)) narrowProvider =
  photoGET true (Some " a b ") (Some (Num 99999)) anyProvider /\
  photoGET true (Some " a b ") (Some (Num 99999)) anyProvider = PhotoImage "image/jpeg" "a%20b".
Proof.
  split; [| reflexivity].
  apply photo_route_asks_within_bounds. intros w r _ Hhi _.
  unfold narrowProvider, anyProvider. apply Qle_bool_iff in Hhi. rewrite Hhi. reflexivity.
Defined.

(** X9. The photo route serves an image only when the key is configured,
    the reference is not blank, the provider answered with an ok status and
    its body could be read; the image is that body and its content type is
    never empty.  Without a key the answer is 500 and with a blank reference
    400, whatever the provider would do. *)
Theorem photo_route_serves_provider_image hasKey ref mw upstream :
  (forall contentType body,
      photoGET hasKey ref mw upstream = PhotoImage contentType body ->
      hasKey = true /\ Str.truthy (Str.trim (default "" ref)) = true /\
      Str.truthy contentType = true /\
      exists up,
        upstream (photoWidth (default (Num 1200) mw))
                 (encodeURIComponent (Str.trim (default "" ref))) = Ok up /\
        up_ok up = true /\ up_body up = Ok body) /\
  (hasKey = false ->
   photoGET hasKey ref mw upstream = PhotoError 500 "Missing GOOGLE_PLACES_API_KEY") /\
  (hasKey = true -> Str.trim (default "" ref) = "" ->
   photoGET hasKey ref mw upstream = PhotoError 400 "Missing ref").
Proof.
  split; [| split].
  - unfold photoGET. intros ct body. destruct hasKey; simpl; [| discriminate].
    destruct (Str.truthy (Str.trim (default "" ref))) eqn:Hr; simpl; [| discriminate].
    destruct (upstream _ _) as [up | e] eqn:Hu; [| discriminate].
    destruct (up_ok up) eqn:Hok; simpl; [| discriminate].
    destruct (up_body up) as [buf | e] eqn:Hb; [| discriminate].
    intros [= <- <-]. repeat split.
    + unfold orElse. destruct (up_contentType up) as [s |]; [| reflexivity].
      destruct (Str.truthy s) eqn:Hs; [exact Hs | reflexivity].
    + exists up. rewrite Hb. done.
  - intros ->. reflexivity.
  - intros -> Hr. unfold photoGET. rewrite Hr. reflexivity.
Qed.

Lemma photo_route_serves_provider_image_witness :
  photoGET false (Some "abc") None anyProvider
    = PhotoError 500 "Missing GOOGLE_PLACES_API_KEY" /\
  photoGET true (Some "   ") None anyProvider = PhotoError 400 "Missing ref".
Proof.
  destruct (photo_route_serves_provider_image false (Some "abc") None anyProvider)
    as (_ & Hk & _).
  destruct (photo_route_serves_provider_image true (Some "   ") None anyProvider)
    as (_ & _ & Hr).
  split; [apply Hk; reflexivity | apply Hr; reflexivity].
Defined.

End Photos.

(** ** Identifier lists, candidates and lanes *)

Section Retrieval.

Lemma length_omap_le {A B : Type} (f : A -> option B) (l : list A) :
  (length (omap f l) <= length l)%nat.
Proof.
  induction l as [| a l IH]; [reflexivity |].
  cbn [omap list_omap length]. fold (omap f l). destruct (f a); cbn [length]; lia.
Qed.

Lemma sanitizeIdList_loop_take x cap out :
  (length out < cap)%nat \/ out = [] ->
  sanitizeIdList_loop x cap out = out ++ take (Nat.max cap 1 - length out) (trimmedIds x).
Proof.
  revert out. induction x as [| [v |] r IH]; intros out Hinv; cbn [sanitizeIdList_loop].
  - unfold trimmedIds. simpl. by rewrite take_nil, app_nil_r.
  - unfold trimmedIds. cbn [omap list_omap map List.filter]. fold (trimmedIds r).
    destruct (Str.truthy (Str.trim v)) eqn:Ht.
    + rewrite length_app. cbn [length].
      destruct (Nat.leb_spec cap (length out + 1)) as [Hle | Hgt].
      * assert (Hone : (Nat.max cap 1 - length out = 1)%nat).
        { destruct Hinv as [Hlt | ->]; simpl in *; lia. }
        rewrite Hone. reflexivity.
      * rewrite IH by (left; rewrite length_app; simpl; lia).
        rewrite length_app. cbn [length].
        replace (Nat.max cap 1 - length out)%nat
          with (S (Nat.max cap 1 - (length out + 1)))%nat by lia.
        cbn [take]. by rewrite <- app_assoc.
    + by apply IH.
  - unfold trimmedIds. cbn [omap list_omap]. by apply IH.
Qed.

Lemma sanitizeIdList_take l cap :
  sanitizeIdList (Some l) cap = take (Nat.max cap 1) (trimmedIds l).
Proof.
  unfold sanitizeIdList. rewrite sanitizeIdList_loop_take by (by right).
  simpl. by rewrite Nat.sub_0_r.
Qed.

(** X10. [sanitizeIdList] keeps the non-blank strings of the array, trimmed
    and in their order, up to the first [cap] of them (one when [cap] is 0):
    nothing else is dropped, so a list of at most [cap] entries is taken
    whole. *)
Theorem sanitizeIdList_keeps_first l cap :
  sanitizeIdList (Some l) cap = take (Nat.max cap 1) (trimmedIds l) /\
  (length (sanitizeIdList (Some l) cap) <= Nat.max cap 1)%nat /\
  ((length l <= cap)%nat -> sanitizeIdList (Some l) cap = trimmedIds l).
Proof.
  pose proof (sanitizeIdList_take l cap) as Heq.
  split; [exact Heq |]. split.
  - rewrite Heq, length_take. lia.
  - intros Hlen. rewrite Heq. apply take_ge.
    unfold trimmedIds.
    etransitivity; [apply List.filter_length_le |].
    rewrite length_map. etransitivity; [apply length_omap_le |]. lia.
Qed.

Lemma sanitizeIdList_keeps_first_witness :
  sanitizeIdList (Some [Some " a "; None; Some "  "; Some "b"]) MAX_SEEN_IDS = ["a"; "b"].
Proof.
  destruct (sanitizeIdList_keeps_first [Some " a "; None; Some "  "; Some "b"] MAX_SEEN_IDS)
    as (_ & _ & Hall).
  rewrite Hall; [reflexivity | unfold MAX_SEEN_IDS; simpl; lia].
Defined.

Lemma dedupCandidates_ids l seen a :
  a ∈ dedupCandidates l seen ->
  a ∈ l /\ Str.truthy (c_placeId a) = true /\ c_placeId a ∉ seen.
Proof.
  revert seen. induction l as [| b l IH]; intros seen; simpl.
  - intros Ha. by apply elem_of_nil in Ha.
  - destruct (Str.truthy (c_placeId b)) eqn:Ht; simpl.
    + destruct (has seen (c_placeId b)) eqn:Hs.
      * intros Ha. apply IH in Ha as (? & ? & ?). split; [by right | done].
      * rewrite elem_of_cons. intros [-> | Ha].
        -- split; [by left |]. split; [done |]. by apply has_false.
        -- apply IH in Ha as (? & ? & Hn). split; [by right |]. split; [done |].
           intros Hin. apply Hn. by right.
    + intros Ha. apply IH in Ha as (? & ? & ?). split; [by right | done].
Qed.

Lemma dedupCandidates_NoDup l seen : NoDup (map c_placeId (dedupCandidates l seen)).
Proof.
  revert seen. induction l as [| b l IH]; intros seen; simpl; [constructor |].
  destruct (negb (Str.truthy (c_placeId b))); [apply IH |].
  destruct (has seen (c_placeId b)); [apply IH |].
  simpl. constructor; [| apply IH].
  intros Hin. apply list_elem_of_fmap in Hin as (a & Heq & Ha).
  apply dedupCandidates_ids in Ha as (_ & _ & Hn). apply Hn. rewrite Heq. by left.
Qed.

Lemma dedupCandidates_sublist l seen : dedupCandidates l seen `sublist_of` l.
Proof.
  revert seen. induction l as [| b l IH]; intros seen; simpl; [constructor |].
  destruct (negb (Str.truthy (c_placeId b))); [by apply sublist_cons |].
  destruct (has seen (c_placeId b)); [by apply sublist_cons |].
  by apply sublist_skip.
Qed.

Lemma dedupCandidates_covers l seen a :
  a ∈ l -> Str.truthy (c_placeId a) = true -> c_placeId a ∉ seen ->
  c_placeId a ∈ map c_placeId (dedupCandidates l seen).
Proof.
  revert seen. induction l as [| b l IH]; intros seen; simpl.
  - intros Ha. by apply elem_of_nil in Ha.
  - intros Ha Ht Hn. destruct (decide (c_placeId b = c_placeId a)) as [Heq | Hne].
    + rewrite Heq, Ht. simpl. apply has_false in Hn. rewrite Hn. simpl.
      apply elem_of_cons. left. congruence.
    + apply elem_of_cons in Ha as [-> | Ha]; [done |].
      destruct (negb (Str.truthy (c_placeId b))); [by apply IH |].
      destruct (has seen (c_placeId b)); [by apply IH |].
      simpl. right. apply IH; try done.
      intros Hin. apply elem_of_cons in Hin as [Hin | Hin]; [congruence | done].
Qed.

Lemma dedupCandidates_first l seen a :
  a ∈ dedupCandidates l seen ->
  exists l1 l2, l = l1 ++ a :: l2 /\ c_placeId a ∉ map c_placeId l1.
Proof.
  revert seen. induction l as [| b l IH]; intros seen; simpl.
  - intros Ha. by apply elem_of_nil in Ha.
  - destruct (Str.truthy (c_placeId b)) eqn:Ht; simpl.
    + destruct (has seen (c_placeId b)) eqn:Hs.
      * intros Ha. pose proof (dedupCandidates_ids _ _ _ Ha) as (_ & _ & Hn).
        apply IH in Ha as (l1 & l2 & -> & Hl1). exists (b :: l1), l2.
        split; [reflexivity |]. simpl. apply not_elem_of_cons. split; [| exact Hl1].
        intros Heq. apply Hn. rewrite Heq. by apply has_true.
      * rewrite elem_of_cons. intros [-> | Ha].
        -- exists [], l. split; [reflexivity | apply not_elem_of_nil].
        -- pose proof (dedupCandidates_ids _ _ _ Ha) as (_ & _ & Hn).
           apply IH in Ha as (l1 & l2 & -> & Hl1). exists (b :: l1), l2.
           split; [reflexivity |]. simpl. apply not_elem_of_cons. split; [| exact Hl1].
           intros Heq. apply Hn. rewrite Heq. by left.
    + intros Ha. pose proof (dedupCandidates_ids _ _ _ Ha) as (_ & Hta & _).
      apply IH in Ha as (l1 & l2 & -> & Hl1). exists (b :: l1), l2.
      split; [reflexivity |]. simpl. apply not_elem_of_cons. split; [| exact Hl1].
      intros Heq. congruence.
Qed.

(** X11. The deduplication of the candidates by place identifier keeps the
    first candidate of every non-empty identifier, in the order of the
    input, and nothing else: the result has pairwise distinct, non-empty
    identifiers, every non-empty identifier of the input is still there,
    and no candidate before a kept one in the input has its identifier. *)
Theorem dedupCandidates_keeps_one_per_place (l : list GoogleCandidate) :
  NoDup (map c_placeId (dedupCandidates l [])) /\
  dedupCandidates l [] `sublist_of` l /\
  (forall a, a ∈ dedupCandidates l [] -> Str.truthy (c_placeId a) = true) /\
  (forall a, a ∈ l -> Str.truthy (c_placeId a) = true ->
             c_placeId a ∈ map c_placeId (dedupCandidates l [])) /\
  (forall a, a ∈ dedupCandidates l [] ->
             exists l1 l2, l = l1 ++ a :: l2 /\ c_placeId a ∉ map c_placeId l1).
Proof.
  split; [apply dedupCandidates_NoDup |]. split; [apply dedupCandidates_sublist |].
  split; [| split].
  - intros a Ha. by apply dedupCandidates_ids in Ha as (_ & ? & _).
  - intros a Ha Ht. apply dedupCandidates_covers; try done. apply not_elem_of_nil.
  - intros a. apply dedupCandidates_first.
Qed.

Lemma dedupCandidates_keeps_one_per_place_witness :
  dedupCandidates [candidateAt "a" 1; candidateAt "" 2; candidateAt "a" 3; candidateAt "b" 4] []
  = [candidateAt "a" 1; candidateAt "b" 4] /\
  "b" ∈ map c_placeId
          (dedupCandidates
             [candidateAt "a" 1; candidateAt "" 2; candidateAt "a" 3; candidateAt "b" 4] []) /\
  (exists l1 l2,
      [candidateAt "a" 1; candidateAt "" 2; candidateAt "a" 3; candidateAt "b" 4]
      = l1 ++ candidateAt "a" 1 :: l2 /\ "a" ∉ map c_placeId l1).
Proof.
  destruct (dedupCandidates_keeps_one_per_place
              [candidateAt "a" 1; candidateAt "" 2; candidateAt "a" 3; candidateAt "b" 4])
    as (_ & _ & _ & Hcov & Hfirst).
  split; [reflexivity |]. split.
  - apply (Hcov (candidateAt "b" 4)); [| reflexivity]. do 3 right. by left.
  - apply (Hfirst (candidateAt "a" 1)). by left.
Defined.

End Retrieval.

(** ** Lanes and details *)

Section Lanes.

Lemma uniqueStrings_elem l seen x :
  x ∈ uniqueStrings l seen -> x ∈ l /\ x ∉ seen.
Proof.
  revert seen. induction l as [| y l IH]; intros seen; simpl.
  - intros Hx. by apply elem_of_nil in Hx.
  - destruct (has seen y) eqn:Hs.
    + intros Hx. apply IH in Hx as [? ?]. split; [by right | done].
    + rewrite elem_of_cons. intros [-> | Hx].
      * split; [by left | by apply has_false].
      * apply IH in Hx as [? Hn]. split; [by right |]. intros Hin. apply Hn. by right.
Qed.

Lemma uniqueStrings_NoDup l seen : NoDup (uniqueStrings l seen).
Proof.
  revert seen. induction l as [| y l IH]; intros seen; simpl; [constructor |].
  destruct (has seen y); [apply IH |]. constructor; [| apply IH].
  intros Hin. apply uniqueStrings_elem in Hin as [_ Hn]. apply Hn. by left.
Qed.

Lemma awaitAll_length {A : Type} (jobs : list (Result A)) (l : list A) :
  awaitAll jobs = Ok l -> length l = length jobs.
Proof.
  revert l. induction jobs as [| j r IH]; intros l; simpl.
  - by intros [= <-].
  - destruct j as [a | e]; simpl; [| discriminate].
    destruct (awaitAll r) as [l' | e]; simpl; [| discriminate].
    intros [= <-]. simpl. f_equal. by apply IH.
Qed.

(** X12. A vibe is searched with at most 8 nearby keywords and at most 10
    text queries, none of them empty and no text query twice, so
    [collectCandidatesMultiLane] starts at most 18 searches; and a request
    walks exactly three vibes, its own first. *)
Theorem lanes_are_bounded (vibe : string) (vegFriendly : bool) :
  (length (buildLaneQueries vibe vegFriendly).1 <= 8)%nat /\
  (length (buildLaneQueries vibe vegFriendly).2 <= 10)%nat /\
  (forall q, q ∈ (buildLaneQueries vibe vegFriendly).1 ++ (buildLaneQueries vibe vegFriendly).2 ->
             Str.truthy q = true) /\
  NoDup (buildLaneQueries vibe vegFriendly).2 /\
  (forall env c radiusM allowCache,
      (length (laneJobs env c vibe radiusM allowCache vegFriendly) <= 18)%nat) /\
  exists v2 v3, fallbackVibesForSwap vibe = [vibe; v2; v3].
Proof.
  assert (H1 : (length (buildLaneQueries vibe vegFriendly).1 <= 8)%nat).
  { unfold buildLaneQueries. cbn [fst]. rewrite length_take. lia. }
  assert (H2 : (length (buildLaneQueries vibe vegFriendly).2 <= 10)%nat).
  { unfold buildLaneQueries. cbn [snd]. rewrite length_take. lia. }
  split; [exact H1 |]. split; [exact H2 |]. split; [| split; [| split]].
  - intros q Hq. unfold buildLaneQueries in Hq. cbn [fst snd] in Hq.
    apply elem_of_app in Hq as [Hq | Hq]; apply subseteq_take in Hq;
      apply list_elem_of_filter in Hq as [Hq _]; by apply Is_true_true.
  - unfold buildLaneQueries. cbn [snd].
    eapply sublist_NoDup; [| apply sublist_take].
    apply NoDup_filter, uniqueStrings_NoDup.
  - intros env c radiusM allowCache. unfold laneJobs.
    destruct (buildLaneQueries vibe vegFriendly) as [n t] eqn:Hb. cbn [fst snd] in *.
    rewrite length_app, !length_map. lia.
  - unfold fallbackVibesForSwap.
    repeat match goal with
           | |- context [if Str.eqb ?a ?b then _ else _] =>
               destruct (Str.eqb a b) eqn:?H
           end;
    repeat match goal with
           | H : Str.eqb _ _ = true |- _ => apply Str_eqb_true in H; subst
           end; eauto.
Qed.

Lemma lanes_are_bounded_witness :
  Str.truthy "cozy cafe" = true /\
  (length (laneJobs Scenario.cafeEnv BOSTON "Cozy" CITY_CENTER_RADIUS_SWAP_M true false)
   <= 18)%nat.
Proof.
  destruct (lanes_are_bounded "Cozy" false) as (_ & _ & Ht & _ & Hj & _).
  split; [apply Ht; apply has_true; vm_compute; reflexivity | apply Hj].
Defined.

Lemma Qle_bool_sub (a b : Q) : Qle_bool (a - b) 0 = true <-> (a <= b)%Q.
Proof.
  rewrite Qle_bool_iff, (Qle_minus_iff (a - b) 0), (Qle_minus_iff a b).
  assert (Heq : (0 + - (a - b) == b + - a)%Q) by ring.
  by rewrite Heq.
Qed.

Context `{M : JsMath}.

Lemma nearer_cmp c a b :
  Qle_bool (candidateDist c a - candidateDist c b) 0 = true <-> nearer c a b.
Proof. apply Qle_bool_sub. Qed.

Lemma nearer_total c a b : nearer c a b \/ nearer c b a.
Proof.
  unfold nearer. destruct (Qlt_le_dec (candidateDist c a) (candidateDist c b)) as [H | H];
    [left; by apply Qlt_le_weak | by right].
Qed.

Lemma nearer_trans c a b d : nearer c a b -> nearer c b d -> nearer c a d.
Proof. unfold nearer. apply Qle_trans. Qed.

Lemma detailsToFetch_length candidates c :
  length (detailsToFetch candidates c) = Nat.min DETAILS_CAP_TOTAL (length candidates).
Proof.
  unfold detailsToFetch. rewrite length_take.
  by rewrite (Permutation_length (sortBy_Permutation _ candidates)).
Qed.

End Lanes.

Section LanesTheorems.

(** X13. The details are fetched for the candidates nearest to the center,
    at most 55 of them, whatever the number of candidates: every candidate
    left out is at least as far as every candidate fetched, and at most 55
    Options are built. *)
Theorem details_go_to_the_nearest `{M : JsMath} (candidates : list GoogleCandidate)
    (c : LatLng) :
  length (detailsToFetch candidates c) = Nat.min DETAILS_CAP_TOTAL (length candidates) /\
  (exists skipped,
      detailsToFetch candidates c ++ skipped ≡ₚ candidates /\
      forall a b, a ∈ detailsToFetch candidates c -> b ∈ skipped ->
                  (candidateDist c a <= candidateDist c b)%Q) /\
  (forall env tz vibe allowed built,
      buildOptionsFromCandidates env candidates tz vibe allowed c = Ok built ->
      (length built <= DETAILS_CAP_TOTAL)%nat).
Proof.
  set (sorted := sortBy (fun a b => (candidateDist c a - candidateDist c b)%Q) candidates).
  pose proof (detailsToFetch_length candidates c) as Hlen.
  split; [exact Hlen |]. split.
  - exists (drop DETAILS_CAP_TOTAL sorted). unfold detailsToFetch. fold sorted. split.
    + rewrite take_drop. apply sortBy_Permutation.
    + intros a b Ha Hb.
      eapply (StronglySorted_app_le (nearer c)); [| exact Ha | exact Hb].
      rewrite take_drop.
      apply (sortBy_sorted _ (nearer c) (nearer_cmp c) (nearer_total c) (nearer_trans c)).
  - intros env tz vibe allowed built. unfold buildOptionsFromCandidates. intros Hb.
    apply bind_Ok in Hb as (detailsList & Hd & Hb). injection Hb as <-.
    apply awaitAll_length in Hd. rewrite length_map in Hd.
    etransitivity; [apply length_omap_le |]. rewrite Hd, Hlen. lia.
Qed.

Lemma details_go_to_the_nearest_witness :
  length farFirst = 56%nat /\
  length (detailsToFetch (H := Sample.math) farFirst BOSTON) = 55%nat /\
  farPlace ∉ detailsToFetch (H := Sample.math) farFirst BOSTON.
Proof.
  destruct (details_go_to_the_nearest (M := Sample.math) farFirst BOSTON)
    as (Hlen & (skipped & Hperm & Hnear) & _).
  split; [reflexivity |]. split; [exact Hlen |].
  intros Hfar.
  assert (Hone : length skipped = 1%nat).
  { apply Permutation_length in Hperm. rewrite length_app, Hlen in Hperm.
    change (length farFirst) with 56%nat in Hperm.
    change (Nat.min DETAILS_CAP_TOTAL 56) with 55%nat in Hperm. lia. }
  destruct skipped as [| b [| b' rest]]; try discriminate Hone. clear Hone.
  assert (Hnd : NoDup farFirst).
  { apply (NoDup_fmap_1 c_placeId). apply (bool_decide_unpack _). vm_compute. exact I. }
  assert (Hb : b ∈ farFirst).
  { rewrite <- Hperm. apply elem_of_app. right. by left. }
  apply elem_of_cons in Hb as [-> | Hb].
  - rewrite <- Hperm in Hnd. apply NoDup_app in Hnd as (_ & Hdis & _).
    apply (Hdis farPlace Hfar). by left.
  - apply list_elem_of_fmap in Hb as (i & -> & _).
    specialize (Hnear farPlace (stall i) Hfar ltac:(by left)).
    revert Hnear. apply Qlt_not_le.
    change (candidateDist (H := Sample.math) BOSTON (stall i))
      with (candidateDist (H := Sample.math) BOSTON (stall 0)).
    apply Qlt_alt. vm_compute. reflexivity.
Defined.

End LanesTheorems.

(** ** Profiles and weather *)

Section Profiles.

(** X14. The relaxed profile accepts whatever the strict profile accepts,
    so every Option of the returned shortlist also qualifies for the swap
    pool. *)
Theorem strict_implies_relaxed `{M : JsMath} :
  (forall now o allowed c cityNow cityHour f,
      hardReject now o (strictArgs allowed c cityNow cityHour f) = None ->
      hardReject now o (relaxedArgs allowed c cityNow cityHour f) = None) /\
  (forall env body options w lim reason pool o b,
      POST env body = RespPlan options w lim reason pool -> body = Some b ->
      o ∈ options -> swapVerdict (requestCtx env b w) o = None).
Proof.
  assert (H1 : forall now o allowed c cityNow cityHour f,
      hardReject now o (strictArgs allowed c cityNow cityHour f) = None ->
      hardReject now o (relaxedArgs allowed c cityNow cityHour f) = None).
  { intros now o allowed c cityNow cityHour f Hs.
    pose proof (hardReject_None _ _ _ Hs) as (Hc & Hcl & Hd & Hm).
    assert (Hd' : (distanceOf o (relaxedArgs allowed c cityNow cityHour f)
                   <= maxDistKm (relaxedArgs allowed c cityNow cityHour f))%Q).
    { unfold distanceOf in *. simpl in *. eapply Qle_trans; [exact Hd |]. discriminate. }
    rewrite hardReject_near in Hs by assumption.
    rewrite hardReject_near by assumption.
    unfold remainingOf in *. simpl in *.
    destruct (minutesUntilClose now cityNow (o_closingTime o) (o_closeTs o)) as [m |];
      [| discriminate].
    unfold MIN_REMAINING_MIN, RELAXED_REMAINING_MIN in *.
    destruct (Z.ltb_spec m 75); [discriminate |].
    destruct (Z.ltb_spec m 45); [lia |]. exact Hs. }
  split; [exact H1 |].
  intros env body options w lim reason pool o b HP -> Ho.
  destruct (returned_option _ _ _ _ _ _ _ _ HP (or_introl Ho))
    as (b' & a & d & o0 & [= <-] & _ & _ & _ & _ & _ & Hstrict & _).
  apply Hstrict, strictVerdict_None in Ho as (_ & _ & Hr).
  unfold swapVerdict. unfold strictOf in Hr. unfold relaxedOf.
  by rewrite (H1 _ _ _ _ _ _ _ Hr).
Qed.

Lemma strict_implies_relaxed_witness :
  exists o,
    o ∈ Scenario.options_of
          (POST (H := Sample.math) Scenario.cafeEnv (Some (Scenario.request "Cozy" []))) /\
    swapVerdict (H := Sample.math) Scenario.cozyCtx o = None.
Proof.
  destruct cafe_plan as (o & o' & HP & _).
  assert (Hin : o ∈ [o]) by (by left).
  exists o. split; [rewrite HP; exact Hin |].
  destruct (strict_implies_relaxed (M := Sample.math)) as [_ H2].
  exact (H2 _ _ _ _ _ _ _ o _ HP eq_refl Hin).
Defined.

End Profiles.

Section Weather.

(** X15. The weather flags are graded: very cold implies cold and very
    windy implies windy; they read the next two hours of the forecast only;
    and without a forecast no flag is raised, so that no Option is rejected
    with "weather_block" when the weather service gave nothing. *)
Theorem weather_flags_are_graded `{M : JsMath} :
  (forall weather,
      (veryCold (getWeatherFlags weather) = true -> cold (getWeatherFlags weather) = true) /\
      (veryWindy (getWeatherFlags weather) = true -> windy (getWeatherFlags weather) = true)) /\
  (forall w,
      getWeatherFlags (Some w) =
      getWeatherFlags (Some {| w_now := w_now w; w_nextHours := take 2 (w_nextHours w);
                               w_cityLocalHour := w_cityLocalHour w; w_alerts := w_alerts w;
                               w_tzOffsetSec := w_tzOffsetSec w |})) /\
  (forall now o args,
      flags args = getWeatherFlags None -> hardReject now o args <> Some "weather_block").
Proof.
  split; [| split].
  - intros weather. unfold getWeatherFlags. cbn [veryCold cold veryWindy windy]. split.
    + intros Hv. apply Qle_bool_iff in Hv. apply Qle_bool_iff.
      eapply Qle_trans; [exact Hv | discriminate].
    + intros Hv. apply Qle_bool_iff in Hv. apply Qle_bool_iff.
      eapply Qle_trans; [| exact Hv]. discriminate.
  - intros w. unfold getWeatherFlags. cbn [w_nextHours]. by rewrite take_take.
  - intros now o args Hf. unfold hardReject. rewrite Hf.
    destruct (negb (has _ _)); [discriminate |].
    destruct (Str.includes "closed" _); [discriminate |].
    destruct (Qgtb _ _); [discriminate |].
    destruct (minutesUntilClose _ _ _ _) as [m |].
    + destruct (m <? minRemaining args); [discriminate |].
      cbn [precip veryCold veryWindy cold getWeatherFlags take map existsb orb].
      rewrite !andb_false_r. discriminate.
    + destruct (allowUnknownHours args); discriminate.
Qed.

Lemma weather_flags_are_graded_witness :
  hardReject (H := Sample.math) Scenario.t0 Scenario.parkOption
    (strictArgs Scenario.OUTDOORS_ALLOWED BOSTON Scenario.t0 15 Scenario.clearFlags)
  <> Some "weather_block".
Proof.
  destruct (weather_flags_are_graded (M := Sample.math)) as (_ & _ & H3).
  apply H3. reflexivity.
Defined.

End Weather.

(** ** The shape of the response *)

Section ResponseShape.

Context `{M : JsMath}.

(** The lists, the flag and the reason of a plan. *)
Lemma POST_plan_response env b options w lim reason pool :
  POST_plan env b = Ok (RespPlan options w lim reason pool) ->
  let x := requestCtx env b w in
  exists built picked swapPool dropped copyById,
    POST_select (env_random env) x built = (picked, swapPool, dropped) /\
    options = map toPublicOption
                (imap (fun idx o => withId o (pretty (S idx)))
                   (map (applyCopy x copyById) picked)) /\
    pool = map toPublicOption (map (applyCopy x copyById) swapPool) /\
    lim = (length picked <? 5)%nat || (length swapPool <? 10)%nat /\
    reason =
      (if (length swapPool <? 10)%nat && negb (length picked <? 5)%nat
       then Some "Swaps are limited right now — try again shortly."
       else if (length picked <? 5)%nat
            then Some (limitedReason (x_allowed x) dropped) else None).
Proof.
  unfold POST_plan. intros Hb.
  apply bind_Ok in Hb as (city & Hcity & Hb).
  apply bind_Ok in Hb as (vibe & Hvibe & Hb).
  destruct (isPrototypeKey vibe) eqn:Hpv; [discriminate |].
  apply bind_Ok in Hb as (w' & Hw & Hb).
  destruct (isPrototypeKey city) eqn:Hpc; [discriminate |].
  apply bind_Ok in Hb as (candidates & Hc & Hb).
  apply bind_Ok in Hb as (built & Hbuilt & Hb).
  destruct (POST_select (env_random env) (requestCtx env b w') built)
    as [[picked swapPool] dropped] eqn:Hsel.
  apply bind_Ok in Hb as (gptCopy & Hg & Hb).
  injection Hb as <- <- <- <- <-.
  exists built, picked, swapPool, dropped, (copyById_of gptCopy).
  rewrite !length_map. repeat split; assumption.
Qed.


Lemma length_pickLoop_le rnd fuel calls picked remaining cc :
  (length (pickLoop rnd fuel calls picked remaining cc) <= length picked + fuel)%nat.
Proof.
  revert calls picked remaining cc.
  induction fuel as [| fuel IH]; intros calls picked remaining cc; simpl.
  - destruct remaining; lia.
  - destruct remaining as [| a rem]; [lia |].
    destruct (weightedPick _ _) as [chosen |]; [| lia].
    etransitivity; [apply IH |]. rewrite length_app. simpl. lia.
Qed.


Lemma length_POST_picked_le rnd calls strict :
  (length (POST_picked rnd calls strict) <= 5)%nat.
Proof.
  unfold POST_picked. rewrite length_swapLastIfUniform.
  etransitivity; [apply length_pickLoop_le |]. simpl. lia.
Qed.

Lemma POST_select_picked_length rnd x built picked swapPool dropped :
  POST_select rnd x built = (picked, swapPool, dropped) -> (length picked <= 5)%nat.
Proof.
  unfold POST_select.
  destruct (filterCounting (swapVerdict x) _ ∅) as [swapFeasible dropped1].
  destruct (filterCounting (strictVerdict x) _ dropped1) as [strict dropped2].
  intros [= <- <- <-]. apply length_POST_picked_le.
Qed.

End ResponseShape.

Section ResponseShapeTheorems.

(** X16. A plan holds at most 5 Options; they are numbered "1", "2", ... in
    their order, and no returned Option, on the shortlist or in the pool,
    carries its internal score. *)
Theorem shortlist_is_numbered `{M : JsMath} env body options w lim reason pool :
  POST env body = RespPlan options w lim reason pool ->
  (length options <= 5)%nat /\
  (forall i o, options !! i = Some o -> o_id o = pretty (S i)) /\
  (forall o, o ∈ options \/ o ∈ pool -> o_score o = None).
Proof.
  intros HP. apply POST_RespPlan in HP as (b & -> & HP).
  apply POST_plan_response in HP
    as (built & picked & swapPool & dropped & copyById & Hsel & -> & -> & _).
  split; [| split].
  - rewrite length_map, length_imap, length_map.
    by eapply POST_select_picked_length.
  - intros i o. rewrite list_lookup_fmap, list_lookup_imap.
    destruct (_ !! i) as [o1 |]; simpl; [| discriminate]. by intros [= <-].
  - intros o [Ho | Ho]; apply list_elem_of_fmap in Ho as (o1 & -> & _); reflexivity.
Qed.

Lemma shortlist_is_numbered_witness :
  exists o,
    Scenario.options_of
      (POST (H := Sample.math) Scenario.cafeEnv (Some (Scenario.request "Cozy" []))) !! 0%nat
    = Some o /\ o_id o = "1" /\ o_score o = None.
Proof.
  destruct cafe_plan as (o & o' & HP & _).
  exists o. split; [by rewrite HP |].
  destruct (shortlist_is_numbered (M := Sample.math) _ _ _ _ _ _ _ HP) as (_ & Hid & Hsc).
  split; [exact (Hid 0%nat o eq_refl) | apply Hsc; left; by left].
Defined.

(** X17. A plan is flagged as limited exactly when its shortlist has fewer
    than 5 Options or its swap pool fewer than 10, and it carries a reason
    exactly when it is flagged; the reason is never empty. *)
Theorem limited_flag_matches_sizes `{M : JsMath} env body options w lim reason pool :
  POST env body = RespPlan options w lim reason pool ->
  (lim = true <-> (length options < 5)%nat \/ (length pool < 10)%nat) /\
  (lim = true <-> is_Some reason) /\
  (forall r, reason = Some r -> Str.truthy r = true).
Proof.
  intros HP. apply POST_RespPlan in HP as (b & -> & HP).
  apply POST_plan_response in HP
    as (built & picked & swapPool & dropped & copyById & Hsel & -> & -> & -> & ->).
  rewrite !length_map, length_imap, !length_map.
  destruct (Nat.ltb_spec (length picked) 5) as [Hp | Hp];
    destruct (Nat.ltb_spec (length swapPool) 10) as [Hs | Hs]; simpl.
  - split; [split; [intros _; by left | done] |].
    split; [split; [intros _; by eexists | done] |].
    intros r [= <-]. unfold limitedReason. by repeat destruct (_ && _); try destruct (_ <? _)%nat.
  - split; [split; [intros _; by left | done] |].
    split; [split; [intros _; by eexists | done] |].
    intros r [= <-]. unfold limitedReason. by repeat destruct (_ && _); try destruct (_ <? _)%nat.
  - split; [split; [intros _; by right | done] |].
    split; [split; [intros _; by eexists | done] |].
    by intros r [= <-].
  - split; [split; [discriminate | lia] |].
    split; [split; [discriminate | by intros [r Hr]] |]. discriminate.
Qed.

Lemma limited_flag_matches_sizes_witness :
  exists options pool reason,
    POST (H := Sample.math) Scenario.cafeEnv (Some (Scenario.request "Cozy" []))
    = RespPlan options None true reason pool /\
    ((length options < 5)%nat \/ (length pool < 10)%nat) /\ is_Some reason.
Proof.
  destruct cafe_plan as (o & o' & HP & _).
  exists [o], [o'], (Some "Limited matches — try adjusting filters.").
  split; [exact HP |].
  destruct (limited_flag_matches_sizes (M := Sample.math) _ _ _ _ _ _ _ HP) as (Hl & Hr & _).
  split; [by apply Hl | by apply Hr].
Defined.

End ResponseShapeTheorems.

(** ** What a returned Option says *)

Section ReturnedText.




Lemma applyCopy_why x copyById o : Str.truthy (o_why (applyCopy x copyById o)) = true.
Proof.
  unfold applyCopy. cbn [o_why withCopy]. unfold orElse.
  destruct (fst <$> _) as [s |]; [| reflexivity].
  destruct (Str.truthy s) eqn:Hs; [exact Hs | reflexivity].
Qed.

Lemma applyCopy_watchouts x copyById o :
  (1 <= length (o_watchouts (applyCopy x copyById o)) <= 2)%nat.
Proof.
  unfold applyCopy. cbn [o_watchouts withCopy].
  destruct (_ && _ && _); [cbn [take length]; lia |].
  rewrite length_take.
  destruct (snd <$> _) as [[| w r] |]; unfold DEFAULT_WATCHOUTS; cbn [length]; lia.
Qed.

Lemma applyCopy_veg x copyById o :
  x_vegFriendly x = true -> isFoodish (o_category o) false = true ->
  Str.includes "veget" (Str.toLowerCase (o_why (applyCopy x copyById o))) = true \/
  last (o_watchouts (applyCopy x copyById o)) = Some "Veg options not confirmed — check menu.".
Proof.
  intros Hv Hf. unfold applyCopy. cbn [o_watchouts o_why withCopy]. rewrite Hv, Hf. simpl.
  destruct (Str.includes "veget" _); simpl; [by left | by right].
Qed.

(** X19. Every returned Option carries a reason ("why") that is not empty
    and one or two watch-outs, whatever the copy writer returned; and for a
    vegetarian-friendly request, an Option of a food category whose reason
    does not mention "veget" ends with the watch-out that vegetarian options
    are not confirmed. *)
Theorem copy_is_always_present `{M : JsMath} env body options w lim reason pool o :
  POST env body = RespPlan options w lim reason pool ->
  o ∈ options \/ o ∈ pool ->
  Str.truthy (o_why o) = true /\
  (1 <= length (o_watchouts o) <= 2)%nat /\
  (forall b, body = Some b -> req_vegFriendly b = Some true ->
             isFoodish (o_category o) false = true ->
             Str.includes "veget" (Str.toLowerCase (o_why o)) = true \/
             last (o_watchouts o) = Some "Veg options not confirmed — check menu.").
Proof.
  intros HP Ho. apply POST_RespPlan in HP as (b & -> & HP).
  apply POST_plan_response in HP
    as (built & picked & swapPool & dropped & copyById & _ & -> & -> & _).
  assert (Hsrc : exists o3, o_why o = o_why (applyCopy (requestCtx env b w) copyById o3) /\
                            o_watchouts o = o_watchouts (applyCopy (requestCtx env b w) copyById o3) /\
                            o_category o = o_category o3).
  { destruct Ho as [Ho | Ho].
    - apply list_elem_of_fmap in Ho as (o1 & -> & Ho).
      apply elem_of_lookup_imap in Ho as (i & o2 & -> & Hl).
      apply list_elem_of_lookup_2 in Hl.
      apply list_elem_of_fmap in Hl as (o3 & -> & _). by exists o3.
    - apply list_elem_of_fmap in Ho as (o1 & -> & Ho).
      apply list_elem_of_fmap in Ho as (o3 & -> & _). by exists o3. }
  destruct Hsrc as (o3 & -> & -> & Hcat).
  split; [apply applyCopy_why |]. split; [apply applyCopy_watchouts |].
  intros b' [= <-] Hveg Hfood. apply applyCopy_veg.
  - simpl. by rewrite Hveg.
  - by rewrite <- Hcat.
Qed.

Lemma copy_is_always_present_witness :
  exists o,
    o ∈ Scenario.options_of
          (POST (H := Sample.math) Scenario.cafeEnv (Some (Scenario.request "Cozy" []))) /\
    Str.truthy (o_why o) = true /\ (1 <= length (o_watchouts o) <= 2)%nat.
Proof.
  destruct cafe_plan as (o & o' & HP & _).
  assert (Hin : o ∈ [o]) by (by left).
  exists o. split; [rewrite HP; exact Hin |].
  destruct (copy_is_always_present (M := Sample.math) _ _ _ _ _ _ _ o HP (or_introl Hin))
    as (Hw & Hl & _).
  split; [exact Hw | exact Hl].
Defined.

End ReturnedText.

(** ** No place twice *)

Section Distinct.

Lemma POST_deduped_keys l seen o :
  o ∈ POST_deduped l seen -> dedupKey o ∉ seen.
Proof.
  revert seen. induction l as [| a l IH]; intros seen; simpl.
  - intros Ho. by apply elem_of_nil in Ho.
  - destruct (has seen (dedupKey a)) eqn:Hs; [apply IH |].
    rewrite elem_of_cons. intros [-> | Ho]; [by apply has_false |].
    apply IH in Ho. intros Hin. apply Ho. by right.
Qed.

Lemma POST_deduped_NoDup l seen : NoDup (map dedupKey (POST_deduped l seen)).
Proof.
  revert seen. induction l as [| a l IH]; intros seen; simpl; [constructor |].
  destruct (has seen (dedupKey a)); [apply IH |].
  simpl. constructor; [| apply IH].
  intros Hin. apply list_elem_of_fmap in Hin as (o & Heq & Ho).
  apply POST_deduped_keys in Ho. apply Ho. rewrite Heq. by left.
Qed.

Lemma filterCounting_sublist verdict (l : list Option) dropped :
  (filterCounting verdict l dropped).1 `sublist_of` l.
Proof.
  revert dropped. induction l as [| a l IH]; intros dropped; simpl; [constructor |].
  destruct (verdict a) as [[r |] |].
  - apply sublist_cons, IH.
  - apply sublist_cons, IH.
  - specialize (IH dropped). destruct (filterCounting verdict l dropped) as [kept dc].
    simpl in *. by apply sublist_skip.
Qed.

Lemma List_filter_sublist {A : Type} (f : A -> bool) (l : list A) :
  List.filter f l `sublist_of` l.
Proof.
  induction l as [| a l IH]; simpl; [constructor |].
  destruct (f a); [by apply sublist_skip | by apply sublist_cons].
Qed.

Lemma diversifyPool_loop_sublist items n counts :
  diversifyPool_loop items n counts `sublist_of` items.
Proof.
  revert counts. induction items as [| a l IH]; intros counts; simpl; [constructor |].
  destruct (n <=? _)%nat; [apply sublist_cons, IH | apply sublist_skip, IH].
Qed.

Lemma POST_swapPool_sublist seenSet swapFeasible :
  POST_swapPool seenSet swapFeasible `sublist_of` swapFeasible.
Proof.
  unfold POST_swapPool, diversifyPool.
  etransitivity; [apply sublist_take |].
  etransitivity; [apply diversifyPool_loop_sublist |].
  destruct (SWAP_FRESH_MIN <=? _)%nat; [apply List_filter_sublist | reflexivity].
Qed.

Context `{M : JsMath}.


Lemma POST_picked_NoDup rnd calls strict :
  NoDup (map dedupKey strict) -> NoDup (map dedupKey (POST_picked rnd calls strict)).
Proof.
  intros Hnd. apply NoDup_fmap_2_strong.
  - intros a b Ha Hb Heq. apply elem_of_POST_picked in Ha, Hb.
    apply list_elem_of_lookup in Ha as [i Hi]. apply list_elem_of_lookup in Hb as [j Hj].
    assert (i = j) as ->.
    { eapply NoDup_lookup; [exact Hnd | |]; rewrite list_lookup_fmap.
      - by rewrite Hi.
      - rewrite Hj. simpl. by rewrite Heq. }
    congruence.
  - unfold POST_picked. apply swapLastIfUniform_NoDup, pickLoop_NoDup; [constructor |].
    intros o Ho. by apply elem_of_nil in Ho.
Qed.

Lemma map_imap_key {A B C : Type} (key : B -> C) (key' : A -> C) (g : nat -> A -> B)
    (l : list A) :
  (forall i a, key (g i a) = key' a) -> map key (imap g l) = map key' l.
Proof.
  revert g. induction l as [| a l IH]; intros g Hg; [reflexivity |].
  rewrite imap_cons. simpl. rewrite Hg. f_equal. apply IH. intros i b. apply Hg.
Qed.

End Distinct.

Section DistinctTheorem.

(** X20. No place is returned twice on the shortlist, nor twice in the swap
    pool: the Options of each list have pairwise distinct keys (the trimmed
    place identifier or, without one, the name and address in lower
    case). *)
Theorem no_place_twice `{M : JsMath} env body options w lim reason pool :
  POST env body = RespPlan options w lim reason pool ->
  NoDup (map dedupKey options) /\ NoDup (map dedupKey pool).
Proof.
  intros HP. apply POST_RespPlan in HP as (b & -> & HP).
  apply POST_plan_response in HP
    as (built & picked & swapPool & dropped & copyById & Hsel & -> & -> & _).
  revert Hsel. unfold POST_select.
  pose proof (POST_deduped_NoDup (POST_scoredAll (env_random env) (requestCtx env b w) built) [])
    as Hnd.
  pose proof (filterCounting_sublist (swapVerdict (requestCtx env b w))
                (POST_deduped (POST_scoredAll (env_random env) (requestCtx env b w) built) [])
                ∅) as Hsub1.
  destruct (filterCounting (swapVerdict _) _ ∅) as [swapFeasible dropped1].
  pose proof (filterCounting_sublist (strictVerdict (requestCtx env b w))
                (POST_deduped (POST_scoredAll (env_random env) (requestCtx env b w) built) [])
                dropped1) as Hsub2.
  destruct (filterCounting (strictVerdict _) _ dropped1) as [strict dropped2].
  simpl in Hsub1, Hsub2. intros [= <- <- <-]. split.
  - rewrite <- list_fmap_compose.
    rewrite (map_imap_key (dedupKey ∘ toPublicOption)
               (fun o => dedupKey (applyCopy (requestCtx env b w) copyById o))) by done.
    change (map (fun o => dedupKey (applyCopy (requestCtx env b w) copyById o)))
      with (map dedupKey). 
    rewrite <- (list_fmap_compose (applyCopy (requestCtx env b w) copyById)
                  (fun o => dedupKey (applyCopy (requestCtx env b w) copyById o))).
    apply POST_picked_NoDup.
    eapply sublist_NoDup; [exact Hnd |]. by apply fmap_sublist.
  - rewrite <- !list_fmap_compose.
    eapply sublist_NoDup; [exact Hnd |].
    change (dedupKey ∘ toPublicOption ∘ applyCopy (requestCtx env b w) copyById <$> ?l)
      with (map dedupKey l).
    apply fmap_sublist. etransitivity; [apply POST_swapPool_sublist | exact Hsub1].
Qed.

Lemma no_place_twice_witness :
  fetchPlaceDetailsById aliasEnv "ChIJcafe" 0 = Ok (Some Scenario.cafe) /\
  fetchPlaceDetailsById aliasEnv "ChIJalias" 0 = Ok (Some Scenario.cafe) /\
  map o_placeId
    (Scenario.options_of
       (POST (H := Sample.math) aliasEnv (Some (Scenario.request "Cozy" []))))
  = [Some "ChIJcafe"; Some "ChIJtea"] /\
  NoDup (map dedupKey
           (Scenario.options_of
              (POST (H := Sample.math) aliasEnv (Some (Scenario.request "Cozy" []))))) /\
  NoDup (map dedupKey
           (Scenario.pool_of
              (POST (H := Sample.math) aliasEnv (Some (Scenario.request "Cozy" []))))).
Proof.
  assert (HP : exists options lim reason pool,
             POST (H := Sample.math) aliasEnv (Some (Scenario.request "Cozy" []))
             = RespPlan options None lim reason pool /\
             map o_placeId options = [Some "ChIJcafe"; Some "ChIJtea"]).
  { do 4 eexists. split; [vm_compute; reflexivity | reflexivity]. }
  destruct HP as (options & lim & reason & pool & HP & Hids).
  split; [vm_compute; reflexivity |]. split; [vm_compute; reflexivity |].
  rewrite HP. split; [exact Hids |].
  exact (no_place_twice (M := Sample.math) _ _ _ _ _ _ _ HP).
Defined.

End DistinctTheorem.

(** ** The rate limiter *)

Section RateLimit.

Lemma POST_rate_limited `{M : JsMath} env body userId status retry msg :
  env_googleKey env = true -> env_userId env = Ok userId ->
  enforceRateLimit env (identityKey env userId) (negb (truthyStr userId))
    = Ok (RateDenied status retry msg) ->
  POST env body = RespError status msg (if retry =? 0 then None else Some retry).
Proof.
  intros Hk Hu Hr. unfold POST. rewrite Hk, Hu. simpl.
  fold (identityKey env userId). by rewrite Hr.
Qed.

(** X21. With the key and Redis configured, a caller whose counter of the
    minute exceeds the limit (3 for a guest, 12 for a signed-in user) is
    answered 429 with a Retry-After of 60 seconds, and one whose counter of
    the day exceeds its limit (15 or 200) 429 with 3600 seconds, before the
    body of the request is looked at; in production without Redis every
    request is answered 500. *)
Theorem rate_limit_is_answered_first `{M : JsMath} env body userId :
  env_googleKey env = true -> env_userId env = Ok userId ->
  (forall minCount dayCount,
      env_hasRedis env = true ->
      env_incr env ("rl:min:" +:+ identityKey env userId) = Ok minCount ->
      env_incr env ("rl:day:" +:+ identityKey env userId +:+ ":" +:+ env_today env)
        = Ok dayCount ->
      (perMinuteLimit userId < minCount ->
       POST env body = RespError 429 "Too many requests. Please slow down." (Some 60)) /\
      (minCount <= perMinuteLimit userId -> perDayLimit userId < dayCount ->
       POST env body = RespError 429 "Daily limit reached. Try again later." (Some 3600))) /\
  (env_hasRedis env = false -> env_production env = true ->
   POST env body = RespError 500 "Server not configured (rate limiter missing)." None).
Proof.
  intros Hk Hu. split.
  - intros minCount dayCount Hr Hmin Hday.
    assert (Hg : forall a b : Z,
               (if negb (truthyStr userId) then a else b) = if truthyStr userId then b else a)
      by (intros; by destruct (truthyStr userId)).
    split.
    + intros Hover. eapply (POST_rate_limited env body userId 429 60); try done.
      unfold enforceRateLimit. rewrite Hr, Hmin, Hday. simpl. rewrite Hg.
      unfold perMinuteLimit in Hover.
      destruct (Z.ltb_spec (if truthyStr userId then 12 else 3) minCount); [done | lia].
    + intros Hunder Hover. eapply (POST_rate_limited env body userId 429 3600); try done.
      unfold enforceRateLimit. rewrite Hr, Hmin, Hday. simpl. rewrite !Hg.
      unfold perMinuteLimit, perDayLimit in *.
      destruct (Z.ltb_spec (if truthyStr userId then 12 else 3) minCount); [lia |].
      destruct (Z.ltb_spec (if truthyStr userId then 200 else 15) dayCount); [done | lia].
  - intros Hr Hp. eapply (POST_rate_limited env body userId 500 0); try done.
    unfold enforceRateLimit. by rewrite Hr, Hp.
Qed.

Lemma rate_limit_is_answered_first_witness :
  POST (H := Sample.math) busyEnv None
  = RespError 429 "Too many requests. Please slow down." (Some 60).
Proof.
  destruct (rate_limit_is_answered_first (M := Sample.math) busyEnv None None eq_refl eq_refl)
    as [Hlim _].
  destruct (Hlim 4 4 eq_refl eq_refl eq_refl) as [Hmin _].
  apply Hmin. unfold perMinuteLimit. simpl. lia.
Defined.

End RateLimit.

(** ** The size of the shortlist *)


Section ShortlistSizeTheorem.

(** X22. The selection fills the shortlist whenever it can: out of strict
    candidates with pairwise distinct keys it picks 5, or all of them when
    there are fewer, whatever the random draws; every pick is one of the
    first 30 candidates. *)
Theorem shortlist_is_filled `{M : JsMath} rnd calls (strict : list Option) :
  NoDup (map selKey (take 30 strict)) ->
  length (POST_picked rnd calls strict) = Nat.min 5 (length strict) /\
  forall o, o ∈ POST_picked rnd calls strict -> o ∈ take 30 strict.
Proof.
  intros Hnd. split.
  - unfold POST_picked. rewrite length_swapLastIfUniform, length_pickLoop by done.
    rewrite length_take. cbn [length]. lia.
  - intros o Ho. unfold POST_picked in Ho.
    apply elem_of_swapLastIfUniform in Ho as [Ho | Ho]; [| done].
    apply elem_of_pickLoop in Ho as [Ho | Ho]; [by apply elem_of_nil in Ho | done].
Qed.

Lemma shortlist_is_filled_witness :
  length (POST_picked (H := Sample.math) Scenario.half 6 Scenario.sixFeasible) = 5%nat.
Proof.
  apply (shortlist_is_filled (M := Sample.math) Scenario.half 6 Scenario.sixFeasible).
  vm_compute. repeat constructor; rewrite ?elem_of_cons, elem_of_nil; intuition discriminate.
Defined.

End ShortlistSizeTheorem.

(** ** The freshness store of the page *)

Section Freshness.

Import Page.

Lemma tsCmp_newerFirst a b :
  Qle_bool (inject_Z (tsOf b - tsOf a)) 0 = true <-> newerFirst a b.
Proof.
  unfold newerFirst. rewrite Qle_bool_iff.
  change 0%Q with (inject_Z 0). rewrite <- Zle_Qle. lia.
Qed.

Lemma newerFirst_total a b : newerFirst a b \/ newerFirst b a.
Proof. unfold newerFirst. lia. Qed.

Lemma newerFirst_trans a b c : newerFirst a b -> newerFirst b c -> newerFirst a c.
Proof. unfold newerFirst. lia. Qed.

Lemma wellTyped_spec cutoff e :
  wellTyped cutoff e = true <-> exists k ts, e_k e = Some k /\ e_ts e = Some ts /\ cutoff <= ts.
Proof.
  unfold wellTyped. destruct (e_k e) as [k |], (e_ts e) as [ts |]; split;
    try discriminate; try (intros (? & ? & ? & ? & ?); discriminate).
  - intros H. apply Z.leb_le in H. by exists k, ts.
  - intros (k' & ts' & _ & [= <-] & H). by apply Z.leb_le.
Qed.

Lemma List_filter_all {B : Type} (f : B -> bool) (l : list B) :
  (forall x, x ∈ l -> f x = true) -> List.filter f l = l.
Proof.
  induction l as [| a l IH]; intros Hall; simpl; [reflexivity |].
  rewrite Hall by (by left). f_equal. apply IH. intros x Hx. apply Hall. by right.
Qed.

Lemma pruneList_elem now l ttl max e :
  e ∈ pruneList now l ttl max -> e ∈ l /\ wellTyped (now - ttl) e = true.
Proof.
  unfold pruneList. intros He. apply subseteq_take in He.
  apply elem_of_sortBy in He. by apply elem_of_List_filter in He.
Qed.

Lemma pruneList_sorted now l ttl max : StronglySorted newerFirst (pruneList now l ttl max).
Proof.
  unfold pruneList. apply StronglySorted_take.
  apply (sortBy_sorted _ newerFirst tsCmp_newerFirst newerFirst_total newerFirst_trans).
Qed.

(** X23. [pruneList] keeps the entries that have a string key and a stamp
    within the time to live, newest first and at most [max] of them: an
    entry it drops for the size is no newer than any entry it keeps, and
    pruning again at the same instant changes nothing. *)
Theorem pruneList_keeps_the_newest now (l : list Entry) ttl max :
  (length (pruneList now l ttl max) <= max)%nat /\
  (forall e, e ∈ pruneList now l ttl max ->
     e ∈ l /\ exists k ts, e_k e = Some k /\ e_ts e = Some ts /\ now - ttl <= ts) /\
  StronglySorted newerFirst (pruneList now l ttl max) /\
  (exists dropped,
      pruneList now l ttl max ++ dropped ≡ₚ List.filter (wellTyped (now - ttl)) l /\
      forall a b, a ∈ pruneList now l ttl max -> b ∈ dropped -> tsOf b <= tsOf a) /\
  pruneList now (pruneList now l ttl max) ttl max = pruneList now l ttl max.
Proof.
  split; [| split; [| split; [| split]]].
  - unfold pruneList. rewrite length_take. lia.
  - intros e He. apply pruneList_elem in He as [Hin Hw]. split; [done |].
    by apply wellTyped_spec.
  - apply pruneList_sorted.
  - set (sorted := sortBy (fun a b => inject_Z (tsOf b - tsOf a))
                     (List.filter (wellTyped (now - ttl)) l)).
    exists (drop max sorted). unfold pruneList. fold sorted. split.
    + rewrite take_drop. apply sortBy_Permutation.
    + intros a b Ha Hb.
      eapply (StronglySorted_app_le newerFirst); [| exact Ha | exact Hb].
      rewrite take_drop.
      apply (sortBy_sorted _ newerFirst tsCmp_newerFirst newerFirst_total newerFirst_trans).
  - set (r := pruneList now l ttl max). unfold pruneList at 1.
    rewrite List_filter_all by (intros e He; by apply pruneList_elem in He as [_ ?]).
    rewrite (sortBy_of_sorted _ newerFirst tsCmp_newerFirst) by apply pruneList_sorted.
    apply take_ge. unfold r, pruneList. rewrite length_take. lia.
Qed.

Lemma pruneList_keeps_the_newest_witness :
  pruneList 1000 [entryAt "a" 10; {| e_k := None; e_ts := Some 900 |};
                  entryAt "b" 950; entryAt "c" 990; entryAt "d" 700] 100 2
  = [entryAt "c" 990; entryAt "b" 950] /\
  exists k ts, e_k (entryAt "c" 990) = Some k /\ e_ts (entryAt "c" 990) = Some ts /\
               1000 - 100 <= ts.
Proof.
  split; [reflexivity |].
  apply (pruneList_keeps_the_newest 1000
           [entryAt "a" 10; {| e_k := None; e_ts := Some 900 |};
            entryAt "b" 950; entryAt "c" 990; entryAt "d" 700] 100 2).
  by left.
Defined.

Lemma pruneBucket_pruned now1 now2 b : bucketPruned now1 now2 (pruneBucket now1 now2 b).
Proof.
  unfold bucketPruned, pruneBucket. cbn [recentSeen recentSwapped].
  repeat split.
  - unfold pruneList. rewrite length_take. lia.
  - unfold pruneList. rewrite length_take. lia.
  - intros e He. by apply pruneList_elem in He as [_ ?].
  - intros e He. by apply pruneList_elem in He as [_ ?].
  - apply pruneList_sorted.
  - apply pruneList_sorted.
Qed.

(** X24. Each of [getCityFreshnessSets], [markSeen] and [markSwapped]
    leaves the bucket of its city pruned (at most 60 entries in each list,
    all with a key and a stamp within 36 and 48 hours, newest first) and the
    bucket of every other city as it was. *)
Theorem freshness_store_stays_pruned t now1 now2 (store : gmap string Bucket)
    (city : string) (keys : list string) (key : string) :
  let s1 := (getCityFreshnessSets now1 now2 store city).1 in
  let s2 := markSeen t now1 now2 store city keys in
  let s3 := markSwapped t now1 now2 store city key in
  bucketPruned now1 now2 (bucketOf s1 city) /\
  bucketPruned now1 now2 (bucketOf s2 city) /\
  (Str.truthy key = true -> bucketPruned now1 now2 (bucketOf s3 city)) /\
  (forall other, other <> city ->
     s1 !! other = store !! other /\ s2 !! other = store !! other /\
     s3 !! other = store !! other).
Proof.
  cbv zeta. unfold getCityFreshnessSets, markSeen, markSwapped, bucketOf. cbn [fst].
  split; [| split; [| split]].
  - rewrite lookup_insert_eq. apply pruneBucket_pruned.
  - rewrite lookup_insert_eq. apply pruneBucket_pruned.
  - intros ->. cbn [negb]. rewrite lookup_insert_eq. apply pruneBucket_pruned.
  - intros other Hne. rewrite !lookup_insert_ne by done. split; [done |]. split; [done |].
    destruct (negb (Str.truthy key)); [done |]. by rewrite lookup_insert_ne.
Qed.

Lemma freshness_store_stays_pruned_witness :
  bucketPruned 1000 1000 (bucketOf (markSwapped 1000 1000 1000 ∅ "Boston" "ChIJcafe") "Boston") /\
  recentSwapped (bucketOf (markSwapped 1000 1000 1000 ∅ "Boston" "ChIJcafe") "Boston")
  = [entryAt "ChIJcafe" 1000].
Proof.
  split; [| vm_compute; reflexivity].
  apply (freshness_store_stays_pruned 1000 1000 1000 ∅ "Boston" [] "ChIJcafe"). reflexivity.
Defined.

End Freshness.

(** ** From the page to the route *)

Section PageToRoute.

Import Page.

Lemma optKey_nonempty city o : Str.truthy (optKey city o) = true.
Proof.
  unfold optKey. destruct (Str.truthy (Str.trim _)) eqn:Hp; [exact Hp |].
  apply truthy_app_cons.
Qed.





Lemma omap_Some {A : Type} (l : list A) : omap (fun v : option A => v) (map Some l) = l.
Proof. induction l as [| a l IH]; [reflexivity |]. cbn. by rewrite IH. Qed.

Lemma pruneList_length now l ttl max : (length (pruneList now l ttl max) <= max)%nat.
Proof. unfold pruneList. rewrite length_take. lia. Qed.

Lemma keysOf_length l : (length (keysOf l) <= length l)%nat.
Proof. apply length_omap_le. Qed.

Lemma sent_keys_honoured now1 now2 store city :
  let sent := (getCityFreshnessSets now1 now2 store city).2 in
  sanitizeIdList (Some (map Some sent.1)) MAX_SEEN_IDS
    = List.filter Str.truthy (map Str.trim sent.1) /\
  sanitizeIdList (Some (map Some sent.2)) MAX_SWAPPED_IDS
    = List.filter Str.truthy (map Str.trim sent.2).
Proof.
  cbv zeta. unfold getCityFreshnessSets. cbn [fst snd pruneBucket recentSeen recentSwapped].
  split; rewrite sanitizeIdList_take; unfold trimmedIds; rewrite omap_Some; apply take_ge.
  - etransitivity; [apply List.filter_length_le |]. rewrite length_map.
    etransitivity; [apply keysOf_length |].
    etransitivity; [apply pruneList_length |]. unfold MAX_SEEN, MAX_SEEN_IDS. lia.
  - etransitivity; [apply List.filter_length_le |]. rewrite length_map.
    etransitivity; [apply keysOf_length |].
    etransitivity; [apply pruneList_length |]. unfold MAX_SWAPPED, MAX_SWAPPED_IDS. lia.
Qed.

(** X25. The page sends at most 60 seen and 60 swapped keys with a request,
    fewer than the 220 the route reads, so the route works with every key it
    is sent: its seen and swapped sets are the trimmed non-blank keys of the
    page, none cut off. *)
Theorem sent_keys_are_all_honoured now1 now2 store city vibe withWho veg env w :
  let sent := (getCityFreshnessSets now1 now2 store city).2 in
  let x := requestCtx env (planRequest city vibe withWho veg sent) w in
  (length sent.1 <= 60)%nat /\ (length sent.2 <= 60)%nat /\
  x_seenSet x = List.filter Str.truthy (map Str.trim sent.1) /\
  x_swappedSet x = List.filter Str.truthy (map Str.trim sent.2).
Proof.
  cbv zeta. destruct (sent_keys_honoured now1 now2 store city) as [Hs Hw].
  split; [| split; [| split]]; [| | exact Hs | exact Hw];
    unfold getCityFreshnessSets; cbn [fst snd pruneBucket recentSeen recentSwapped];
    (etransitivity; [apply keysOf_length |]); apply pruneList_length.
Qed.























End PageToRoute.

Section PageToRouteTheorem.

Import Page.



End PageToRouteTheorem.

(** ** Swapping and picking on the page *)

Section PageSwap.

Import Page.

Lemma optKey_withId city o i : optKey city (withId o i) = optKey city o.
Proof. reflexivity. Qed.

(** X27. The key under which the page remembers an Option is never empty,
    and for an Option with a place identifier it is that identifier,
    trimmed: the key the route dedups, selects and excludes by. *)
Theorem page_key_is_the_place_id city (o : Option) :
  Str.truthy (optKey city o) = true /\
  forall pid, o_placeId o = Some pid -> Str.truthy (Str.trim pid) = true ->
    optKey city o = Str.trim pid /\ dedupKey o = Str.trim pid /\ selKey o = Str.trim pid.
Proof.
  split; [apply optKey_nonempty |].
  intros pid Hp Ht. unfold optKey, dedupKey, selKey. rewrite Hp. simpl. by rewrite Ht.
Qed.

Lemma page_key_is_the_place_id_witness :
  optKey "Boston" (Scenario.open3h " ChIJcafe " "Cafe") = "ChIJcafe" /\
  dedupKey (Scenario.open3h " ChIJcafe " "Cafe") = "ChIJcafe".
Proof.
  destruct (page_key_is_the_place_id "Boston" (Scenario.open3h " ChIJcafe " "Cafe"))
    as [_ Hk].
  destruct (Hk " ChIJcafe " eq_refl eq_refl) as (H1 & H2 & _).
  split; [exact H1 | exact H2].
Defined.

Lemma findIndex_Some {A : Type} (f : A -> bool) (l : list A) (i : nat) :
  findIndex f l = Some i ->
  exists x, l !! i = Some x /\ f x = true /\
            forall j y, (j < i)%nat -> l !! j = Some y -> f y = false.
Proof.
  revert i. induction l as [| a l IH]; intros i; simpl; [discriminate |].
  destruct (f a) eqn:Ha.
  - intros [= <-]. exists a. split; [done |]. split; [done |]. intros j y Hj. lia.
  - destruct (findIndex f l) as [i' |]; simpl; [| discriminate].
    intros [= <-]. destruct (IH i' eq_refl) as (x & Hx & Hfx & Hbefore).
    exists x. split; [done |]. split; [done |].
    intros [| j] y Hj; simpl; [by intros [= <-] |].
    apply Hbefore. lia.
Qed.

Lemma find_first {A : Type} (f : A -> bool) (l : list A) (x : A) :
  List.find f l = Some x -> x ∈ l /\ f x = true.
Proof. intros Hf. apply find_some in Hf as [Hin Hx]. by apply list_elem_of_In in Hin. Qed.

Lemma find_split {A : Type} (f : A -> bool) (l : list A) (x : A) :
  List.find f l = Some x ->
  exists l1 l2, l = l1 ++ x :: l2 /\ f x = true /\ forall y, y ∈ l1 -> f y = false.
Proof.
  induction l as [| a l IH]; simpl; [discriminate |].
  destruct (f a) eqn:Ha.
  - intros [= <-]. exists [], l. split; [reflexivity |]. split; [exact Ha |].
    intros y Hy. by apply elem_of_nil in Hy.
  - intros Hf. destruct (IH Hf) as (l1 & l2 & -> & Hx & Hbefore).
    exists (a :: l1), l2. split; [reflexivity |]. split; [exact Hx |].
    intros y Hy. apply elem_of_cons in Hy as [-> | Hy]; [exact Ha | by apply Hbefore].
Qed.

Lemma find_None {A : Type} (f : A -> bool) (l : list A) (x : A) :
  List.find f l = None -> x ∈ l -> f x = false.
Proof. intros Hf Hin. apply list_elem_of_In in Hin. by eapply find_none. Qed.

Lemma countsWithout_count city rk (l : list Option) (m : gmap string nat) k :
  countOf (foldl (fun m o =>
                    if Str.eqb (optKey city o) rk then m
                    else <[catKey o := S (countOf m (catKey o))]> m) m l) k
  = (countOf m k
     + countKey k (List.filter (fun o => negb (Str.eqb (optKey city o) rk)) l))%nat.
Proof.
  revert m. induction l as [| a l IH]; intros m; simpl.
  - unfold countKey. simpl. lia.
  - destruct (Str.eqb (optKey city a) rk); simpl; [apply IH |].
    rewrite IH, countOf_insert, (countKey_cons k a), countKey_single.
    destruct (Str.eqb (catKey a) k) eqn:Hk; [| lia].
    apply Str_eqb_true in Hk. subst k. lia.
Qed.

Lemma countsWithout_others city prev removed k :
  countOf (countsWithout city (optKey city removed) prev) k
  = countKey k (othersOf city prev removed).
Proof.
  unfold countsWithout, othersOf. rewrite countsWithout_count.
  unfold countOf at 1. by rewrite lookup_empty.
Qed.

Lemma baseOk_spec city prev banned removed cand :
  baseOk city (optKey city removed) (map (optKey city) (othersOf city prev removed))
    banned cand = true <->
  optKey city cand <> optKey city removed /\
  (forall o, o ∈ prev -> optKey city o <> optKey city cand) /\
  (optKey city cand ∉ banned) /\ isClosed (o_openStatus cand) = false.
Proof.
  unfold baseOk. rewrite optKey_nonempty. cbn [andb].
  rewrite !andb_true_iff, !negb_true_iff, Str_eqb_false, !has_false. split.
  - intros (((Hne & Hused) & Hban) & Hcl). repeat split; try done.
    intros o Ho Heq. destruct (decide (optKey city o = optKey city removed)) as [Hr | Hr].
    + congruence.
    + apply Hused. rewrite <- Heq. apply list_elem_of_fmap_2.
      unfold othersOf. apply elem_of_List_filter. split; [done |].
      by apply negb_true_iff, Str_eqb_false.
  - intros (Hne & Hall & Hban & Hcl). repeat split; try done.
    intros Hin. apply list_elem_of_fmap in Hin as (o & Heq & Ho).
    unfold othersOf in Ho. apply elem_of_List_filter in Ho as [Ho _].
    by apply (Hall o).
Qed.

Lemma swapChoice_cases city prev pool banned removed :
  let ok := baseOk city (optKey city removed)
              (map (optKey city) (othersOf city prev removed)) banned in
  let n cand := countKey (catKey cand) (othersOf city prev removed) in
  swapChoice city prev pool banned removed =
    match List.find (fun cand => ok cand && (n cand <? 2)%nat) pool with
    | Some x => Some x
    | None => match List.find (fun cand => ok cand && (n cand <? 3)%nat) pool with
              | Some x => Some x
              | None => List.find ok pool
              end
    end.
Proof.
  cbv zeta. unfold swapChoice. fold (othersOf city prev removed).
  assert (Hext : forall bound,
    List.find (fun cand =>
       baseOk city (optKey city removed) (map (optKey city) (othersOf city prev removed))
         banned cand
       && (countOf (countsWithout city (optKey city removed) prev) (catKey cand) <? bound)%nat)
      pool
    = List.find (fun cand =>
       baseOk city (optKey city removed) (map (optKey city) (othersOf city prev removed))
         banned cand
       && (countKey (catKey cand) (othersOf city prev removed) <? bound)%nat) pool).
  { intros bound. induction pool as [| a l IH]; [reflexivity |]. simpl.
    rewrite countsWithout_others. destruct (_ && _); [reflexivity | exact IH]. }
  by rewrite !Hext.
Qed.

Lemma NoDup_insert_key {A B : Type} (key : A -> B) (l : list A) (i : nat) (x : A) :
  NoDup (map key l) -> (forall o, o ∈ l -> key o <> key x) ->
  NoDup (map key (<[i := x]> l)).
Proof.
  revert i. induction l as [| a l IH]; intros i Hnd Hall; [done |].
  simpl in Hnd. apply NoDup_cons in Hnd as [Hnin Hnd].
  destruct i as [| i]; simpl.
  - apply NoDup_cons. split; [| done].
    intros Hin. apply list_elem_of_fmap in Hin as (o & Heq & Ho).
    apply (Hall o); [by right | done].
  - apply NoDup_cons. split.
    + intros Hin. apply list_elem_of_fmap in Hin as (o & Heq & Ho).
      apply list_elem_of_lookup in Ho as [j Hj].
      destruct (decide (i = j)) as [<- | Hne].
      * destruct (l !! i) as [y |] eqn:Hy.
        -- rewrite list_lookup_insert_eq in Hj by (by eapply lookup_lt_Some).
           injection Hj as <-. apply (Hall a); [by left | done].
        -- rewrite list_insert_ge in Hj by (by apply lookup_ge_None).
           congruence.
      * rewrite list_lookup_insert_ne in Hj by done.
        apply Hnin. rewrite Heq. apply list_elem_of_fmap_2. by eapply list_elem_of_lookup_2.
    + apply IH; [done |]. intros o Ho. apply Hall. by right.
Qed.

Lemma map_insert_same {A B : Type} (f : A -> B) (l : list A) (i : nat) (x y : A) :
  l !! i = Some y -> f x = f y -> map f (<[i := x]> l) = map f l.
Proof.
  intros Hy Hf. change (map f) with (fmap (M := list) f).
  rewrite list_fmap_insert, Hf. apply list_insert_id. by rewrite list_lookup_fmap, Hy.
Qed.

End PageSwap.

Section PageSwapTheorems.

Import Page.

(** X28. A swap on the page replaces the first Option with the given id by
    an Option of the pool and leaves the length and the ids of the
    shortlist as they were.  The Option brought in is not reported closed,
    was not brought in by an earlier swap, and is no place already on the
    shortlist, the one that leaves included; so a shortlist without
    duplicates stays without duplicates. *)
Theorem swap_keeps_the_shortlist_sound city prev pool banned id next' banned' :
  swapOption city prev pool banned id = Some (next', banned') ->
  exists idx removed next,
    prev !! idx = Some removed /\ o_id removed = id /\
    (forall j o, (j < idx)%nat -> prev !! j = Some o -> o_id o <> id) /\
    next ∈ pool /\
    next' = <[idx := withId next id]> prev /\
    length next' = length prev /\ map o_id next' = map o_id prev /\
    banned' = optKey city next :: banned /\
    (optKey city next ∉ banned) /\
    (forall o, o ∈ prev -> optKey city o <> optKey city next) /\
    isClosed (o_openStatus next) = false /\
    (NoDup (map (optKey city) prev) -> NoDup (map (optKey city) next')).
Proof.
  unfold swapOption.
  destruct (findIndex _ prev) as [idx |] eqn:Hidx; [| discriminate].
  apply findIndex_Some in Hidx as (removed & Hl & Hid & Hbefore).
  rewrite Hl. apply Str_eqb_true in Hid.
  destruct (swapChoice city prev pool banned removed) as [next |] eqn:Hch; [| discriminate].
  rewrite optKey_nonempty, Hid. intros [= <- <-].
  assert (Hok : next ∈ pool /\
                baseOk city (optKey city removed)
                  (map (optKey city) (othersOf city prev removed)) banned next = true).
  { rewrite swapChoice_cases in Hch. cbv zeta in Hch.
    destruct (List.find _ pool) as [x |] eqn:H1.
    - injection Hch as ->. apply find_first in H1 as [Hin H1].
      apply andb_true_iff in H1 as [H1 _]. done.
    - destruct (List.find (fun cand => _ && (_ <? 3)%nat) pool) as [x |] eqn:H2.
      + injection Hch as ->. apply find_first in H2 as [Hin H2].
        apply andb_true_iff in H2 as [H2 _]. done.
      + by apply find_first in Hch. }
  destruct Hok as [Hin Hok]. apply baseOk_spec in Hok as (Hne & Hall & Hban & Hcl).
  exists idx, removed, next. repeat split; try done.
  - intros j o Hj Ho Heq. apply (Hbefore j o Hj) in Ho. apply Str_eqb_false in Ho. done.
  - by rewrite length_insert.
  - by apply (map_insert_same o_id) with removed.
  - intros Hnd. apply NoDup_insert_key; [done |].
    intros o Ho. rewrite optKey_withId. by apply Hall.
Qed.

Lemma swap_keeps_the_shortlist_sound_witness :
  exists next' banned',
    swapOption "Boston" shortlist3 pool2 [] "3" = Some (next', banned') /\
    map o_id next' = ["1"; "2"; "3"] /\ banned' = ["d1"] /\
    NoDup (map (optKey "Boston") next').
Proof.
  assert (Hs : swapOption "Boston" shortlist3 pool2 [] "3"
               = Some (<[2%nat := withId (Scenario.open3h "d1" "Dessert") "3"]> shortlist3,
                       ["d1"]))
    by (vm_compute; reflexivity).
  do 2 eexists. split; [exact Hs |].
  destruct (swap_keeps_the_shortlist_sound _ _ _ _ _ _ _ Hs)
    as (idx & removed & next & _ & _ & _ & _ & _ & _ & Hids & _ & _ & _ & _ & Hnd).
  split; [exact Hids |]. split; [reflexivity |].
  apply Hnd. vm_compute.
  repeat constructor; rewrite ?elem_of_cons, elem_of_nil; intuition discriminate.
Defined.

(** X29. A swap keeps the shortlist diverse when it can: the Option it
    brings in is the first of the pool, among those it may bring in, whose
    category occurs less than twice among the Options that stay, or else
    the first whose category occurs less than three times, or else the first
    it may bring in at all; and it gives up only when the pool has no Option
    it may bring in. *)
Theorem swap_prefers_diversity city prev pool banned removed :
  let ok := baseOk city (optKey city removed)
              (map (optKey city) (othersOf city prev removed)) banned in
  let n cand := countKey (catKey cand) (othersOf city prev removed) in
  (forall next, swapChoice city prev pool banned removed = Some next ->
     next ∈ pool /\ ok next = true /\
     (forall cand, cand ∈ pool -> ok cand = true -> (n cand < 2)%nat -> (n next < 2)%nat) /\
     (forall cand, cand ∈ pool -> ok cand = true -> (n cand < 3)%nat -> (n next < 3)%nat) /\
     exists before after,
       pool = before ++ next :: after /\
       forall cand, cand ∈ before -> ok cand = true ->
         ((n next < 2)%nat /\ (2 <= n cand)%nat) \/ (n next = 2%nat /\ (3 <= n cand)%nat)) /\
  (swapChoice city prev pool banned removed = None ->
   forall cand, cand ∈ pool -> ok cand = false).
Proof.
  cbv zeta. rewrite swapChoice_cases. cbv zeta. split.
  - intros next Hch.
    destruct (List.find _ pool) as [x |] eqn:H1.
    + injection Hch as ->. apply find_split in H1 as (l1 & l2 & Hpool & H1 & Hbefore).
      apply andb_true_iff in H1 as [Hok Hn]. apply Nat.ltb_lt in Hn.
      split; [rewrite Hpool; set_solver |].
      split; [done |]. split; [intros; lia |]. split; [intros; lia |].
      exists l1, l2. split; [done |]. intros cand Hc Hokc. left. split; [done |].
      specialize (Hbefore cand Hc). simpl in Hbefore.
      rewrite Hokc in Hbefore. cbn [andb] in Hbefore. by apply Nat.ltb_ge in Hbefore.
    + destruct (List.find (fun cand => _ && (_ <? 3)%nat) pool) as [x |] eqn:H2.
      * injection Hch as ->. apply find_split in H2 as (l1 & l2 & Hpool & H2 & Hbefore).
        apply andb_true_iff in H2 as [Hok Hn]. apply Nat.ltb_lt in Hn.
        assert (Hin : next ∈ pool) by (rewrite Hpool; set_solver).
        pose proof (find_None _ _ next H1 Hin) as Hf. simpl in Hf.
        rewrite Hok in Hf. cbn [andb] in Hf. apply Nat.ltb_ge in Hf.
        split; [done |]. split; [done |]. split; [| split; [intros; lia |]].
        -- intros cand Hc Hokc Hnc. exfalso.
           pose proof (find_None _ _ cand H1 Hc) as Hf'. simpl in Hf'.
           rewrite Hokc in Hf'. cbn [andb] in Hf'. apply Nat.ltb_ge in Hf'. lia.
        -- exists l1, l2. split; [done |]. intros cand Hc Hokc. right. split; [lia |].
           specialize (Hbefore cand Hc). simpl in Hbefore.
           rewrite Hokc in Hbefore. cbn [andb] in Hbefore. by apply Nat.ltb_ge in Hbefore.
      * apply find_split in Hch as (l1 & l2 & Hpool & Hok & Hbefore).
        split; [rewrite Hpool; set_solver |].
        split; [done |]. split; [| split].
        -- intros cand Hc Hokc Hnc. exfalso.
           pose proof (find_None _ _ cand H1 Hc) as Hf. simpl in Hf.
           rewrite Hokc in Hf. cbn [andb] in Hf. apply Nat.ltb_ge in Hf. lia.
        -- intros cand Hc Hokc Hnc. exfalso.
           pose proof (find_None _ _ cand H2 Hc) as Hf. simpl in Hf.
           rewrite Hokc in Hf. cbn [andb] in Hf. apply Nat.ltb_ge in Hf. lia.
        -- exists l1, l2. split; [done |]. intros cand Hc Hokc.
           rewrite (Hbefore cand Hc) in Hokc. discriminate.
  - destruct (List.find _ pool) as [x |]; [discriminate |].
    destruct (List.find (fun cand => _ && (_ <? 3)%nat) pool) as [x |]; [discriminate |].
    intros Hf cand Hc. by eapply find_None.
Qed.

Lemma swap_prefers_diversity_witness :
  swapChoice "Boston" shortlist3 pool3 [] (withId (Scenario.open3h "b1" "Bookstore") "3")
  = Some (Scenario.open3h "d1" "Dessert") /\
  (countKey "Dessert"
     (othersOf "Boston" shortlist3 (withId (Scenario.open3h "b1" "Bookstore") "3")) < 2)%nat /\
  (exists before after,
      pool3 = before ++ Scenario.open3h "d1" "Dessert" :: after /\
      forall cand, cand ∈ before ->
        baseOk "Boston" "b1"
          (map (optKey "Boston")
             (othersOf "Boston" shortlist3 (withId (Scenario.open3h "b1" "Bookstore") "3")))
          [] cand = true ->
        (2 <= countKey (catKey cand)
                (othersOf "Boston" shortlist3
                   (withId (Scenario.open3h "b1" "Bookstore") "3")))%nat).
Proof.
  assert (Hs : swapChoice "Boston" shortlist3 pool3 []
                 (withId (Scenario.open3h "b1" "Bookstore") "3")
               = Some (Scenario.open3h "d1" "Dessert"))
    by (vm_compute; reflexivity).
  split; [exact Hs |].
  destruct (swap_prefers_diversity "Boston" shortlist3 pool3 []
              (withId (Scenario.open3h "b1" "Bookstore") "3")) as [Hsome _].
  destruct (Hsome _ Hs) as (_ & _ & H2 & _ & before & after & Hpool & Hfirst).
  split.
  - apply (H2 (Scenario.open3h "d2" "Dessert")).
    + do 2 right. by left.
    + vm_compute. reflexivity.
    + vm_compute. lia.
  - exists before, after. split; [exact Hpool |]. intros cand Hc Hok.
    destruct (Hfirst cand Hc Hok) as [[_ Hn] | [Hn _]]; [exact Hn |].
    vm_compute in Hn. discriminate.
Defined.

(** X30. "Your plan" never holds more than two stops and never the same
    place twice: [addToPlan] takes a place that is in the plan out of it,
    adds a new one only while there are fewer than two, and otherwise leaves
    the plan as it is. *)
Theorem plan_holds_at_most_two city (prev : list Option) (opt : Option) :
  ((length prev <= 2)%nat -> (length (addToPlan city prev opt) <= 2)%nat) /\
  (NoDup (map (optKey city) prev) -> NoDup (map (optKey city) (addToPlan city prev opt))) /\
  (optKey city opt ∈ map (optKey city) prev ->
   optKey city opt ∉ map (optKey city) (addToPlan city prev opt)) /\
  (optKey city opt ∉ map (optKey city) prev ->
   addToPlan city prev opt = if (2 <=? length prev)%nat then prev else prev ++ [opt]).
Proof.
  unfold addToPlan.
  destruct (List.find _ prev) as [p |] eqn:Hf.
  - apply find_first in Hf as [Hin Hk]. apply Str_eqb_true in Hk.
    split; [| split; [| split]].
    + intros Hlen. etransitivity; [apply List.filter_length_le | done].
    + intros Hnd. eapply sublist_NoDup; [exact Hnd |].
      apply fmap_sublist, List_filter_sublist.
    + intros _ Hin'. apply list_elem_of_fmap in Hin' as (o & Heq & Ho).
      apply elem_of_List_filter in Ho as [_ Ho].
      apply negb_true_iff, Str_eqb_false in Ho. congruence.
    + intros Hnin. exfalso. apply Hnin. rewrite <- Hk. by apply list_elem_of_fmap_2.
  - assert (Hnin : optKey city opt ∉ map (optKey city) prev).
    { intros Hin. apply list_elem_of_fmap in Hin as (o & Heq & Ho).
      pose proof (find_None _ _ o Hf Ho) as Hk. apply Str_eqb_false in Hk. congruence. }
    split; [| split; [| split]]; try done.
    + intros Hlen. destruct (Nat.leb_spec 2 (length prev)); [done |].
      rewrite length_app. simpl. lia.
    + intros Hnd. destruct (2 <=? length prev)%nat; [done |].
      rewrite map_app. apply NoDup_app. split; [done |]. split; [| apply NoDup_singleton].
      intros k Hk Hin. apply list_elem_of_singleton in Hin as ->. done.
Qed.

Lemma plan_holds_at_most_two_witness :
  (length (addToPlan "Boston" pool2 (Scenario.open3h "b1" "Bookstore")) <= 2)%nat /\
  addToPlan "Boston" pool2 (Scenario.open3h "b1" "Bookstore") = pool2.
Proof.
  destruct (plan_holds_at_most_two "Boston" pool2 (Scenario.open3h "b1" "Bookstore"))
    as (Hlen & _ & _ & Hnew).
  split; [apply Hlen; simpl; lia |].
  rewrite Hnew; [reflexivity |].
  apply has_false. vm_compute. reflexivity.
Defined.

End PageSwapTheorems.

